(** * Page discovery of the accessibility checker: URL normaliser, sitemap
      harvester and crawl frontier

    A shallow embedding of [src/utils/url.ts], [src/sitemap/fetchSitemap.ts]
    and the crawler ([crawlSite] / [crawlPage]), and of what surrounds them:
    [src/utils/robots.ts], [src/sitemap/discover.ts], the scan loop of
    [src/scan/axeRunner.ts], [escapeHtml] of the HTML reporter and the base
    URL handling of the command line; followed by the properties proved
    about them.

    Conventions of the embedding.
    - A JavaScript string is a [string] of bytes; the model works on printable
      ASCII, see [Url.URL_parse].
    - A function that can throw returns an [option] (or a result type): [None]
      is the exception.
    - What the platform provides and the repository does not define (the
      collation behind [localeCompare], relative URL resolution, the HTTP
      server, the XML parser, the robots parser, the clock, the page
      renderer, the scanned page) is a [Variable] of the section that uses
      it. *)

From Stdlib Require Import String Ascii List Bool Arith NArith ZArith Lia.
From Stdlib Require Import DecimalString DecimalN QArith Qround.
From Stdlib Require Import Sorted Permutation.
Import ListNotations.
Local Open Scope string_scope.
Local Open Scope list_scope.

(* ================================================================== *)
(** * Part I: the model *)
(* ================================================================== *)

(** ** String primitives used by the sources *)

Module Str.

Fixpoint all (p : ascii -> bool) (s : string) : bool :=
  match s with
  | EmptyString => true
  | String c r => p c && all p r
  end.

(** Longest prefix whose characters satisfy [p], and what follows it. *)
Fixpoint span (p : ascii -> bool) (s : string) : string * string :=
  match s with
  | EmptyString => (EmptyString, EmptyString)
  | String c r =>
      if p c then let (a, b) := span p r in (String c a, b)
      else (EmptyString, s)
  end.

Fixpoint drop_while (p : ascii -> bool) (s : string) : string :=
  match s with
  | EmptyString => EmptyString
  | String c r => if p c then drop_while p r else s
  end.

Fixpoint map (f : ascii -> ascii) (s : string) : string :=
  match s with
  | EmptyString => EmptyString
  | String c r => String (f c) (map f r)
  end.

Definition between (lo hi c : ascii) : bool :=
  (N_of_ascii lo <=? N_of_ascii c)%N && (N_of_ascii c <=? N_of_ascii hi)%N.

Definition is_upper (c : ascii) : bool := between "A" "Z" c.
Definition is_lower (c : ascii) : bool := between "a" "z" c.
Definition is_digit (c : ascii) : bool := between "0" "9" c.

(** Membership of a character in a literal set of characters. *)
Fixpoint mem (c : ascii) (set : string) : bool :=
  match set with
  | EmptyString => false
  | String d r => Ascii.eqb c d || mem c r
  end.

Definition lower_ascii (c : ascii) : ascii :=
  if is_upper c then ascii_of_N (N_of_ascii c + 32) else c.

(** [s.toLowerCase()] on ASCII. *)
Definition toLowerCase (s : string) : string := map lower_ascii s.

(** [s.split(sep)] for a one-character separator; never the empty list. *)
Fixpoint split_on (sep : ascii) (s : string) : list string :=
  match s with
  | EmptyString => [EmptyString]
  | String c r =>
      if Ascii.eqb c sep then EmptyString :: split_on sep r
      else match split_on sep r with
           | h :: t => String c h :: t
           | [] => [String c EmptyString]
           end
  end.

(** [s.endsWith(suffix)]. *)
Fixpoint endsWith (s suffix : string) : bool :=
  String.eqb s suffix
  || match s with
     | EmptyString => false
     | String _ r => endsWith r suffix
     end.

(** [s.startsWith(p)]. *)
Definition startsWith (s p : string) : bool := String.prefix p s.

(** [s.includes(sub)]. *)
Fixpoint includes (s sub : string) : bool :=
  String.prefix sub s
  || match s with
     | EmptyString => false
     | String _ r => includes r sub
     end.

(** [s.slice(0, -1)]. *)
Fixpoint chop (s : string) : string :=
  match s with
  | EmptyString => EmptyString
  | String c EmptyString => EmptyString
  | String c r => String c (chop r)
  end.

(** [s.slice(s.lastIndexOf("."))] when there is a dot, [None] when
    [lastIndexOf] is -1. *)
Fixpoint from_last_dot (s : string) : option string :=
  match s with
  | EmptyString => None
  | String c r =>
      match from_last_dot r with
      | Some e => Some e
      | None => if Ascii.eqb c "." then Some s else None
      end
  end.

(** [s] is empty or starts with a character that fails [p]. *)
Definition stops (p : ascii -> bool) (s : string) : Prop :=
  match s with
  | EmptyString => True
  | String c _ => p c = false
  end.

End Str.

(** ** The platform's [URL] class, on the fragment the model covers

    The record is the URL record of the WHATWG standard.  [URL_parse] follows
    the standard's parser on absolute URLs
    [scheme://host[:port]/path?query#fragment] with a special scheme other
    than [file], written in printable ASCII, without credentials, whose host
    is an LDH domain or a dotted-quad address, whose path, query and
    fragment contain only characters the parser leaves as they are, whose
    path has no dot segment, and whose query escapes ASCII bytes only.  On
    this fragment the record it builds is the standard's.  On every other
    input it answers [None], which therefore stands both for the
    constructor's [TypeError] and for an input outside the fragment;
    [URL_rejects], further down, names inputs on which it is the
    former. *)

Module Url.

Record URL := mkURL {
  url_scheme : string;
  url_host : string;
  url_port : option N;
  url_path : string;
  url_query : option string;
  url_fragment : option string
}.

Definition default_port (scheme : string) : option N :=
  if scheme =? "http" then Some 80%N
  else if scheme =? "https" then Some 443%N
  else if scheme =? "ws" then Some 80%N
  else if scheme =? "wss" then Some 443%N
  else if scheme =? "ftp" then Some 21%N
  else None.

Definition is_printable (c : ascii) : bool := Str.between "!" "~" c.

Definition is_slash (c : ascii) : bool := Str.mem c "/\".

Definition host_char (c : ascii) : bool :=
  Str.is_lower c || Str.is_digit c || Str.mem c ".-".

(** Characters outside the path, query and fragment percent-encode sets
    (and, for the path, other than the backslash and the caret). *)
Definition dquote : ascii := ascii_of_N 34.

Definition path_char (c : ascii) : bool :=
  is_printable c && negb (Ascii.eqb c dquote || Str.mem c "#<>?`{}^\").

Definition query_char (c : ascii) : bool :=
  is_printable c && negb (Ascii.eqb c dquote || Str.mem c "#<>'").

Definition fragment_char (c : ascii) : bool :=
  is_printable c && negb (Ascii.eqb c dquote || Str.mem c "<>`").

Definition is_hex (c : ascii) : bool :=
  Str.is_digit c || Str.between "A" "F" c || Str.between "a" "f" c.

Definition is_high_hex (c : ascii) : bool :=
  Str.mem c "89" || Str.between "A" "F" c || Str.between "a" "f" c.

(** No percent escape of [s] stands for a byte above 127: an escape
    starts nowhere with a hexadecimal digit from 8 up. *)
Fixpoint ascii_escapes (s : string) : bool :=
  match s with
  | EmptyString => true
  | String c r =>
      negb (Ascii.eqb c "%"
            && match r with
               | String a (String b _) => is_high_hex a && is_hex b
               | _ => false
               end)
      && ascii_escapes r
  end.

(** A query the model covers: characters the query state leaves alone,
    and escapes of ASCII bytes only, so that the names and values that
    [searchParams] decodes are ASCII strings. *)
Definition query_ok (q : string) : bool :=
  Str.all query_char q && ascii_escapes q.

Definition fragment_ok (f : string) : bool := Str.all fragment_char f.

Definition mem_string (s : string) (l : list string) : bool :=
  existsb (String.eqb s) l.

(** Single-dot and double-dot path segments, which the parser removes. *)
Definition is_dot_segment (seg : string) : bool :=
  mem_string (Str.toLowerCase seg)
    ["."; ".."; "%2e"; ".%2e"; "%2e."; "%2e%2e"].

Definition path_ok (p : string) : bool :=
  Str.startsWith p "/"
  && Str.all path_char p
  && forallb (fun seg => negb (is_dot_segment seg)) (Str.split_on "/" p).

Definition decimal (ds : string) : option N :=
  if Str.all Str.is_digit ds
  then option_map N.of_uint (NilEmpty.uint_of_string ds)
  else None.

(** One part of a dotted-quad address as the serialiser prints it. *)
Definition ipv4_part (s : string) : bool :=
  match s with
  | EmptyString => false
  | String c r =>
      (negb (Ascii.eqb c "0") || (r =? ""))
      && match decimal s with
         | Some n => (n <=? 255)%N
         | None => false
         end
  end.

Definition is_ipv4 (h : string) : bool :=
  match Str.split_on "." h with
  | [a; b; c; d] => ipv4_part a && ipv4_part b && ipv4_part c && ipv4_part d
  | _ => false
  end.

(** The label the standard's ends-in-a-number check looks at. *)
Definition last_label (h : string) : string :=
  match rev (Str.split_on "." h) with
  | EmptyString :: l :: _ => l
  | l :: _ => l
  | [] => EmptyString
  end.

Definition starts_with_digit (s : string) : bool :=
  match s with
  | String c _ => Str.is_digit c
  | EmptyString => false
  end.

Definition host_ok (h : string) : bool :=
  negb (h =? "")
  && Str.all host_char h
  && forallb (fun l => negb (Str.startsWith l "xn--")) (Str.split_on "." h)
  && (is_ipv4 h || negb (starts_with_digit (last_label h))).

(** The port state: digits, at most 65535, the scheme's default port
    stored as no port. *)
Definition parse_port (ds : string) (dflt : N) : option (option N) :=
  if ds =? "" then Some None
  else match decimal ds with
       | Some n =>
           if (n <=? 65535)%N
           then Some (if (n =? dflt)%N then None else Some n)
           else None
       | None => None
       end.

Definition tail (s : string) : string :=
  match s with
  | EmptyString => EmptyString
  | String _ r => r
  end.

Definition opt_test (p : string -> bool) (o : option string) : bool :=
  match o with
  | Some s => p s
  | None => true
  end.

(** [new URL(raw)]. *)
Definition URL_parse (raw : string) : option URL :=
  if negb (Str.all is_printable raw) then None else
  let (sch, r1) := Str.span (fun c => negb (Ascii.eqb c ":")) raw in
  match r1 with
  | EmptyString => None
  | String _ r2 =>
      let scheme := Str.toLowerCase sch in
      match default_port scheme with
      | None => None
      | Some dflt =>
          let r3 := Str.drop_while is_slash r2 in
          let (auth, r4) := Str.span (fun c => negb (Str.mem c "/\?#")) r3 in
          let (h, r5) := Str.span (fun c => negb (Ascii.eqb c ":")) auth in
          let host := Str.toLowerCase h in
          match parse_port (tail r5) dflt with
          | None => None
          | Some port =>
              let (p, r6) := Str.span (fun c => negb (Str.mem c "?#")) r4 in
              let path := if p =? "" then "/" else p in
              let (query, r8) :=
                match r6 with
                | String "?" r7 =>
                    let (q, r) := Str.span (fun c => negb (Ascii.eqb c "#")) r7 in
                    (Some q, r)
                | _ => (None, r6)
                end in
              let fragment :=
                match r8 with
                | String "#" f => Some f
                | _ => None
                end in
              if host_ok host && path_ok path
                 && opt_test query_ok query && opt_test fragment_ok fragment
              then Some (mkURL scheme host port path query fragment)
              else None
          end
      end
  end.

Definition string_of_N (n : N) : string :=
  NilEmpty.string_of_uint (N.to_uint n).

(** Getters. *)
Definition protocol (u : URL) : string := url_scheme u ++ ":".
Definition hostname (u : URL) : string := url_host u.
Definition host (u : URL) : string :=
  match url_port u with
  | Some p => url_host u ++ ":" ++ string_of_N p
  | None => url_host u
  end.
Definition pathname (u : URL) : string := url_path u.
Definition search (u : URL) : string :=
  match url_query u with
  | Some q => if q =? "" then "" else "?" ++ q
  | None => ""
  end.

(** [url.toString()], the URL serialiser. *)
Definition toString (u : URL) : string :=
  url_scheme u ++ "://" ++ host u ++ url_path u
  ++ match url_query u with Some q => "?" ++ q | None => "" end
  ++ match url_fragment u with Some f => "#" ++ f | None => "" end.

(** Setters.  Each re-runs one state of the parser on the assigned value;
    the model stores the value, which is what that state does on a value
    the fragment covers (a path, query or fragment [URL_parse] accepts). *)
Definition set_hash (u : URL) (v : string) : URL :=
  mkURL (url_scheme u) (url_host u) (url_port u) (url_path u) (url_query u)
    (if v =? "" then None
     else Some (if Str.startsWith v "#" then tail v else v)).

Definition set_pathname (u : URL) (v : string) : URL :=
  mkURL (url_scheme u) (url_host u) (url_port u)
    (if Str.startsWith v "/" then v else "/" ++ v)
    (url_query u) (url_fragment u).

Definition set_search (u : URL) (v : string) : URL :=
  mkURL (url_scheme u) (url_host u) (url_port u) (url_path u)
    (if v =? "" then None
     else Some (if Str.startsWith v "?" then tail v else v))
    (url_fragment u).

(** [url.protocol = v] with [v] another URL's [protocol]: the scheme
    changes between special schemes, and a port that is the new scheme's
    default is dropped. *)
Definition set_protocol (u : URL) (v : string) : URL :=
  let s := Str.toLowerCase (fst (Str.span (fun c => negb (Ascii.eqb c ":")) v)) in
  match default_port s with
  | None => u
  | Some dflt =>
      mkURL s (url_host u)
        (match url_port u with
         | Some p => if (p =? dflt)%N then None else Some p
         | None => None
         end)
        (url_path u) (url_query u) (url_fragment u)
  end.

(** [url.host = v] with [v] another URL's [host]: the host changes, the
    port only when [v] carries one. *)
Definition set_host (u : URL) (v : string) : URL :=
  let (h, r) := Str.span (fun c => negb (Ascii.eqb c ":")) v in
  let h' := Str.toLowerCase h in
  if negb (host_ok h') then u
  else
    let port :=
      match r, default_port (url_scheme u) with
      | String _ ds, Some dflt =>
          match parse_port ds dflt with
          | Some (Some p) => Some p
          | Some None => if ds =? "" then url_port u else None
          | None => url_port u
          end
      | _, _ => url_port u
      end in
    mkURL (url_scheme u) h' port (url_path u) (url_query u) (url_fragment u).

End Url.


(** ** [URLSearchParams]: the application/x-www-form-urlencoded format *)

Module Form.

Definition hex_digit (n : N) : ascii :=
  if (n <? 10)%N then ascii_of_N (48 + n) else ascii_of_N (55 + n).

Definition hex_value (c : ascii) : option N :=
  if Str.is_digit c then Some (N_of_ascii c - 48)%N
  else if Str.between "A" "F" c then Some (N_of_ascii c - 55)%N
  else if Str.between "a" "f" c then Some (N_of_ascii c - 87)%N
  else None.

(** Bytes the serialiser leaves as they are. *)
Definition is_safe (c : ascii) : bool :=
  Str.is_digit c || Str.is_upper c || Str.is_lower c || Str.mem c "*-._".

Definition encode_byte (c : ascii) : string :=
  if Ascii.eqb c " " then "+"
  else if is_safe c then String c EmptyString
  else String "%" (String (hex_digit (N_of_ascii c / 16))
                    (String (hex_digit (N_of_ascii c mod 16)) EmptyString)).

Fixpoint encode (s : string) : string :=
  match s with
  | EmptyString => EmptyString
  | String c r => encode_byte c ++ encode r
  end.

Fixpoint percent_decode (s : string) : string :=
  match s with
  | EmptyString => EmptyString
  | String c r =>
      match r with
      | String a (String b r') =>
          match Ascii.eqb c "%", hex_value a, hex_value b with
          | true, Some x, Some y => String (ascii_of_N (16 * x + y)) (percent_decode r')
          | _, _, _ => String c (percent_decode r)
          end
      | _ => String c (percent_decode r)
      end
  end.

Definition plus_to_space (c : ascii) : ascii :=
  if Ascii.eqb c "+" then " "%char else c.

Definition decode (s : string) : string :=
  percent_decode (Str.map plus_to_space s).

Definition entry : Type := string * string.

Definition parse_pair (piece : string) : entry :=
  let (n, r) := Str.span (fun c => negb (Ascii.eqb c "=")) piece in
  (decode n, decode (Url.tail r)).

(** The parser behind [url.searchParams]. *)
Definition parse (q : string) : list entry :=
  List.map parse_pair
    (filter (fun piece => negb (piece =? "")) (Str.split_on "&" q)).

Definition serialize_pair (e : entry) : string :=
  encode (fst e) ++ "=" ++ encode (snd e).

(** [new URLSearchParams(entries).toString()]. *)
Definition serialize (es : list entry) : string :=
  String.concat "&" (List.map serialize_pair es).

End Form.

(** [Array.from(url.searchParams.entries())]. *)
Definition searchParams (u : Url.URL) : list Form.entry :=
  match Url.url_query u with
  | Some q => Form.parse q
  | None => []
  end.

(** ** [src/utils/url.ts] *)

Section Normalizer.

(** [a.localeCompare(b)]: the platform's collation, a total preorder on
    strings that the model does not fix. *)
Variable localeCompare : string -> string -> comparison.

(** [Array.prototype.sort] with the comparator
    [(a, b) => a[0].localeCompare(b[0])].  The sort is stable, so on a
    comparator that is a total preorder its result is the one of insertion
    sort. *)
Fixpoint sort_insert (e : Form.entry) (l : list Form.entry) : list Form.entry :=
  match l with
  | [] => [e]
  | h :: t =>
      match localeCompare (fst e) (fst h) with
      | Gt => h :: sort_insert e t
      | _ => e :: l
      end
  end.

Definition sort_entries (l : list Form.entry) : list Form.entry :=
  fold_right sort_insert [] l.

Definition tryParseUrl (raw : string) : option Url.URL := Url.URL_parse raw.

Definition normalizeUrl (raw : string) : option string :=
  match Url.URL_parse raw with
  | None => None
  | Some url =>
      let url := Url.set_hash url "" in
      let url :=
        if negb (Url.pathname url =? "/") && Str.endsWith (Url.pathname url) "/"
        then Url.set_pathname url (Str.chop (Url.pathname url))
        else url in
      let entries := sort_entries (searchParams url) in
      let url :=
        Url.set_search url
          (match entries with
           | [] => ""
           | _ :: _ => "?" ++ Form.serialize entries
           end) in
      Some (Url.toString url)
  end.

End Normalizer.

Definition isHttp (url : Url.URL) : bool :=
  (Url.protocol url =? "http:") || (Url.protocol url =? "https:").

Definition isLocal (h : string) : bool :=
  (h =? "localhost") || (h =? "127.0.0.1").

(** [isSameHost(a, b)] on two strings; [None] when a constructor throws. *)
Definition isSameHost (a b : string) : option bool :=
  match Url.URL_parse a, Url.URL_parse b with
  | Some ua, Some ub =>
      let aHost := Url.hostname ua in
      let bHost := Url.hostname ub in
      let aIsLocal := isLocal aHost in
      let bIsLocal := isLocal bHost in
      if aIsLocal && bIsLocal then Some true
      else Some ((Url.host ua =? Url.host ub)
                 && (Url.protocol ua =? Url.protocol ub))
  | _, _ => None
  end.

Definition HTML_EXTENSIONS : list string :=
  [""; ".html"; ".htm"; ".xhtml"; ".php"; ".php5"; ".asp"; ".aspx"; ".jsp";
   ".cfm"].

Definition NON_HTML_EXTENSIONS : list string :=
  [".pdf"; ".jpg"; ".jpeg"; ".png"; ".gif"; ".bmp"; ".svg"; ".webp"; ".ico";
   ".avif"; ".mp4"; ".webm"; ".mov"; ".mkv"; ".mp3"; ".wav"; ".flac"; ".zip";
   ".rar"; ".7z"; ".gz"; ".tgz"; ".tar"; ".bz2"; ".json"; ".xml"; ".rss";
   ".atom"; ".csv"; ".txt"; ".doc"; ".docx"; ".ppt"; ".pptx"; ".xls";
   ".xlsx"; ".ics"; ".ps"; ".eps"; ".woff"; ".woff2"; ".ttf"; ".otf"; ".eot";
   ".avi"; ".ts"; ".mpeg"; ".mpg"; ".flv"; ".m4v"; ".apk"; ".dmg"; ".exe";
   ".bin"; ".iso"; ".scss"; ".less"; ".css"].

Definition getExtension (pathname : string) : string :=
  if (pathname =? "") || Str.endsWith pathname "/" then ""
  else
    let clean := last (Str.split_on "/" pathname) "" in
    match Str.from_last_dot clean with
    | None => ""
    | Some e => Str.toLowerCase e
    end.

Definition isLikelyHtmlPage (raw : string) : bool :=
  match Url.URL_parse raw with
  | None => false
  | Some url =>
      let ext := getExtension (Str.toLowerCase (Url.pathname url)) in
      if Url.mem_string ext HTML_EXTENSIONS then true
      else if Url.mem_string ext NON_HTML_EXTENSIONS then false
      else true
  end.

(** ** The crawler: [crawlSite] and [crawlPage] *)

(** A [Set<string>]: its elements in insertion order. *)
Definition set_has (s : list string) (x : string) : bool :=
  existsb (String.eqb x) s.

Definition set_add (s : list string) (x : string) : list string :=
  if set_has s x then s else s ++ [x].

Inductive BrowserKind := chromium | firefox | webkit.

(** [CrawlOptions].  The budgets and the pool size are counts, hence
    natural numbers. *)
Record CrawlOptions := mkOptions {
  baseUrl : string;
  maxPages : nat;
  maxDepth : nat;
  concurrency : nat;
  headless : bool;
  browser : BrowserKind;
  timeoutMs : nat;
  respectRobots : bool
}.

(** An entry of [queue]. *)
Record Task := mkTask { url : string; depth : nat }.

(** What the browser does for one call of [crawlPage], as far as the
    function can tell.  [opens]: [browser.newContext] and [context.newPage]
    resolve (they are outside the [try], so otherwise [crawlPage] rejects).
    [hrefs]: the [href] attributes [$$eval] delivers, [None] when something
    inside the [try] throws.  [closes]: [context.close] in the [finally]
    resolves (otherwise [crawlPage] rejects, after the [try] has run). *)
Record PageOutcome := mkOutcome {
  opens : bool;
  hrefs : option (list string);
  closes : bool
}.

(** The page loads and has these links. *)
Definition Anchors (links : list string) : PageOutcome :=
  mkOutcome true (Some links) true.

(** The variables [crawlSite] closes over, with the tasks of the running
    batch split by how far their [crawlPage] has come.  [fetched] is
    ghost state: the tasks that reached the page fetch, oldest first. *)
Record Crawl := mkCrawl {
  visited : list string;
  queue : list Task;
  pending : list Task;
  loading : list Task;
  fetched : list Task;
  rejected : bool
}.

Definition remove_nth {A} (i : nat) (l : list A) : list A :=
  firstn i l ++ skipn (S i) l.

(** One turn of the event loop. *)
Inductive Turn :=
| NextBatch
| Enter (i : nat)
| Page (i : nat) (o : PageOutcome).

(** [xs.map(f)] for an [f] that can throw. *)
Fixpoint map_throw {A B} (f : A -> option B) (xs : list A) : option (list B) :=
  match xs with
  | [] => Some []
  | x :: r =>
      match f x with
      | None => None
      | Some y => option_map (cons y) (map_throw f r)
      end
  end.

(** [xs.filter(p)] for a [p] that can throw. *)
Fixpoint filter_throw {A} (p : A -> option bool) (xs : list A) : option (list A) :=
  match xs with
  | [] => Some []
  | x :: r =>
      match p x with
      | None => None
      | Some b =>
          option_map (fun l => if b then x :: l else l) (filter_throw p r)
      end
  end.

Section Crawler.

Variable localeCompare : string -> string -> comparison.

(** [new URL(href, base).toString()], [None] when the constructor throws. *)
Variable URL_resolve : string -> string -> option string.

(** [robots.allows], the policy [parseRobots] returned for the start URL. *)
Variable robots_allows : string -> bool.

Variable opts : CrawlOptions.

Definition toAbsoluteUrl (base href : string) : option string :=
  URL_resolve href base.

(** Lines 47-52 of [crawlPage]: everything before its first [await]. *)
Definition crawlPage_enter (t : Task) (st : Crawl) : Crawl :=
  if set_has (visited st) (url t) then st
  else if negb (isLikelyHtmlPage (url t)) then st
  else if respectRobots opts && negb (robots_allows (url t)) then st
  else if (maxPages opts <=? length (visited st))%nat then st
  else
    let visited' := set_add (visited st) (url t) in
    if (maxDepth opts <=? depth t)%nat
    then mkCrawl visited' (queue st) (pending st) (loading st) (fetched st)
           (rejected st)
    else mkCrawl visited' (queue st) (pending st) (loading st ++ [t])
           (fetched st ++ [t]) (rejected st).

(** [.map(toAbsoluteUrl).filter(u => !!u)]. *)
Fixpoint absolute_links (page : string) (hrefs : list string) : list string :=
  match hrefs with
  | [] => []
  | href :: r =>
      match toAbsoluteUrl page href with
      | Some u => if u =? "" then absolute_links page r
                  else u :: absolute_links page r
      | None => absolute_links page r
      end
  end.

(** Lines 65-70: the links kept from a page; [None] when the chain throws. *)
Definition candidates (page : string) (hrefs : list string) : option (list string) :=
  match map_throw (normalizeUrl localeCompare) (absolute_links page hrefs) with
  | None => None
  | Some us =>
      match filter_throw (isSameHost page) us with
      | None => None
      | Some vs => Some (filter isLikelyHtmlPage vs)
      end
  end.

(** Lines 73-75. *)
Fixpoint push_unvisited (vis : list string) (d : nat) (cands : list string)
  (q : list Task) : list Task :=
  match cands with
  | [] => q
  | next :: r =>
      push_unvisited vis d r
        (if set_has vis next then q else q ++ [mkTask next (d + 1)])
  end.

(** [crawlPage] rejects: [Promise.all] rejects and [crawlSite] throws. *)
Definition reject (st : Crawl) : Crawl :=
  mkCrawl (visited st) (queue st) (pending st) (loading st) (fetched st) true.

(** Lines 65-75, when [$$eval] delivered [links]. *)
Definition enqueue_links (t : Task) (links : list string) (st : Crawl) : Crawl :=
  match candidates (url t) links with
  | None => st
  | Some cands =>
      mkCrawl (visited st)
        (push_unvisited (visited st) (depth t) cands (queue st))
        (pending st) (loading st) (fetched st) (rejected st)
  end.

(** The rest of [crawlPage], once the browser has answered. *)
Definition crawlPage_resume (t : Task) (o : PageOutcome) (st : Crawl) : Crawl :=
  if negb (opens o) then reject st
  else
    let st1 :=
      match hrefs o with
      | None => st
      | Some links => enqueue_links t links st
      end in
    if closes o then st1 else reject st1.

(** Line 33, the test of the [while]. *)
Definition loop_test (st : Crawl) : bool :=
  negb (length (queue st) =? 0)%nat && (length (visited st) <? maxPages opts)%nat.

Definition batch_done (st : Crawl) : bool :=
  (length (pending st) =? 0)%nat && (length (loading st) =? 0)%nat.

(** The turns of the event loop while [crawlSite] runs.  [NextBatch] is
    lines 33-34; [Enter i] starts [crawlPage] for a task of the batch;
    [Page i o] resumes one that waits for its page.  [None]: the turn
    cannot happen in that state.  Between two [await]s a call runs
    without interruption, so the state changes one turn at a time; the
    turns of a batch are taken here in any order, which covers the orders
    the event loop produces (the calls of a batch start in queue order,
    the pages arrive in any order). *)
Definition step (st : Crawl) (turn : Turn) : option Crawl :=
  match turn with
  | NextBatch =>
      if batch_done st && negb (rejected st) && loop_test st
      then Some (mkCrawl (visited st) (skipn (concurrency opts) (queue st))
                   (firstn (concurrency opts) (queue st)) [] (fetched st)
                   (rejected st))
      else None
  | Enter i =>
      match nth_error (pending st) i with
      | None => None
      | Some t =>
          Some (crawlPage_enter t
                  (mkCrawl (visited st) (queue st) (remove_nth i (pending st))
                     (loading st) (fetched st) (rejected st)))
      end
  | Page i o =>
      match nth_error (loading st) i with
      | None => None
      | Some t =>
          Some (crawlPage_resume t o
                  (mkCrawl (visited st) (queue st) (pending st)
                     (remove_nth i (loading st)) (fetched st) (rejected st)))
      end
  end.

Fixpoint run (st : Crawl) (turns : list Turn) : option Crawl :=
  match turns with
  | [] => Some st
  | turn :: r =>
      match step st turn with
      | None => None
      | Some st' => run st' r
      end
  end.

(** Lines 23-26: [None] when [normalizeUrl] throws, or [pLimit] does (it
    wants a pool size of 1 or more).  A browser that fails to launch ends
    [crawlSite] before any state exists; such a run has no turn. *)
Definition crawlSite_start : option Crawl :=
  match normalizeUrl localeCompare (baseUrl opts) with
  | None => None
  | Some startUrl =>
      if (concurrency opts =? 0)%nat then None
      else Some (mkCrawl [] [mkTask startUrl 0] [] [] [] false)
  end.

(** The states a run of [crawlSite] goes through under a schedule. *)
Definition crawlSite_state (turns : list Turn) : option Crawl :=
  match crawlSite_start with
  | None => None
  | Some st => run st turns
  end.

(** [crawlSite(opts)] under a schedule of event-loop turns: the list it
    returns, when the schedule takes the loop to its exit. *)
Definition crawlSite (turns : list Turn) : option (list string) :=
  match crawlSite_state turns with
  | None => None
  | Some st =>
      if batch_done st && negb (rejected st) && negb (loop_test st)
      then Some (visited st)
      else None
  end.

End Crawler.

(** ** The sitemap harvester: [src/sitemap/fetchSitemap.ts] *)

Local Open Scope Z_scope.

(** What [axios.get] resolves to ([validateStatus] accepts every status).
    A header that is absent is the empty string, as after [|| '']. *)
Record Response := mkResponse {
  status : Z;
  statusText : string;
  content_type : string;
  retry_after : string;
  data : string
}.

Inductive Reply :=
| NetworkError
| Replied (res : Response).

(** What the harvester does to the outside world, oldest first. *)
Inductive Event :=
| Get (url : string)
| Sleep (ms : Z).

Definition History : Type := list Event.

Inductive FetchError :=
| RequestFailed
| NotXml
| BadStatus (status : Z)
| UnknownError.

(** The object [parseStringPromise] resolves to, reduced to the [loc] of
    each entry of [urlset.url] and of [sitemapindex.sitemap] (the empty
    string when an entry has none; the empty list when the member is
    missing). *)
Record SitemapDoc := mkDoc {
  urlset_url : list string;
  sitemapindex_sitemap : list string
}.

Inductive XmlResult :=
| XmlError
| XmlNull
| XmlDoc (parsed : SitemapDoc).

Inductive Outcome (A : Type) :=
| Returned (a : A)
| Thrown
| OutOfFuel.
Arguments Returned {A} a.
Arguments Thrown {A}.
Arguments OutOfFuel {A}.

Definition is_space (c : ascii) : bool :=
  Ascii.eqb c " " || Str.between (ascii_of_N 9) (ascii_of_N 13) c.

(** [kw] at the head of [s], letters compared without case: what follows. *)
Fixpoint strip_prefix_ci (kw s : string) : option string :=
  match kw with
  | EmptyString => Some s
  | String k kr =>
      match s with
      | EmptyString => None
      | String c r =>
          if Ascii.eqb (Str.lower_ascii c) k then strip_prefix_ci kr r else None
      end
  end.

(** [\s*(\?xml|urlset|sitemapindex)[\s>]] at the head of [s]. *)
Definition tag_here (s : string) : bool :=
  let s' := Str.drop_while is_space s in
  existsb
    (fun kw =>
       match strip_prefix_ci kw s' with
       | Some (String c _) => is_space c || Ascii.eqb c ">"
       | _ => false
       end)
    ["?xml"; "urlset"; "sitemapindex"]%string.

(** [/<\s*(\?xml|urlset|sitemapindex)[\s>]/i.test(body)]. *)
Fixpoint looksXml (body : string) : bool :=
  match body with
  | EmptyString => false
  | String c r => (Ascii.eqb c "<" && tag_here r) || looksXml r
  end.

Definition maxAttempts : Z := 4.

(** [Math.min(30000, 1000 * Math.pow(2, attempt))]. *)
Definition backoff (attempt : Z) : Z := Z.min 30000 (1000 * 2 ^ attempt).

Section Harvester.

Variable localeCompare : string -> string -> comparison.
Variable URL_resolve : string -> string -> option string.

(** The server and the clock, which may depend on everything the
    harvester did so far. *)
Variable axios_get : History -> string -> Reply.
Variable Date_now : History -> Z.

(** [Number(s)] on strings other than a run of decimal digits, with
    [None] for [NaN]; [Date.parse(s)], likewise.  Numbers are exact
    rationals: binary64 rounding is not modelled. *)
Variable Number_other : string -> option Q.
Variable Date_parse : string -> option Z.

Variable parseStringPromise : string -> XmlResult.

Definition Number_ (s : string) : option Q :=
  match Url.decimal s with
  | Some n => Some (inject_Z (Z.of_N n))
  | None => Number_other s
  end.

Definition parseRetryAfterMs (now : Z) (retryAfter : string) : option Z :=
  if (retryAfter =? "")%string then None
  else
    match Number_ retryAfter with
    | Some asNumber => Some (Z.max 0 (Qfloor (asNumber * inject_Z 1000)))
    | None =>
        match Date_parse retryAfter with
        | Some date =>
            let diff := date - now in
            Some (if 0 <? diff then diff else 0)
        | None => None
        end
    end.

(** How one pass through the body of the [for] loop ends. *)
Inductive Attempt :=
| Accept (body : string)
| Again (lastError : option FetchError) (sleep : option Z).

(** The [catch] block. *)
Definition on_error (attempt : Z) (err : FetchError) : Attempt :=
  Again (Some err)
    (if attempt <? maxAttempts then Some (backoff attempt) else None).

(** The body of the loop, after [axios.get] answered at time [now]. *)
Definition fetchXml_attempt (attempt : Z) (lastError : option FetchError)
  (now : Z) (reply : Reply) : Attempt :=
  match reply with
  | NetworkError => on_error attempt RequestFailed
  | Replied res =>
      if (200 <=? status res) && (status res <? 300) then
        let contentType := Str.toLowerCase (content_type res) in
        let body := data res in
        let isXmlType :=
          Str.includes contentType "xml" || Str.includes contentType "text/plain" in
        if negb (looksXml body) && negb isXmlType
        then on_error attempt NotXml
        else Accept body
      else if (status res =? 429) || (status res =? 503) then
        let retryAfterMs := parseRetryAfterMs now (retry_after res) in
        let backoffMs :=
          match retryAfterMs with
          | Some ms => ms
          | None => backoff attempt
          end in
        Again lastError (Some backoffMs)
      else on_error attempt (BadStatus (status res))
  end.

(** The [for] loop of [fetchXml] with [left] passes to go. *)
Fixpoint fetchXml_loop (url : string) (left : nat) (attempt : Z)
  (lastError : option FetchError) (h : History) : (string + FetchError) * History :=
  match left with
  | O =>
      (inr (match lastError with Some e => e | None => UnknownError end), h)
  | S left' =>
      let h1 := h ++ [Get url] in
      match fetchXml_attempt attempt lastError (Date_now h1) (axios_get h url) with
      | Accept body => (inl body, h1)
      | Again lastError' sleep =>
          fetchXml_loop url left' (attempt + 1) lastError'
            (match sleep with
             | Some ms => h1 ++ [Sleep ms]
             | None => h1
             end)
      end
  end.

Definition fetchXml (url : string) (h : History) : (string + FetchError) * History :=
  fetchXml_loop url (Z.to_nat maxAttempts) 1 None h.

Definition rewriteToBaseOriginIfLocal (baseUrl : Url.URL) (absoluteUrl : string) : string :=
  let baseIsLocal := isLocal (Url.hostname baseUrl) in
  if negb baseIsLocal then absoluteUrl
  else
    match Url.URL_parse absoluteUrl with
    | Some u =>
        let u := Url.set_protocol u (Url.protocol baseUrl) in
        let u := Url.set_host u (Url.host baseUrl) in
        Url.toString u
    | None => absoluteUrl
    end.

(** The loop over [urlset.url], lines 115-132. *)
Fixpoint collect_urlset (base : string) (baseUrl : Url.URL) (items : list string)
  (urls : list string) : option (list string) :=
  match items with
  | [] => Some urls
  | loc :: r =>
      if (loc =? "")%string then collect_urlset base baseUrl r urls
      else
        match URL_resolve loc base with
        | None => collect_urlset base baseUrl r urls
        | Some absolute =>
            if (absolute =? "")%string then collect_urlset base baseUrl r urls
            else
              let rewritten := rewriteToBaseOriginIfLocal baseUrl absolute in
              match normalizeUrl localeCompare rewritten with
              | None => None
              | Some normalized =>
                  match isSameHost base normalized with
                  | None => None
                  | Some same =>
                      collect_urlset base baseUrl r
                        (if same then set_add urls normalized else urls)
                  end
              end
        end
  end.

(** The loop over [sitemapindex.sitemap], lines 137-149; [nested] is the
    recursive call [parseSitemapUrls(..., base)]. *)
Fixpoint collect_index
  (nested : string -> History -> Outcome (list string) * History)
  (base : string) (baseUrl : Url.URL) (items : list string)
  (urls : list string) (h : History) : Outcome (list string) * History :=
  match items with
  | [] => (Returned urls, h)
  | loc :: r =>
      if (loc =? "")%string then collect_index nested base baseUrl r urls h
      else
        match URL_resolve loc base with
        | None => collect_index nested base baseUrl r urls h
        | Some sitemapUrlAbs =>
            if (sitemapUrlAbs =? "")%string
            then collect_index nested base baseUrl r urls h
            else
              match nested (rewriteToBaseOriginIfLocal baseUrl sitemapUrlAbs) h with
              | (Returned us, h') =>
                  collect_index nested base baseUrl r (fold_left set_add us urls) h'
              | (Thrown, h') => (Thrown, h')
              | (OutOfFuel, h') => (OutOfFuel, h')
              end
        end
  end.

(** [parseSitemapUrls(sitemapUrl, base)]; [fuel] bounds the depth of the
    nested calls. *)
Fixpoint parseSitemapUrls (fuel : nat) (sitemapUrl base : string) (h : History)
  : Outcome (list string) * History :=
  match fuel with
  | O => (OutOfFuel, h)
  | S fuel' =>
      match fetchXml sitemapUrl h with
      | (inr _, h1) => (Returned [], h1)
      | (inl xml, h1) =>
          match parseStringPromise xml with
          | XmlError => (Returned [], h1)
          | parsed =>
              match Url.URL_parse base with
              | None => (Thrown, h1)
              | Some baseUrl =>
                  match parsed with
                  | XmlError | XmlNull => (Thrown, h1)
                  | XmlDoc doc =>
                      match collect_urlset base baseUrl (urlset_url doc) [] with
                      | None => (Thrown, h1)
                      | Some urls =>
                          collect_index
                            (fun u h' => parseSitemapUrls fuel' u base h')
                            base baseUrl (sitemapindex_sitemap doc) urls h1
                      end
                  end
              end
          end
      end
  end.

(** The loop of [discover] over the sitemaps it found: each document's
    URLs are normalised again and added to [sitemapUrls]. *)
Fixpoint discover_sitemaps (fuel : nat) (sitemaps : list string) (base : string)
  (sitemapUrls : list string) (h : History) : Outcome (list string) * History :=
  match sitemaps with
  | [] => (Returned sitemapUrls, h)
  | sm :: r =>
      match parseSitemapUrls fuel sm base h with
      | (Returned urls, h') =>
          match map_throw (normalizeUrl localeCompare) urls with
          | None => (Thrown, h')
          | Some us =>
              discover_sitemaps fuel r base (fold_left set_add us sitemapUrls) h'
          end
      | (Thrown, h') => (Thrown, h')
      | (OutOfFuel, h') => (OutOfFuel, h')
      end
  end.

End Harvester.

(** ** A concrete platform, for running the model

    Byte order for the collation; resolution of references that are
    already absolute; a robots policy that allows everything. *)

Definition compare_bytes (a b : string) : comparison := String.compare a b.

Definition resolve_absolute (href base : string) : option string :=
  match Url.URL_parse base with
  | None => None
  | Some _ => option_map Url.toString (Url.URL_parse href)
  end.

Definition allow_all (u : string) : bool := true.

(** A server that answers every request with [res], a clock that stands
    still, and an XML parser that knows one document. *)
Definition always (res : Response) (h : History) (u : string) : Reply :=
  Replied res.

Definition clock_zero (h : History) : Z := 0%Z.

Definition no_number (s : string) : option Q := None.

Definition no_date (s : string) : option Z := None.

Definition parse_only (body : string) (doc : SitemapDoc) (xml : string) : XmlResult :=
  if (xml =? body)%string then XmlDoc doc else XmlError.

(** Runs of the crawler on [a.com].  In [demo_turns] the start page links
    to [/b], to [/c] twice, to another host and to an image, with a budget
    of two pages. *)
Definition demo_opts : CrawlOptions :=
  mkOptions "http://a.com/" 2 2 5 true chromium 1000 true.

Definition demo_turns : list Turn :=
  [NextBatch; Enter 0;
   Page 0 (Anchors ["http://a.com/b"; "http://a.com/c"; "http://a.com/c";
                    "http://b.com/c"; "http://a.com/c.png"]);
   NextBatch; Enter 0; Enter 0; Enter 0].

Definition demo_state : Crawl :=
  mkCrawl ["http://a.com/"; "http://a.com/b"] [] []
    [mkTask "http://a.com/b" 1]
    [mkTask "http://a.com/" 0; mkTask "http://a.com/b" 1] false.

(** The same page with room for every link: [/c] is linked twice, queued
    twice and fetched once. *)
Definition roomy_opts : CrawlOptions :=
  mkOptions "http://a.com/" 10 2 5 true chromium 1000 true.

Definition roomy_state : Crawl :=
  mkCrawl ["http://a.com/"; "http://a.com/b"; "http://a.com/c"] [] []
    [mkTask "http://a.com/b" 1; mkTask "http://a.com/c" 1]
    [mkTask "http://a.com/" 0; mkTask "http://a.com/b" 1; mkTask "http://a.com/c" 1]
    false.

Definition shallow_opts : CrawlOptions :=
  mkOptions "http://a.com/" 10 1 5 true chromium 1000 true.

Definition shallow_turns : list Turn :=
  [NextBatch; Enter 0; Page 0 (Anchors ["http://a.com/b"]); NextBatch; Enter 0].

Definition shallow_state : Crawl :=
  mkCrawl ["http://a.com/"; "http://a.com/b"] [] [] []
    [mkTask "http://a.com/" 0] false.

Definition pdf_opts : CrawlOptions :=
  mkOptions "http://a.com/x.pdf" 10 2 5 true chromium 1000 true.

Definition slash_opts : CrawlOptions :=
  mkOptions "http://a.com/x//" 10 0 5 true chromium 1000 false.

(** A sitemap index that lists itself, and servers that are busy or down. *)
Definition loop_url : string := "https://a.com/sitemap.xml".

Definition loop_body : string :=
  "<sitemapindex><sitemap><loc>https://a.com/sitemap.xml</loc></sitemap></sitemapindex>".

Definition loop_response : Response :=
  mkResponse 200 "OK" "application/xml" "" loop_body.

Definition busy_response : Response :=
  mkResponse 503 "Service Unavailable" "text/html" "2" "".

Definition down (h : History) (u : string) : Reply := NetworkError.

(** A sitemap and a start page that both point to [http://a.com/x//]. *)
Definition slashes_body : string :=
  "<urlset><url><loc>http://a.com/x//</loc></url></urlset>".

Definition slashes_response : Response :=
  mkResponse 200 "OK" "application/xml" "" slashes_body.

Definition slashes_opts : CrawlOptions :=
  mkOptions "http://a.com/" 10 1 5 true chromium 1000 false.

(** ** Vocabulary of the statements *)

(** Number of requests in a stretch of history. *)
Fixpoint gets (evs : History) : nat :=
  match evs with
  | [] => O
  | Get _ :: r => S (gets r)
  | Sleep _ :: r => gets r
  end.

(** A reply that ends [fetchXml] with the body: status 2xx and either a
    body that looks like XML or an XML or plain-text content type. *)
Definition accepted (reply : Reply) : bool :=
  match reply with
  | NetworkError => false
  | Replied res =>
      ((200 <=? status res)%Z && (status res <? 300)%Z)
      && (looksXml (data res)
          || Str.includes (Str.toLowerCase (content_type res)) "xml"
          || Str.includes (Str.toLowerCase (content_type res)) "text/plain")
  end.


(** A task the crawler holds: queued, in the running batch, or fetched. *)
Definition holds_task (st : Crawl) (t : Task) : Prop :=
  In t (queue st) \/ In t (pending st) \/ In t (loading st) \/ In t (fetched st).

(** The URL records the parser produces: what [URL_parse] checks, and the
    range of the port. *)
Definition port_ok (scheme : string) (port : option N) : bool :=
  match Url.default_port scheme, port with
  | Some dflt, Some p => (p <=? 65535)%N && negb (p =? dflt)%N
  | Some _, None => true
  | None, _ => false
  end.

Definition wellformed (u : Url.URL) : bool :=
  port_ok (Url.url_scheme u) (Url.url_port u)
  && Url.host_ok (Url.url_host u)
  && Url.path_ok (Url.url_path u)
  && Url.opt_test Url.query_ok (Url.url_query u)
  && Url.opt_test Url.fragment_ok (Url.url_fragment u).

(** ASCII bytes, and query entries made of them. *)
Definition ascii7 (c : ascii) : bool := (N_of_ascii c <? 128)%N.

Definition entry_ascii (e : Form.entry) : Prop :=
  Str.all ascii7 (fst e) = true /\ Str.all ascii7 (snd e) = true.

(** The characters [Form.encode] writes. *)
Definition out_char (c : ascii) : bool :=
  Form.is_safe c || Str.mem c "+%".

(** Order and ties of query entries under a comparator of keys. *)
Definition key_le (cmp : string -> string -> comparison) (e1 e2 : Form.entry) : Prop :=
  cmp (fst e1) (fst e2) <> Gt.

Definition same_key (cmp : string -> string -> comparison) (k : string)
  (e : Form.entry) : bool :=
  match cmp (fst e) k with
  | Eq => true
  | _ => false
  end.

(** The path after the trailing-slash step of [normalizeUrl]. *)
Definition strip_slash (p : string) : string :=
  if negb (p =? "/")%string && Str.endsWith p "/" then Str.chop p else p.

(** The record [normalizeUrl] serialises, given the one it parsed. *)
Definition normalized (cmp : string -> string -> comparison) (u : Url.URL) : Url.URL :=
  let es := sort_entries cmp (searchParams u) in
  Url.mkURL (Url.url_scheme u) (Url.url_host u) (Url.url_port u)
    (strip_slash (Url.url_path u))
    (match es with
     | [] => None
     | _ :: _ => Some (Form.serialize es)
     end)
    None.

(** A string [normalizeUrl] can return. *)
Definition canonical (cmp : string -> string -> comparison) (u : string) : Prop :=
  exists raw, normalizeUrl cmp raw = Some u.

(** What every URL the crawl holds satisfies: it came out of
    [normalizeUrl] and is on the host of the start URL. *)
Definition on_site (cmp : string -> string -> comparison) (start u : string) : Prop :=
  canonical cmp u /\ isSameHost start u = Some true.

Definition site_inv (cmp : string -> string -> comparison) (start : string)
  (st : Crawl) : Prop :=
  (forall u, In u (visited st) -> on_site cmp start u)
  /\ (forall t, holds_task st t -> on_site cmp start (url t)).

(** What [crawlPage] does before its first [await], by cases. *)
Inductive EnterCase (robots_allows : string -> bool) (opts : CrawlOptions)
  (t : Task) (st : Crawl) : Crawl -> Prop :=
| EnterSkip :
    (set_has (visited st) (url t) = true
     \/ isLikelyHtmlPage (url t) = false
     \/ (respectRobots opts = true /\ robots_allows (url t) = false)
     \/ (maxPages opts <= length (visited st))%nat) ->
    EnterCase robots_allows opts t st st
| EnterMark :
    set_has (visited st) (url t) = false ->
    isLikelyHtmlPage (url t) = true ->
    (length (visited st) < maxPages opts)%nat ->
    (maxDepth opts <= depth t)%nat ->
    EnterCase robots_allows opts t st
      (mkCrawl (visited st ++ [url t]) (queue st) (pending st) (loading st)
         (fetched st) (rejected st))
| EnterFetch :
    set_has (visited st) (url t) = false ->
    isLikelyHtmlPage (url t) = true ->
    (length (visited st) < maxPages opts)%nat ->
    (depth t < maxDepth opts)%nat ->
    EnterCase robots_allows opts t st
      (mkCrawl (visited st ++ [url t]) (queue st) (pending st)
         (loading st ++ [t]) (fetched st ++ [t]) (rejected st)).

(** What every state of a crawl started at [start] satisfies. *)
Record crawl_inv (opts : CrawlOptions) (start : string) (st : Crawl) : Prop := {
  inv_budget : (length (visited st) <= maxPages opts)%nat;
  inv_set : NoDup (visited st);
  inv_once : NoDup (List.map url (fetched st));
  inv_fetched :
    forall t, In t (fetched st) ->
      In (url t) (visited st) /\ (depth t < maxDepth opts)%nat;
  inv_seed : forall t, holds_task st t -> depth t = O -> url t = start
}.

(** ** [src/utils/robots.ts] and [src/sitemap/discover.ts] *)

(** What [robotsParser(url, body)] returns, as far as the code uses it:
    [isAllowed(url, ua)], which can be [undefined], and [getSitemaps()]. *)
Record RobotsTxt := mkRobotsTxt {
  isAllowed : string -> string -> option bool;
  getSitemaps : list string
}.

(** The object [parseRobots] returns. *)
Record Robots := mkRobots {
  allows : string -> bool;
  sitemaps : list string
}.

Section RobotsFile.

Variable localeCompare : string -> string -> comparison.
Variable URL_resolve : string -> string -> option string.

(** [axios.get(robotsUrl, ...)], [NetworkError] when it throws; and the
    [robots-parser] package. *)
Variable robots_get : string -> Reply.
Variable robotsParser : string -> string -> RobotsTxt.

(** [fetchRobots(baseUrl)].  Outer [None]: [new URL('/robots.txt', baseUrl)]
    throws, which is outside the [try].  Inner [None]: the function
    returns [null]. *)
Definition fetchRobots (baseUrl : string) : option (option (string * string)) :=
  match URL_resolve "/robots.txt" baseUrl with
  | None => None
  | Some robotsUrl =>
      Some (match robots_get robotsUrl with
            | NetworkError => None
            | Replied res =>
                if (200 <=? status res) && (status res <? 300)
                then Some (robotsUrl, data res)
                else None
            end)
  end.

(** [parseRobots(baseUrl)]; [None] when it throws, which [normalizeUrl]
    does on a sitemap line that is no URL. *)
Definition parseRobots (baseUrl : string) : option Robots :=
  match fetchRobots baseUrl with
  | None => None
  | Some None => Some (mkRobots (fun _ => true) [])
  | Some (Some (url, body)) =>
      let parser := robotsParser url body in
      match map_throw (normalizeUrl localeCompare) (getSitemaps parser) with
      | None => None
      | Some sms =>
          Some (mkRobots
                  (fun url =>
                     match isAllowed parser url "*" with
                     | Some b => b
                     | None => true
                     end)
                  sms)
      end
  end.

(** [discoverSitemaps(baseUrl, explicit)]; an [explicit] that is
    [undefined] or empty is not added. *)
Definition discoverSitemaps (baseUrl : string) (explicit : option string)
  : option (list string) :=
  match URL_resolve "/sitemap.xml" baseUrl with
  | None => None
  | Some dflt =>
      match parseRobots baseUrl with
      | None => None
      | Some robots =>
          let found := fold_left set_add (dflt :: sitemaps robots) [] in
          Some (match explicit with
                | Some e => if (e =? "")%string then found else set_add found e
                | None => found
                end)
      end
  end.

(** Lines 23-27 of [crawlSite] with the policy it asks [parseRobots] for,
    and the crawl under a schedule of turns. *)
Definition crawlSite_robots (opts : CrawlOptions) (turns : list Turn)
  : option (list string) :=
  match normalizeUrl localeCompare (baseUrl opts) with
  | None => None
  | Some startUrl =>
      match parseRobots startUrl with
      | None => None
      | Some robots => crawlSite localeCompare URL_resolve (allows robots) opts turns
      end
  end.

End RobotsFile.

(** ** The scan loop: [src/scan/axeRunner.ts] *)

(** What is left of [s] without the characters at its end that satisfy [p]. *)
Fixpoint drop_trailing (p : ascii -> bool) (s : string) : string :=
  match s with
  | EmptyString => EmptyString
  | String c r =>
      match drop_trailing p r with
      | EmptyString => if p c then EmptyString else String c EmptyString
      | r' => String c r'
      end
  end.

Module Axe.

Record AxeNode := mkNode {
  html : string;
  target : list string;
  failureSummary : option string;
  screenshot : option string
}.

Record AxeViolation := mkViolation {
  id : string;
  impact : option string;
  description : string;
  help : string;
  helpUrl : string;
  nodes : list AxeNode
}.

Record AxeResult := mkResult {
  url : string;
  violations : list AxeViolation;
  error : option string;
  durationMs : Z
}.

Record RunOptions := mkRun {
  urls : list string;
  headless : bool;
  browser : BrowserKind;
  timeoutMs : Z;
  maxIssues : Z;
  screenshotsDir : option string
}.

(** What the page gives for one URL: [goto], [injectAxe] or [axe.run]
    throws with a message, or [axe.run] delivers its violations. *)
Inductive PageScan :=
| ScanError (message : string)
| Violations (result : list AxeViolation).

(** [[a-z0-9]] under the flag [i]. *)
Definition is_alnum (c : ascii) : bool :=
  Str.is_lower c || Str.is_upper c || Str.is_digit c.

Definition is_dash (c : ascii) : bool := Ascii.eqb c "-".

(** [s.replace(/[^a-z0-9]+/gi, '-')]: each maximal run of other
    characters becomes one dash.  [in_run]: the character before [s]
    belongs to such a run, whose dash is already written. *)
Fixpoint dash_runs (in_run : bool) (s : string) : string :=
  match s with
  | EmptyString => EmptyString
  | String c r =>
      if is_alnum c then String c (dash_runs false r)
      else if in_run then dash_runs true r
      else String "-" (dash_runs true r)
  end.

(** [s.replace(/^-+|-+$/g, '')]. *)
Definition trim_dashes (s : string) : string :=
  drop_trailing is_dash (Str.drop_while is_dash s).

(** The expression of lines 67-68 on [u.pathname]. *)
Definition slug_of_path (pathname : string) : string :=
  let base :=
    if (pathname =? "/")%string then "home"%string
    else trim_dashes (dash_runs false pathname) in
  if (base =? "")%string then "page"%string else base.

(** [pageSlug], lines 64-72. *)
Definition pageSlug (url : string) : string :=
  match Url.URL_parse url with
  | Some u => slug_of_path (Url.pathname u)
  | None => "page"%string
  end.

(** Line 83. *)
Definition safeId (vio_id : string) : string :=
  Str.toLowerCase (dash_runs false vio_id).

(** Line 84, with [nIdx] counted from 0. *)
Definition filename (pageSlug vio_id : string) (nIdx : nat) : string :=
  (pageSlug ++ "-" ++ safeId vio_id ++ "-n"
   ++ Url.string_of_N (N.of_nat (nIdx + 1)) ++ ".png")%string.

Section Runner.

(** The page at the [i]-th pass of the loop: what the scan of the URL
    gives; whether, for node [nIdx] of violation [vIdx], the selector
    locates an element and its screenshot is written; and the milliseconds
    the pass took. *)
Variable page_scan : nat -> string -> PageScan.
Variable shoot : nat -> nat -> nat -> string -> bool.
Variable elapsed : nat -> Z.

(** Lines 76-90, for one node. *)
Definition enhance_node (i : nat) (slug : string) (vIdx : nat) (vio_id : string)
  (nIdx : nat) (node : AxeNode) : AxeNode :=
  match target node with
  | [] => node
  | selector :: _ =>
      if (selector =? "")%string then node
      else if shoot i vIdx nIdx selector
      then mkNode (html node) (target node) (failureSummary node)
             (Some ("screenshots/" ++ filename slug vio_id nIdx)%string)
      else node
  end.

(** The loop over [vio.nodes], from index [nIdx] on. *)
Fixpoint enhance_nodes (i : nat) (slug : string) (vIdx : nat) (vio_id : string)
  (nIdx : nat) (ns : list AxeNode) : list AxeNode :=
  match ns with
  | [] => []
  | n :: r =>
      enhance_node i slug vIdx vio_id nIdx n
      :: enhance_nodes i slug vIdx vio_id (S nIdx) r
  end.

(** The loop over the violations, from index [vIdx] on. *)
Fixpoint enhance_violations (i : nat) (slug : string) (vIdx : nat)
  (vs : list AxeViolation) : list AxeViolation :=
  match vs with
  | [] => []
  | vio :: r =>
      mkViolation (id vio) (impact vio) (description vio) (help vio) (helpUrl vio)
        (enhance_nodes i slug vIdx (id vio) 0 (nodes vio))
      :: enhance_violations i slug (S vIdx) r
  end.

(** Lines 60-93: the violations with the screenshots attached. *)
Definition enhance (opts : RunOptions) (i : nat) (url : string)
  (result : list AxeViolation) : list AxeViolation :=
  match screenshotsDir opts with
  | None => result
  | Some dir =>
      if (dir =? "")%string then result
      else enhance_violations i (pageSlug url) 0 result
  end.

(** The [for] loop of lines 45-112, from its [i]-th pass on. *)
Fixpoint scan_loop (opts : RunOptions) (i : nat) (todo : list string)
  (totalViolations : Z) (results : list AxeResult) : list AxeResult :=
  match todo with
  | [] => results
  | url :: rest =>
      match page_scan i url with
      | ScanError message =>
          scan_loop opts (S i) rest totalViolations
            (results ++ [mkResult url [] (Some message) (elapsed i)])
      | Violations result =>
          let results' :=
            results ++ [mkResult url (enhance opts i url result) None (elapsed i)] in
          let total' := totalViolations + Z.of_nat (length result) in
          if (0 <? maxIssues opts) && (maxIssues opts <=? total')
          then results'
          else scan_loop opts (S i) rest total' results'
      end
  end.

(** [runAxeForUrls(opts)], for a browser that launches and closes. *)
Definition runAxeForUrls (opts : RunOptions) : list AxeResult :=
  scan_loop opts 0 (urls opts) 0 [].

End Runner.

End Axe.

(** ** The report: [src/reporters/htmlReporter.ts] *)

(** [s.replace(/c/g, by)] for a pattern of one character. *)
Fixpoint replace_all (c : ascii) (by_ : string) (s : string) : string :=
  match s with
  | EmptyString => EmptyString
  | String d r =>
      ((if Ascii.eqb d c then by_ else String d EmptyString)
       ++ replace_all c by_ r)%string
  end.

Definition escapeHtml (input : string) : string :=
  replace_all "'" "&#39;"
    (replace_all Url.dquote "&quot;"
       (replace_all ">" "&gt;"
          (replace_all "<" "&lt;"
             (replace_all "&" "&amp;" input)))).

(** ** The command line: [ensureProtocol], [ensureBase], [getLastBase] *)

(** [s.trim()] on ASCII. *)
Definition trim (s : string) : string :=
  drop_trailing is_space (Str.drop_while is_space s).

(** [/^https?:\/\//i.test(s)]. *)
Definition has_http_scheme (s : string) : bool :=
  match strip_prefix_ci "http" s with
  | None => false
  | Some r =>
      Str.startsWith r "://"
      || match strip_prefix_ci "s" r with
         | Some r' => Str.startsWith r' "://"
         | None => false
         end
  end.

Definition ensureProtocol (input : string) : string :=
  let trimmed := trim input in
  if has_http_scheme trimmed then trimmed else ("https://" ++ trimmed)%string.

(** The template [`${u.protocol}//${u.host}`]. *)
Definition origin_of (u : Url.URL) : string :=
  (Url.protocol u ++ "//" ++ Url.host u)%string.

(** What [ensureBase(provided)] writes to the last-base files and returns
    for a [provided] that is not empty; [None] when [new URL] throws. *)
Definition ensureBase_origin (provided : string) : option string :=
  option_map origin_of (Url.URL_parse (ensureProtocol provided)).

(** [getLastBase] from what [readFile] gives ([None] when it throws);
    [None] is [undefined]. *)
Definition getLastBase (content : option string) : option string :=
  match content with
  | None => None
  | Some c =>
      let trimmed := trim c in
      if (trimmed =? "")%string then None
      else option_map origin_of (Url.URL_parse trimmed)
  end.

(** ** The command line: [discover] *)

(** The options [discover] reads; one that is not given is [None]. *)
Module Cli.

Record CliArgs := mkArgs {
  sitemap : option string;
  concurrency : option nat;
  maxPages : option nat;
  maxDepth : option nat;
  headless : option bool;
  browser : option BrowserKind;
  respectRobots : option bool;
  timeoutMs : option nat
}.

End Cli.

(** [defaultConfig], on a base URL. *)
Definition defaultConfig (baseUrl : string) : CrawlOptions :=
  mkOptions baseUrl 500 4 5 true chromium (20 * 1000) true.

(** [a ?? b]. *)
Definition nullish {A} (a : option A) (b : A) : A :=
  match a with
  | Some x => x
  | None => b
  end.

(** Lines 53-62: the options [discover] hands to [crawlSite]. *)
Definition crawl_options (base : string) (args : Cli.CliArgs) : CrawlOptions :=
  let d := defaultConfig base in
  mkOptions base
    (nullish (Cli.maxPages args) (maxPages d))
    (nullish (Cli.maxDepth args) (maxDepth d))
    (nullish (Cli.concurrency args) (concurrency d))
    (nullish (Cli.headless args) (headless d))
    (nullish (Cli.browser args) (browser d))
    (nullish (Cli.timeoutMs args) (timeoutMs d))
    (nullish (Cli.respectRobots args) (respectRobots d)).

(** Line 64: [Array.from(new Set([...sitemapUrls, ...crawled]))]. *)
Definition combined (sitemapUrls crawled : list string) : list string :=
  fold_left set_add (sitemapUrls ++ crawled) [].

Section Discover.

Variable localeCompare : string -> string -> comparison.
Variable URL_resolve : string -> string -> option string.

(** The robots file as [discoverSitemaps] gets it and as [crawlSite] gets
    it later, the robots parser, and the platform of the harvester. *)
Variable robots_get : string -> Reply.
Variable robots_again : string -> Reply.
Variable robotsParser : string -> string -> RobotsTxt.
Variable axios_get : History -> string -> Reply.
Variable Date_now : History -> Z.
Variable Number_other : string -> option Q.
Variable Date_parse : string -> option Z.
Variable parseStringPromise : string -> XmlResult.

(** [discover(base, args)], lines 42-64: the list it writes to
    [urls.json].  [fuel] bounds the depth of nested sitemaps and [turns]
    is the schedule of the crawl; [Thrown] also stands for a schedule that
    does not take the crawl to its end. *)
Definition discover (fuel : nat) (base : string) (args : Cli.CliArgs)
  (turns : list Turn) : Outcome (list string) :=
  match discoverSitemaps localeCompare URL_resolve robots_get robotsParser base
          (Cli.sitemap args) with
  | None => Thrown
  | Some sitemaps =>
      match discover_sitemaps localeCompare URL_resolve axios_get Date_now
              Number_other Date_parse parseStringPromise fuel sitemaps base [] [] with
      | (Returned sitemapUrls, _) =>
          match crawlSite_robots localeCompare URL_resolve robots_again robotsParser
                  (crawl_options base args) turns with
          | None => Thrown
          | Some crawled => Returned (combined sitemapUrls crawled)
          end
      | (Thrown, _) => Thrown
      | (OutOfFuel, _) => OutOfFuel
      end
  end.

End Discover.

(** ** More of the concrete platform *)

(** Resolution of a reference that is absolute or an absolute path. *)
Definition resolve_reference (href base : string) : option string :=
  match Url.URL_parse base with
  | None => None
  | Some b =>
      if Str.startsWith href "/" && negb (Str.startsWith href "//")
         && Url.path_ok href
      then Some (Url.toString
                   (Url.mkURL (Url.url_scheme b) (Url.url_host b) (Url.url_port b)
                      href None None))
      else option_map Url.toString (Url.URL_parse href)
  end.

(** A robots file that lists the given sitemaps and has no rule, behind
    a server that answers with [res]. *)
Definition robots_listing (lines : list string) (url body : string) : RobotsTxt :=
  mkRobotsTxt (fun _ _ => None) lines.

Definition robots_reply (res : Response) (url : string) : Reply := Replied res.

Definition robots_response : Response :=
  mkResponse 200 "OK" "text/plain" "" "Sitemap: http://a.com/sm.xml/".

Definition robots_missing : Response :=
  mkResponse 404 "Not Found" "text/html" "" "".

(** An XML parser that resolves to [null]. *)
Definition parse_null (xml : string) : XmlResult := XmlNull.


(** The command line without options. *)
Definition no_args : Cli.CliArgs := Cli.mkArgs None None None None None None None None.

(** A scan of four pages: two violations on each page that loads, one
    page that does not load, a stop at three violations. *)
Definition demo_violation : Axe.AxeViolation :=
  Axe.mkViolation "color-contrast" (Some "serious"%string) "Contrast" "Help"
    "https://dequeuniversity.com/rules/axe/color-contrast"
    [Axe.mkNode "<p>" ["#x"%string] None None].

Definition demo_scan (i : nat) (url : string) : Axe.PageScan :=
  if (url =? "http://a.com/bad")%string then Axe.ScanError "Timeout"
  else Axe.Violations [demo_violation; demo_violation].

Definition demo_shoot (i vIdx nIdx : nat) (selector : string) : bool := true.

Definition demo_elapsed (i : nat) : Z := 5%Z.

Definition demo_run : Axe.RunOptions :=
  Axe.mkRun ["http://a.com/"%string; "http://a.com/bad"%string;
             "http://a.com/b"%string; "http://a.com/c"%string]
    true chromium 20000%Z 3%Z (Some "reports/a.com/screenshots"%string).

(** ** Vocabulary of the further statements *)

(** An event [fetchXml(url)] can add to the history: a request for [url]
    or a sleep of no negative length. *)
Definition fetch_event (url : string) (e : Event) : Prop :=
  match e with
  | Get u => u = url
  | Sleep ms => (0 <= ms)%Z
  end.

(** A reply that makes [fetchXml] wait and ask again without recording an
    error, and one that it records as an error. *)
Definition retryable (reply : Reply) : bool :=
  match reply with
  | NetworkError => false
  | Replied res => ((status res =? 429) || (status res =? 503))%Z
  end.

Definition failure (reply : Reply) : bool :=
  negb (accepted reply) && negb (retryable reply).

(** The characters of a slug: letters, digits and the dash. *)
Definition name_char (c : ascii) : bool := Axe.is_alnum c || Axe.is_dash c.

(** The violations counted over a list of results. *)
Definition violations_in (results : list Axe.AxeResult) : Z :=
  fold_right (fun r acc => (Z.of_nat (length (Axe.violations r)) + acc)%Z) 0%Z
    results.

(** What the screenshot step may change of a node: nothing but the
    [screenshot] member, which it sets to a file named by [filename]. *)
Definition node_enhanced (slug vio_id : string) (n n' : Axe.AxeNode) : Prop :=
  Axe.html n' = Axe.html n
  /\ Axe.target n' = Axe.target n
  /\ Axe.failureSummary n' = Axe.failureSummary n
  /\ (Axe.screenshot n' = Axe.screenshot n
      \/ exists nIdx,
           Axe.screenshot n'
           = Some ("screenshots/" ++ Axe.filename slug vio_id nIdx)%string).

Definition violation_enhanced (slug : string) (v v' : Axe.AxeViolation) : Prop :=
  Axe.id v' = Axe.id v
  /\ Axe.impact v' = Axe.impact v
  /\ Axe.description v' = Axe.description v
  /\ Axe.help v' = Axe.help v
  /\ Axe.helpUrl v' = Axe.helpUrl v
  /\ Forall2 (node_enhanced slug (Axe.id v)) (Axe.nodes v) (Axe.nodes v').

(** What [escapeHtml] writes for one character, and a string written
    character by character. *)
Definition escape_char (c : ascii) : string :=
  if Ascii.eqb c "&" then "&amp;"
  else if Ascii.eqb c "<" then "&lt;"
  else if Ascii.eqb c ">" then "&gt;"
  else if Ascii.eqb c Url.dquote then "&quot;"
  else if Ascii.eqb c "'" then "&#39;"
  else String c EmptyString.

Fixpoint expand (f : ascii -> string) (s : string) : string :=
  match s with
  | EmptyString => EmptyString
  | String c r => (f c ++ expand f r)%string
  end.

(** The characters that open or close markup or an attribute value. *)
Definition markup_char (c : ascii) : bool :=
  Ascii.eqb c Url.dquote || Str.mem c "<>'".

(** Every ampersand of [s] starts one of the five entities. *)
Fixpoint entities_only (s : string) : bool :=
  match s with
  | EmptyString => true
  | String c r =>
      (negb (Ascii.eqb c "&")
       || existsb (fun e => String.prefix e r)
            ["amp;"; "lt;"; "gt;"; "quot;"; "#39;"]%string)
      && entities_only r
  end.

(** ** The collation on ASCII letters and digits

    [a.localeCompare(b)] compares the sort keys of the two strings.  In
    the root collation, which the English locales share, the key of a
    string of ASCII letters and digits is the run of its primary weights
    (digits before letters, a letter the same in either case), a
    separator below every weight, and the run of its case weights (lower
    case before upper case); keys are compared weight by weight.  So
    strings are ordered by their letters first, a proper prefix first,
    and by case only when the letters decide nothing: [a], [b], [B].  On
    other characters the key below is not the platform's: they are put
    under the digits, as the platform puts the ASCII punctuation, but in
    the order of their bytes. *)

Definition primary_weight (c : ascii) : N :=
  (if Str.is_digit c then 257 + (N_of_ascii c - 48)
   else if Str.is_lower c then 267 + (N_of_ascii c - 97)
   else if Str.is_upper c then 267 + (N_of_ascii c - 65)
   else 1 + N_of_ascii c)%N.

Definition case_weight (c : ascii) : N :=
  if Str.is_upper c then 1%N else 0%N.

Definition sort_key (s : string) : list N :=
  List.map primary_weight (list_ascii_of_string s)
  ++ 0%N :: List.map case_weight (list_ascii_of_string s).

Fixpoint compare_keys (k1 k2 : list N) : comparison :=
  match k1, k2 with
  | [], [] => Eq
  | [], _ :: _ => Lt
  | _ :: _, [] => Gt
  | x :: r1, y :: r2 =>
      match (x ?= y)%N with
      | Eq => compare_keys r1 r2
      | c => c
      end
  end.

Definition collate (a b : string) : comparison :=
  compare_keys (sort_key a) (sort_key b).

(** Keys in lexicographic order of their code units. *)
Fixpoint lexicographic (keys : list string) : bool :=
  match keys with
  | a :: r =>
      match r with
      | b :: _ =>
          match String.compare a b with
          | Gt => false
          | _ => lexicographic r
          end
      | [] => true
      end
  | [] => true
  end.

(** ** Strings the [URL] constructor rejects

    Three ways in which [new URL(raw)] throws, on a string of printable
    ASCII (which leaves the parser nothing to strip): the string does not
    start with a scheme, that is a letter, then letters, digits, [+], [-]
    or [.], then a colon; the scheme is special and the authority, which
    has neither credentials nor a bracketed address, names no host; or
    the authority has a port that is not a decimal number up to 65535. *)

Definition is_alpha (c : ascii) : bool := Str.is_upper c || Str.is_lower c.

Definition scheme_char (c : ascii) : bool :=
  is_alpha c || Str.is_digit c || Str.mem c "+-.".

Definition has_scheme (raw : string) : bool :=
  match raw with
  | EmptyString => false
  | String c r =>
      is_alpha c
      && match Str.drop_while scheme_char r with
         | String ":" _ => true
         | _ => false
         end
  end.

(** The scheme in lower case and the authority: what lies between the
    slashes after the scheme's colon and the path, query or fragment. *)
Definition authority (raw : string) : option (string * string) :=
  let (sch, r1) := Str.span (fun c => negb (Ascii.eqb c ":")) raw in
  match r1 with
  | EmptyString => None
  | String _ r2 =>
      Some (Str.toLowerCase sch,
            fst (Str.span (fun c => negb (Str.mem c "/\?#"))
                   (Str.drop_while Url.is_slash r2)))
  end.

Definition bad_authority (raw : string) : bool :=
  match authority raw with
  | None => false
  | Some (scheme, auth) =>
      match Url.default_port scheme with
      | None => false
      | Some dflt =>
          let (h, r5) := Str.span (fun c => negb (Ascii.eqb c ":")) auth in
          Str.all (fun c => negb (Str.mem c "@[")) auth
          && ((h =? "")%string
              || match Url.parse_port (Url.tail r5) dflt with
                 | None => true
                 | Some _ => false
                 end)
      end
  end.

Definition URL_rejects (raw : string) : bool :=
  Str.all Url.is_printable raw && (negb (has_scheme raw) || bad_authority raw).

(** ** Queries written without escapes *)

(** Names and values made of the characters the form serialiser leaves as
    they are, and the query text [k1=v1&k2=v2...] of such entries. *)
Definition plain_entry (e : Form.entry) : Prop :=
  Str.all Form.is_safe (fst e) = true /\ Str.all Form.is_safe (snd e) = true.

Definition query_text (es : list Form.entry) : string :=
  String.concat "&" (List.map (fun e => (fst e ++ "=" ++ snd e)%string) es).

(** The search of a URL with the given entries. *)
Definition search_text (es : list Form.entry) : string :=
  match es with
  | [] => ""%string
  | _ :: _ => ("?" ++ Form.serialize es)%string
  end.

(** ** An empty sitemap document

    A server that answers 200 with an XML content type and no body, and
    the XML parser on it: [parseStringPromise] resolves to [null] on the
    empty string, to the document on the body it knows, and rejects
    anything else. *)
Definition empty_response : Response :=
  mkResponse 200 "OK" "application/xml" "" "".

Definition parse_or_null (body : string) (doc : SitemapDoc) (xml : string) : XmlResult :=
  if (xml =? "")%string then XmlNull
  else if (xml =? body)%string then XmlDoc doc
  else XmlError.

(** A site whose [/sitemap.xml] is such an empty document and whose other
    sitemap lists a page, and a command line that names the other
    sitemap. *)
Definition first_empty (h : History) (u : string) : Reply :=
  Replied (if (u =? "http://a.com/sitemap.xml")%string
           then empty_response else slashes_response).

Definition pages_args : Cli.CliArgs :=
  Cli.mkArgs (Some "http://a.com/pages.xml"%string) None None None None None None None.

(* ================================================================== *)
(** * Part II: properties *)
(* ================================================================== *)

Local Open Scope nat_scope.

(** ** Sets in insertion order *)

Lemma set_has_In (s : list string) (x : string) :
  set_has s x = true <-> In x s.
Proof.
  unfold set_has. rewrite existsb_exists. split.
  - intros (y & Hy & E). apply String.eqb_eq in E. now subst.
  - intros H. exists x. split; [assumption | apply String.eqb_refl].
Qed.

Lemma set_has_not_In (s : list string) (x : string) :
  set_has s x = false <-> ~ In x s.
Proof.
  rewrite <- set_has_In. destruct (set_has s x); split; congruence.
Qed.

Lemma set_add_In (s : list string) (x y : string) :
  In y (set_add s x) <-> In y s \/ y = x.
Proof.
  unfold set_add. destruct (set_has s x) eqn:E.
  - apply set_has_In in E. split; [tauto | intros [H | ->]; assumption].
  - rewrite in_app_iff. simpl. intuition congruence.
Qed.

Lemma set_add_length (s : list string) (x : string) :
  length (set_add s x) <= S (length s).
Proof.
  unfold set_add. destruct (set_has s x).
  - lia.
  - rewrite length_app. simpl. lia.
Qed.

Lemma NoDup_snoc {A} (l : list A) (x : A) :
  NoDup l -> ~ In x l -> NoDup (l ++ [x]).
Proof.
  intros Hl Hx. induction Hl as [| y l Hy Hl IH]; simpl.
  - constructor; [intros [] | constructor].
  - constructor.
    + rewrite in_app_iff. simpl. intros [H | [H | []]].
      * contradiction.
      * subst. apply Hx. now left.
    + apply IH. intros H. apply Hx. now right.
Qed.

Lemma set_add_NoDup (s : list string) (x : string) :
  NoDup s -> NoDup (set_add s x).
Proof.
  intros H. unfold set_add. destruct (set_has s x) eqn:E; [assumption |].
  apply NoDup_snoc; [assumption | now apply set_has_not_In].
Qed.

Lemma In_firstn {A} (n : nat) (l : list A) (x : A) :
  In x (firstn n l) -> In x l.
Proof.
  intros H. rewrite <- (firstn_skipn n l). apply in_or_app. now left.
Qed.

Lemma In_skipn {A} (n : nat) (l : list A) (x : A) :
  In x (skipn n l) -> In x l.
Proof.
  intros H. rewrite <- (firstn_skipn n l). apply in_or_app. now right.
Qed.

Lemma In_remove_nth {A} (i : nat) (l : list A) (x : A) :
  In x (remove_nth i l) -> In x l.
Proof.
  unfold remove_nth. rewrite in_app_iff. intros [H | H].
  - eapply In_firstn; eassumption.
  - eapply In_skipn; eassumption.
Qed.

(** ** Mapping and filtering with functions that can throw *)

Lemma map_throw_In {A B} (f : A -> option B) (xs : list A) (ys : list B) (y : B) :
  map_throw f xs = Some ys -> In y ys -> exists x, In x xs /\ f x = Some y.
Proof.
  revert ys. induction xs as [| x xs IH]; simpl; intros ys E Hy.
  - injection E as <-. destruct Hy.
  - destruct (f x) as [z |] eqn:Ez; [| discriminate].
    destruct (map_throw f xs) as [zs |]; [| discriminate].
    injection E as <-. destruct Hy as [<- | Hy].
    + exists x. auto.
    + destruct (IH zs eq_refl Hy) as (x' & Hin & Hf). exists x'. auto.
Qed.

Lemma filter_throw_In {A} (p : A -> option bool) (xs ys : list A) (y : A) :
  filter_throw p xs = Some ys -> In y ys -> In y xs /\ p y = Some true.
Proof.
  revert ys. induction xs as [| x xs IH]; simpl; intros ys E Hy.
  - injection E as <-. destruct Hy.
  - destruct (p x) as [b |] eqn:Eb; [| discriminate].
    destruct (filter_throw p xs) as [zs |]; [| discriminate].
    injection E as <-. destruct b.
    + destruct Hy as [<- | Hy]; [auto |].
      destruct (IH zs eq_refl Hy). auto.
    + destruct (IH zs eq_refl Hy). auto.
Qed.

(** ** Strings *)

Module StrFacts.

Lemma append_nil_r (s : string) : (s ++ "")%string = s.
Proof. induction s as [| c s IH]; simpl; [reflexivity | now rewrite IH]. Qed.

Lemma append_assoc (a b c : string) :
  ((a ++ b) ++ c)%string = (a ++ b ++ c)%string.
Proof. induction a as [| x a IH]; simpl; [reflexivity | now rewrite IH]. Qed.

Lemma all_app (p : ascii -> bool) (a b : string) :
  Str.all p (a ++ b) = Str.all p a && Str.all p b.
Proof.
  induction a as [| c a IH]; simpl; [reflexivity |].
  now rewrite IH, andb_assoc.
Qed.

Lemma all_impl (p q : ascii -> bool) (s : string) :
  (forall c, p c = true -> q c = true) ->
  Str.all p s = true -> Str.all q s = true.
Proof.
  intros Hpq. induction s as [| c s IH]; simpl; [reflexivity |].
  intros H. apply andb_prop in H as [Hc Hs].
  now rewrite (Hpq c Hc), (IH Hs).
Qed.

Lemma span_app (p : ascii -> bool) (a b : string) :
  Str.all p a = true -> Str.stops p b -> Str.span p (a ++ b) = (a, b).
Proof.
  intros Ha Hb. induction a as [| c a IH]; simpl in *.
  - destruct b as [| c b]; simpl in *; [reflexivity | now rewrite Hb].
  - apply andb_prop in Ha as [Hc Ha]. now rewrite Hc, (IH Ha).
Qed.

Lemma span_spec (p : ascii -> bool) (s a b : string) :
  Str.span p s = (a, b) ->
  s = (a ++ b)%string /\ Str.all p a = true /\ Str.stops p b.
Proof.
  revert a b. induction s as [| c s IH]; simpl; intros a b E.
  - injection E as <- <-. simpl. auto.
  - destruct (p c) eqn:Ec.
    + destruct (Str.span p s) as [a' b'] eqn:Es. injection E as <- <-.
      destruct (IH a' b' eq_refl) as (-> & Ha & Hb). simpl.
      rewrite Ec, Ha. auto.
    + injection E as <- <-. simpl. auto.
Qed.

Lemma drop_while_stops (p : ascii -> bool) (s : string) :
  Str.stops p s -> Str.drop_while p s = s.
Proof. destruct s as [| c s]; simpl; [reflexivity | now intros ->]. Qed.

Lemma map_app (f : ascii -> ascii) (a b : string) :
  Str.map f (a ++ b) = (Str.map f a ++ Str.map f b)%string.
Proof. induction a as [| c a IH]; simpl; [reflexivity | now rewrite IH]. Qed.

Lemma map_id_on (f : ascii -> ascii) (p : ascii -> bool) (s : string) :
  (forall c, p c = true -> f c = c) ->
  Str.all p s = true -> Str.map f s = s.
Proof.
  intros Hf. induction s as [| c s IH]; simpl; [reflexivity |].
  intros H. apply andb_prop in H as [Hc Hs].
  now rewrite (Hf c Hc), (IH Hs).
Qed.

Lemma all_map (f : ascii -> ascii) (p : ascii -> bool) (s : string) :
  Str.all p (Str.map f s) = Str.all (fun c => p (f c)) s.
Proof. induction s as [| c s IH]; simpl; [reflexivity | now rewrite IH]. Qed.

Lemma prefix_app (a b : string) : String.prefix a (a ++ b) = true.
Proof.
  induction a as [| c a IH]; simpl.
  - now destruct b.
  - destruct (ascii_dec c c) as [_ | N]; [assumption | congruence].
Qed.

(** Case analysis over all 256 characters, by computation. *)
Ltac by_char c := destruct c as [[] [] [] [] [] [] [] []]; vm_compute; try reflexivity; try discriminate; auto.

Lemma lower_ascii_not_upper (c : ascii) :
  Str.is_upper (Str.lower_ascii c) = false.
Proof. by_char c. Qed.

Lemma lower_ascii_id (c : ascii) :
  Str.is_upper c = false -> Str.lower_ascii c = c.
Proof. unfold Str.lower_ascii. now intros ->. Qed.

Lemma toLowerCase_idem (s : string) :
  Str.toLowerCase (Str.toLowerCase s) = Str.toLowerCase s.
Proof.
  unfold Str.toLowerCase. induction s as [| c s IH]; simpl; [reflexivity |].
  rewrite IH. f_equal. apply lower_ascii_id, lower_ascii_not_upper.
Qed.

Lemma toLowerCase_id (s : string) :
  Str.all (fun c => negb (Str.is_upper c)) s = true -> Str.toLowerCase s = s.
Proof.
  apply map_id_on. intros c H. apply lower_ascii_id.
  now apply negb_true_iff in H.
Qed.

(** *** [split], [endsWith] and [slice(0, -1)] *)

Lemma split_on_cons (sep : ascii) (s : string) :
  exists h t, Str.split_on sep s = h :: t.
Proof.
  induction s as [| c s (h & t & IH)]; simpl.
  - eauto.
  - destruct (Ascii.eqb c sep); [eauto |]. rewrite IH. eauto.
Qed.

Lemma split_on_snoc_sep (sep : ascii) (s : string) :
  Str.split_on sep (s ++ String sep "") = Str.split_on sep s ++ [""%string].
Proof.
  induction s as [| c s IH]; simpl.
  - now rewrite Ascii.eqb_refl.
  - destruct (Ascii.eqb c sep); [now rewrite IH |].
    rewrite IH. destruct (split_on_cons sep s) as (h & t & ->). reflexivity.
Qed.

Lemma endsWith_chop (s : string) (c : ascii) :
  Str.endsWith s (String c "") = true -> s = (Str.chop s ++ String c "")%string.
Proof.
  induction s as [| x s IH]; intros H.
  - discriminate.
  - destruct s as [| y s].
    + simpl in H. destruct (Ascii.eqb_spec x c) as [-> | N]; [reflexivity |].
      discriminate.
    + change (Str.chop (String x (String y s))) with (String x (Str.chop (String y s))).
      simpl. f_equal. apply IH.
      cbn [Str.endsWith] in H. apply orb_prop in H as [H | H]; [| exact H].
      apply String.eqb_eq in H. discriminate.
Qed.

Lemma chop_snoc (s : string) (c : ascii) : Str.chop (s ++ String c "") = s.
Proof.
  induction s as [| x s IH]; [reflexivity |].
  simpl. rewrite IH. destruct (s ++ String c "")%string eqn:E; [| reflexivity].
  destruct s; discriminate.
Qed.

Lemma endsWith_snoc (s suffix : string) (c : ascii) :
  Str.endsWith (s ++ String c "") (suffix ++ String c "")
  = Str.endsWith s suffix.
Proof.
  assert (Hinj : forall a b, ((a ++ String c "") =? (b ++ String c ""))%string = (a =? b)%string).
  { induction a as [| x a IH]; destruct b as [| y b]; simpl.
    - now rewrite Ascii.eqb_refl.
    - destruct (Ascii.eqb c y); destruct b; reflexivity.
    - destruct (Ascii.eqb x c); destruct a; reflexivity.
    - now rewrite IH. }
  induction s as [| x s IH].
  - pose proof (Hinj ""%string suffix) as H0. cbn [String.append] in H0.
    cbn [String.append Str.endsWith]. rewrite H0, !orb_false_r.
    destruct suffix as [| y suffix]; simpl; [reflexivity |].
    destruct (Ascii.eqb c y); destruct suffix; reflexivity.
  - change ((String x s) ++ String c "")%string with (String x (s ++ String c "")).
    cbn [Str.endsWith]. rewrite IH.
    change (String x (s ++ String c "")) with ((String x s) ++ String c "")%string.
    now rewrite Hinj.
Qed.

Lemma endsWith_nil (s : string) : Str.endsWith s "" = true.
Proof. induction s as [| x s IH]; [reflexivity | exact IH]. Qed.

Lemma endsWith_nil_snoc (s : string) (c : ascii) :
  Str.endsWith (s ++ String c "") (String c "") = true.
Proof.
  change (String c "") with ("" ++ String c "")%string at 2.
  rewrite endsWith_snoc. apply endsWith_nil.
Qed.

End StrFacts.

(** ** The form-urlencoded format *)

Module FormFacts.
Import StrFacts.

Lemma percent_decode_plain (c : ascii) (r : string) :
  c <> "%"%char ->
  Form.percent_decode (String c r) = String c (Form.percent_decode r).
Proof.
  intros N. apply Ascii.eqb_neq in N.
  destruct r as [| a [| b r]]; simpl; try reflexivity.
  now rewrite N.
Qed.

(** Decoding what [encode_byte] wrote gives the byte back. *)
Lemma decode_encode_byte (c : ascii) (rest : string) :
  Form.percent_decode (Str.map Form.plus_to_space (Form.encode_byte c) ++ rest)
  = String c (Form.percent_decode rest).
Proof.
  destruct c as [[] [] [] [] [] [] [] []];
    first [ reflexivity | apply percent_decode_plain; discriminate ].
Qed.

Lemma decode_encode (s : string) : Form.decode (Form.encode s) = s.
Proof.
  unfold Form.decode. induction s as [| c s IH]; [reflexivity |].
  cbn [Form.encode]. now rewrite map_app, decode_encode_byte, IH.
Qed.

Lemma encode_byte_out (c : ascii) : Str.all out_char (Form.encode_byte c) = true.
Proof. by_char c. Qed.

Lemma encode_out (s : string) : Str.all out_char (Form.encode s) = true.
Proof.
  induction s as [| c s IH]; [reflexivity |].
  cbn [Form.encode]. now rewrite all_app, encode_byte_out, IH.
Qed.

Lemma out_char_not (sep : ascii) :
  Str.mem sep "&=" = true ->
  forall c, out_char c = true -> negb (Ascii.eqb c sep) = true.
Proof.
  intros Hs c Hc. destruct (Ascii.eqb_spec c sep) as [-> | N]; [| reflexivity].
  revert Hs Hc. by_char sep.
Qed.

Lemma out_char_query (c : ascii) : out_char c = true -> Url.query_char c = true.
Proof. by_char c. Qed.

Lemma split_on_plain (sep : ascii) (a : string) :
  Str.all (fun c => negb (Ascii.eqb c sep)) a = true -> Str.split_on sep a = [a].
Proof.
  induction a as [| c a IH]; simpl; [reflexivity |].
  intros H. apply andb_prop in H as [Hc Ha]. apply negb_true_iff in Hc.
  now rewrite Hc, (IH Ha).
Qed.

Lemma split_on_app_sep (sep : ascii) (a b : string) :
  Str.all (fun c => negb (Ascii.eqb c sep)) a = true ->
  Str.split_on sep (a ++ String sep b) = a :: Str.split_on sep b.
Proof.
  induction a as [| c a IH]; simpl.
  - now rewrite Ascii.eqb_refl.
  - intros H. apply andb_prop in H as [Hc Ha]. apply negb_true_iff in Hc.
    now rewrite Hc, (IH Ha).
Qed.

Lemma split_on_concat (sep : ascii) (pieces : list string) :
  pieces <> [] ->
  Forall (fun p => Str.all (fun c => negb (Ascii.eqb c sep)) p = true) pieces ->
  Str.split_on sep (String.concat (String sep "") pieces) = pieces.
Proof.
  induction pieces as [| p ps IH]; [congruence |].
  intros _ H. inversion H as [| ? ? Hp Hps]; subst.
  destruct ps as [| q ps].
  - simpl. now apply split_on_plain.
  - cbn [String.concat]. cbn [String.append].
    rewrite split_on_app_sep by assumption.
    f_equal. apply IH; [discriminate | assumption].
Qed.

Lemma serialize_pair_plain (e : Form.entry) :
  Str.all (fun c => negb (Ascii.eqb c "&")) (Form.serialize_pair e) = true.
Proof.
  unfold Form.serialize_pair. rewrite !all_app. simpl.
  rewrite !(all_impl out_char _ _ (out_char_not "&"%char eq_refl) (encode_out _)).
  reflexivity.
Qed.

Lemma parse_serialize_pair (e : Form.entry) :
  Form.parse_pair (Form.serialize_pair e) = e.
Proof.
  unfold Form.parse_pair, Form.serialize_pair.
  rewrite (span_app _ (Form.encode (fst e)) ("=" ++ Form.encode (snd e))).
  - simpl. rewrite !decode_encode. now destruct e.
  - apply (all_impl out_char); [apply (out_char_not "="%char eq_refl) | apply encode_out].
  - reflexivity.
Qed.

Lemma serialize_pair_nonempty (e : Form.entry) :
  negb (Form.serialize_pair e =? "")%string = true.
Proof.
  unfold Form.serialize_pair. destruct (Form.encode (fst e)); reflexivity.
Qed.

(** Reading back what the serialiser wrote gives the entries back. *)
Lemma parse_serialize (es : list Form.entry) :
  Form.parse (Form.serialize es) = es.
Proof.
  unfold Form.parse, Form.serialize. destruct es as [| e es]; [reflexivity |].
  rewrite split_on_concat.
  - set (l := e :: es). clearbody l. induction l as [| x l IH]; [reflexivity |].
    cbn [List.map filter]. rewrite serialize_pair_nonempty.
    cbn [List.map]. now rewrite parse_serialize_pair, IH.
  - discriminate.
  - apply Forall_forall. intros p Hp. apply in_map_iff in Hp.
    destruct Hp as (x & <- & _). apply serialize_pair_plain.
Qed.

Lemma serialize_query_chars (es : list Form.entry) :
  Str.all Url.query_char (Form.serialize es) = true.
Proof.
  unfold Form.serialize.
  assert (Hp : forall e, Str.all Url.query_char (Form.serialize_pair e) = true).
  { intros e. unfold Form.serialize_pair. rewrite !all_app. simpl.
    rewrite !(all_impl out_char _ _ out_char_query (encode_out _)). reflexivity. }
  induction es as [| e es IH]; [reflexivity |].
  destruct es as [| e' es]; [apply Hp |].
  cbn [List.map String.concat] in *. rewrite !all_app, Hp, IH. reflexivity.
Qed.

(** *** Escapes of ASCII bytes *)

Lemma ascii_escapes_app_r (a b : string) :
  Url.ascii_escapes (a ++ b) = true -> Url.ascii_escapes b = true.
Proof.
  induction a as [| c a IH]; [trivial |].
  cbn [String.append Url.ascii_escapes]. intros H.
  apply andb_prop in H as [_ H]. now apply IH.
Qed.

Lemma ascii_escapes_app_l (a b : string) :
  Url.ascii_escapes (a ++ b) = true -> Url.ascii_escapes a = true.
Proof.
  induction a as [| c a IH]; [reflexivity |].
  cbn [String.append Url.ascii_escapes]. intros H.
  apply andb_prop in H as [H1 H2]. rewrite (IH H2), andb_true_r.
  destruct (Ascii.eqb c "%"); [| reflexivity]. cbn [andb] in *.
  destruct a as [| x [| y a]]; try reflexivity. exact H1.
Qed.

Lemma ascii_escapes_tail (s : string) :
  Url.ascii_escapes s = true -> Url.ascii_escapes (Url.tail s) = true.
Proof.
  destruct s as [| c s]; [trivial |]. cbn [Url.tail Url.ascii_escapes].
  intros H. now apply andb_prop in H as [_ H].
Qed.

Lemma printable_ascii7 (c : ascii) : Url.is_printable c = true -> ascii7 c = true.
Proof. by_char c. Qed.

Lemma plus_to_space_ascii7 (c : ascii) :
  ascii7 c = true -> ascii7 (Form.plus_to_space c) = true.
Proof. by_char c. Qed.

Lemma plus_to_space_escapes (s : string) :
  Url.ascii_escapes (Str.map Form.plus_to_space s) = Url.ascii_escapes s.
Proof.
  assert (Hp : forall c, Ascii.eqb (Form.plus_to_space c) "%" = Ascii.eqb c "%")
    by (intros c; by_char c).
  assert (Hh : forall c, Url.is_high_hex (Form.plus_to_space c) = Url.is_high_hex c)
    by (intros c; by_char c).
  assert (Hx : forall c, Url.is_hex (Form.plus_to_space c) = Url.is_hex c)
    by (intros c; by_char c).
  induction s as [| c s IH]; [reflexivity |].
  cbn [Str.map Url.ascii_escapes]. rewrite IH, Hp. f_equal. f_equal. f_equal.
  destruct s as [| a [| b s]]; try reflexivity.
  cbn [Str.map]. now rewrite Hh, Hx.
Qed.

Lemma hex_value_low (a b : ascii) (x y : N) :
  Form.hex_value a = Some x -> Form.hex_value b = Some y ->
  Url.is_high_hex a && Url.is_hex b = false ->
  ascii7 (ascii_of_N (16 * x + y)) = true.
Proof.
  assert (Hb : Form.hex_value b = Some y -> Url.is_hex b = true /\ (y < 16)%N).
  { destruct b as [[] [] [] [] [] [] [] []]; vm_compute;
      try discriminate; intros [= <-]; now split. }
  assert (Ha : Form.hex_value a = Some x -> Url.is_high_hex a = false -> (x < 8)%N).
  { destruct a as [[] [] [] [] [] [] [] []]; vm_compute;
      try discriminate; intros [= <-]; try discriminate; reflexivity. }
  intros Ea Eb H. destruct (Hb Eb) as [Hxb Hy]. rewrite Hxb, andb_true_r in H.
  pose proof (Ha Ea H) as Hx. unfold ascii7.
  rewrite N_ascii_embedding by lia. apply N.ltb_lt. lia.
Qed.

Lemma percent_decode_three (c a b : ascii) (r : string) :
  Form.percent_decode (String c (String a (String b r)))
  = match Ascii.eqb c "%", Form.hex_value a, Form.hex_value b with
    | true, Some x, Some y => String (ascii_of_N (16 * x + y)) (Form.percent_decode r)
    | _, _, _ => String c (Form.percent_decode (String a (String b r)))
    end.
Proof. reflexivity. Qed.

(** Decoding a string of ASCII characters whose escapes are ASCII gives
    ASCII bytes. *)
Lemma percent_decode_ascii7 (s : string) :
  Str.all ascii7 s = true -> Url.ascii_escapes s = true ->
  Str.all ascii7 (Form.percent_decode s) = true.
Proof.
  assert (H : forall n s, String.length s <= n ->
              Str.all ascii7 s = true -> Url.ascii_escapes s = true ->
              Str.all ascii7 (Form.percent_decode s) = true).
  { clear s. induction n as [| n IH]; intros s Hn Ha He.
    - destruct s; [reflexivity | simpl in Hn; lia].
    - destruct s as [| c r]; [reflexivity |].
      cbn [Str.all] in Ha. apply andb_prop in Ha as [Hc Hr].
      pose proof He as He0. cbn [Url.ascii_escapes] in He.
      apply andb_prop in He as [Hbad He].
      assert (Hplain : Str.all ascii7 (String c (Form.percent_decode r)) = true).
      { cbn [Str.all]. rewrite Hc. apply IH; [simpl in Hn; lia | assumption..]. }
      destruct r as [| a [| b r']]; try exact Hplain.
      rewrite percent_decode_three.
      destruct (Ascii.eqb c "%") eqn:Ec; [| exact Hplain].
      destruct (Form.hex_value a) as [x |] eqn:Ex; [| exact Hplain].
      destruct (Form.hex_value b) as [y |] eqn:Ey; [| exact Hplain].
      cbn [andb] in Hbad. apply negb_true_iff in Hbad.
      cbn [Str.all]. rewrite (hex_value_low a b x y Ex Ey Hbad).
      cbn [Str.all] in Hr. apply andb_prop in Hr as [_ Hr].
      apply andb_prop in Hr as [_ Hr].
      apply IH; [simpl in Hn; lia | assumption |].
      now apply ascii_escapes_tail in He; apply ascii_escapes_tail in He. }
  intros Ha He. now apply (H (String.length s) s).
Qed.

Lemma decode_ascii7 (s : string) :
  Str.all Url.is_printable s = true -> Url.ascii_escapes s = true ->
  Str.all ascii7 (Form.decode s) = true.
Proof.
  intros Hp He. unfold Form.decode. apply percent_decode_ascii7.
  - rewrite all_map. apply (all_impl Url.is_printable); [| assumption].
    intros c Hc. now apply plus_to_space_ascii7, printable_ascii7.
  - now rewrite plus_to_space_escapes.
Qed.

Lemma split_on_head (sep : ascii) (s h : string) (t : list string) :
  Str.split_on sep s = h :: t -> exists b, s = (h ++ b)%string.
Proof.
  revert h t. induction s as [| c s IH]; simpl; intros h t E.
  - injection E as <- <-. now exists ""%string.
  - destruct (Ascii.eqb c sep).
    + injection E as <- <-. now exists (String c s).
    + destruct (Str.split_on sep s) as [| h' t'] eqn:Es.
      * injection E as <- <-. destruct (split_on_cons sep s) as (x & y & Hxy).
        congruence.
      * injection E as <- <-. destruct (IH h' t' eq_refl) as (b & ->).
        now exists b.
Qed.

Lemma split_on_In (sep : ascii) (s piece : string) :
  In piece (Str.split_on sep s) ->
  exists a b, s = (a ++ piece ++ b)%string.
Proof.
  induction s as [| c s IH]; simpl.
  - intros [<- | []]. now exists ""%string, ""%string.
  - destruct (Ascii.eqb c sep).
    + intros [<- | H].
      * now exists ""%string, (String c s).
      * destruct (IH H) as (a & b & ->). now exists (String c a), b.
    + destruct (Str.split_on sep s) as [| h t] eqn:Es.
      * intros [<- | []]. destruct (split_on_cons sep s) as (x & y & Hxy).
        congruence.
      * intros [<- | H].
        -- destruct (split_on_head sep s h t Es) as (b & ->).
           now exists ""%string, b.
        -- destruct (IH (or_intror H)) as (a & b & ->).
           now exists (String c a), b.
Qed.

(** The entries of a query the model covers are ASCII. *)
Lemma parse_ascii (q : string) :
  Url.query_ok q = true -> Forall entry_ascii (Form.parse q).
Proof.
  unfold Url.query_ok. intros H. apply andb_prop in H as [Hc He].
  assert (Hp : Str.all Url.is_printable q = true).
  { apply (all_impl Url.query_char); [| assumption].
    intros c. unfold Url.query_char. intros Hq. now apply andb_prop in Hq as [Hq _]. }
  unfold Form.parse. apply Forall_forall. intros e Hin.
  apply in_map_iff in Hin. destruct Hin as (piece & <- & Hin).
  apply filter_In in Hin as [Hin _].
  destruct (split_on_In "&" q piece Hin) as (a & b & ->).
  rewrite !all_app in Hp. apply andb_prop in Hp as [_ Hp].
  apply andb_prop in Hp as [Hp _].
  apply ascii_escapes_app_r, ascii_escapes_app_l in He.
  unfold Form.parse_pair.
  destruct (Str.span _ piece) as [n r] eqn:Es.
  destruct (span_spec _ _ _ _ Es) as (-> & _ & _).
  rewrite all_app in Hp. apply andb_prop in Hp as [Hn Hr].
  split; cbn [fst snd].
  - apply decode_ascii7; [assumption |]. now apply ascii_escapes_app_l in He.
  - apply decode_ascii7.
    + destruct r as [| c r]; [reflexivity |]. cbn [Url.tail Str.all] in *.
      now apply andb_prop in Hr as [_ Hr].
    + now apply ascii_escapes_app_r, ascii_escapes_tail in He.
Qed.

Lemma encode_byte_escapes (c : ascii) (rest : string) :
  ascii7 c = true ->
  Url.ascii_escapes (Form.encode_byte c ++ rest) = Url.ascii_escapes rest.
Proof.
  destruct c as [[] [] [] [] [] [] [] []]; intros H;
    first [ discriminate H | reflexivity ].
Qed.

Lemma encode_escapes (s rest : string) :
  Str.all ascii7 s = true ->
  Url.ascii_escapes (Form.encode s ++ rest) = Url.ascii_escapes rest.
Proof.
  induction s as [| c s IH]; [reflexivity |].
  cbn [Str.all Form.encode]. intros H. apply andb_prop in H as [Hc Hs].
  now rewrite append_assoc, (encode_byte_escapes c _ Hc), IH.
Qed.

Lemma serialize_escapes (es : list Form.entry) :
  Forall entry_ascii es -> Url.ascii_escapes (Form.serialize es) = true.
Proof.
  unfold Form.serialize.
  assert (Hp : forall e rest, entry_ascii e ->
             Url.ascii_escapes (Form.serialize_pair e ++ rest)
             = Url.ascii_escapes rest).
  { intros e rest [Hn Hv]. unfold Form.serialize_pair.
    rewrite !append_assoc, (encode_escapes _ _ Hn).
    cbn [String.append]. change (Url.ascii_escapes (String "=" ?x))
      with (Url.ascii_escapes x).
    apply (encode_escapes _ _ Hv). }
  induction 1 as [| e es He Hes IH]; [reflexivity |].
  destruct es as [| e' es].
  - cbn [List.map String.concat]. rewrite <- (append_nil_r (Form.serialize_pair e)).
    now rewrite (Hp e "" He)%string.
  - cbn [List.map String.concat] in *. rewrite (Hp e _ He).
    cbn [String.append]. exact IH.
Qed.

Lemma serialize_query_ok (es : list Form.entry) :
  Forall entry_ascii es -> Url.query_ok (Form.serialize es) = true.
Proof.
  intros H. unfold Url.query_ok.
  now rewrite serialize_query_chars, serialize_escapes.
Qed.

Lemma serialize_nonempty (e : Form.entry) (es : list Form.entry) :
  Form.serialize (e :: es) <> ""%string.
Proof.
  unfold Form.serialize. cbn [List.map String.concat].
  pose proof (serialize_pair_nonempty e) as H.
  destruct (Form.serialize_pair e) eqn:E; [discriminate |].
  destruct (List.map Form.serialize_pair es); discriminate.
Qed.

End FormFacts.

(** ** Sorting the query entries *)

Section SortFacts.

Variable cmp : string -> string -> comparison.
Hypothesis cmp_antisym : forall a b, cmp b a = CompOpp (cmp a b).
Hypothesis cmp_trans :
  forall a b c, cmp a b <> Gt -> cmp b c <> Gt -> cmp a c <> Gt.

Local Abbreviation ins := (sort_insert cmp).
Local Abbreviation sort := (sort_entries cmp).
Local Abbreviation le := (key_le cmp).

Lemma key_le_total (a b : Form.entry) : ~ le a b -> le b a.
Proof.
  unfold key_le. intros H. rewrite cmp_antisym.
  destruct (cmp (fst a) (fst b)); simpl; try discriminate;
    exfalso; apply H; discriminate.
Qed.

Lemma sort_insert_perm (e : Form.entry) (l : list Form.entry) :
  Permutation (ins e l) (e :: l).
Proof.
  induction l as [| h t IH]; simpl; [reflexivity |].
  destruct (cmp (fst e) (fst h)); try reflexivity.
  rewrite IH. apply perm_swap.
Qed.

Lemma sort_entries_perm (l : list Form.entry) : Permutation (sort l) l.
Proof.
  induction l as [| e l IH]; simpl; [reflexivity |].
  now rewrite sort_insert_perm, IH.
Qed.

Lemma sort_insert_hd (x e : Form.entry) (l : list Form.entry) :
  le x e -> HdRel le x l -> HdRel le x (ins e l).
Proof.
  intros Hxe Hxl. destruct l as [| h t]; simpl.
  - now constructor.
  - inversion Hxl; subst. destruct (cmp (fst e) (fst h)); now constructor.
Qed.

Lemma sort_insert_sorted (e : Form.entry) (l : list Form.entry) :
  Sorted le l -> Sorted le (ins e l).
Proof.
  induction l as [| h t IH]; simpl; intros Hs.
  - repeat constructor.
  - inversion Hs as [| ? ? Ht Hh]; subst.
    destruct (cmp (fst e) (fst h)) eqn:E.
    + constructor; [assumption |]. constructor. unfold key_le. congruence.
    + constructor; [assumption |]. constructor. unfold key_le. congruence.
    + constructor; [now apply IH |].
      apply sort_insert_hd; [| assumption].
      apply key_le_total. unfold key_le. congruence.
Qed.

Lemma sort_entries_sorted (l : list Form.entry) : Sorted le (sort l).
Proof.
  induction l as [| e l IH]; simpl; [constructor |].
  now apply sort_insert_sorted.
Qed.

(** Sorting leaves a sorted list as it is. *)
Lemma sort_entries_fixed (l : list Form.entry) : Sorted le l -> sort l = l.
Proof.
  induction l as [| e l IH]; simpl; intros Hs; [reflexivity |].
  inversion Hs as [| ? ? Hl He]; subst. rewrite (IH Hl).
  destruct l as [| h t]; [reflexivity |]. simpl.
  inversion He as [| ? ? Hle]; subst. unfold key_le in Hle.
  destruct (cmp (fst e) (fst h)); congruence.
Qed.

Lemma sort_entries_idem (l : list Form.entry) : sort (sort l) = sort l.
Proof. apply sort_entries_fixed, sort_entries_sorted. Qed.

Lemma sort_insert_stable (k : string) (e : Form.entry) (l : list Form.entry) :
  filter (same_key cmp k) (ins e l) = filter (same_key cmp k) (e :: l).
Proof.
  induction l as [| h t IH]; [reflexivity |].
  cbn [sort_insert]. destruct (cmp (fst e) (fst h)) eqn:E; try reflexivity.
  cbn [filter] in *. rewrite IH.
  destruct (same_key cmp k e) eqn:Ke, (same_key cmp k h) eqn:Kh; try reflexivity.
  exfalso. unfold same_key in Ke, Kh.
  destruct (cmp (fst e) k) eqn:E1; try discriminate.
  destruct (cmp (fst h) k) eqn:E2; try discriminate.
  apply (cmp_trans (fst e) k (fst h)); [congruence | | assumption].
  rewrite cmp_antisym, E2. discriminate.
Qed.

(** Entries with the same key keep their order. *)
Lemma sort_entries_stable (k : string) (l : list Form.entry) :
  filter (same_key cmp k) (sort l) = filter (same_key cmp k) l.
Proof.
  induction l as [| e l IH]; [reflexivity |].
  cbn [sort_entries fold_right]. rewrite sort_insert_stable.
  cbn [filter]. fold (sort l). now rewrite IH.
Qed.

End SortFacts.

Lemma sort_insert_cons (cmp : string -> string -> comparison) (e : Form.entry)
  (l : list Form.entry) :
  sort_insert cmp e l <> [].
Proof.
  destruct l as [| h t]; simpl; [discriminate |].
  destruct (cmp (fst e) (fst h)); discriminate.
Qed.

Lemma sort_entries_nil (cmp : string -> string -> comparison) (l : list Form.entry) :
  sort_entries cmp l = [] -> l = [].
Proof.
  destruct l as [| e l]; [reflexivity |]. simpl. intros H.
  now apply sort_insert_cons in H.
Qed.

(** ** The URL parser and serialiser *)

Module UrlFacts.
Import StrFacts.

Lemma host_char_printable c : Url.host_char c = true -> Url.is_printable c = true.
Proof. by_char c. Qed.

Lemma host_char_no_colon c :
  Url.host_char c = true -> negb (Ascii.eqb c ":") = true.
Proof. by_char c. Qed.

Lemma host_char_no_delim c :
  Url.host_char c = true -> negb (Str.mem c "/\?#") = true.
Proof. by_char c. Qed.

Lemma host_char_not_upper c :
  Url.host_char c = true -> negb (Str.is_upper c) = true.
Proof. by_char c. Qed.

Lemma host_char_not_slash c : Url.host_char c = true -> Url.is_slash c = false.
Proof. by_char c. Qed.

Lemma digit_printable c : Str.is_digit c = true -> Url.is_printable c = true.
Proof. by_char c. Qed.

Lemma digit_no_colon c : Str.is_digit c = true -> negb (Ascii.eqb c ":") = true.
Proof. by_char c. Qed.

Lemma digit_no_delim c :
  Str.is_digit c = true -> negb (Str.mem c "/\?#") = true.
Proof. by_char c. Qed.

Lemma path_char_printable c : Url.path_char c = true -> Url.is_printable c = true.
Proof. by_char c. Qed.

Lemma path_char_no_delim c :
  Url.path_char c = true -> negb (Str.mem c "?#") = true.
Proof. by_char c. Qed.

Lemma query_char_printable c : Url.query_char c = true -> Url.is_printable c = true.
Proof. by_char c. Qed.

Lemma query_char_no_hash c :
  Url.query_char c = true -> negb (Ascii.eqb c "#") = true.
Proof. by_char c. Qed.

Lemma fragment_char_printable c :
  Url.fragment_char c = true -> Url.is_printable c = true.
Proof. by_char c. Qed.

(** *** Ports *)

Lemma string_of_uint_digits (d : Decimal.uint) :
  Str.all Str.is_digit (NilEmpty.string_of_uint d) = true.
Proof. induction d; simpl; auto. Qed.

Lemma string_of_N_nonempty (n : N) : Url.string_of_N n <> ""%string.
Proof.
  unfold Url.string_of_N. intros H.
  assert (E : N.to_uint n = Decimal.Nil) by (destruct (N.to_uint n); now try discriminate).
  pose proof (DecimalN.Unsigned.of_to n) as Hn. rewrite E in Hn.
  subst n. discriminate.
Qed.

Lemma decimal_string_of_N (n : N) : Url.decimal (Url.string_of_N n) = Some n.
Proof.
  unfold Url.decimal, Url.string_of_N.
  rewrite string_of_uint_digits, NilEmpty.usu. simpl.
  now rewrite DecimalN.Unsigned.of_to.
Qed.

Lemma parse_port_ok (ds : string) (dflt : N) (port : option N) :
  Url.parse_port ds dflt = Some port ->
  match port with
  | Some p => (p <=? 65535)%N && negb (p =? dflt)%N = true
  | None => True
  end.
Proof.
  unfold Url.parse_port. destruct (ds =? "")%string.
  - now intros [= <-].
  - destruct (Url.decimal ds) as [n |]; [| discriminate].
    destruct (n <=? 65535)%N eqn:E1; [| discriminate].
    destruct (n =? dflt)%N eqn:E2; intros [= <-]; [exact I |].
    now rewrite E1, E2.
Qed.

Lemma parse_port_string_of_N (p dflt : N) :
  (p <=? 65535)%N && negb (p =? dflt)%N = true ->
  Url.parse_port (Url.string_of_N p) dflt = Some (Some p).
Proof.
  intros H. apply andb_prop in H as [H1 H2]. apply negb_true_iff in H2.
  unfold Url.parse_port.
  destruct (String.eqb_spec (Url.string_of_N p) "") as [E | _].
  - now apply string_of_N_nonempty in E.
  - now rewrite decimal_string_of_N, H1, H2.
Qed.

(** *** Schemes *)

Lemma special_scheme (s : string) (dflt : N) :
  Url.default_port s = Some dflt ->
  Str.all Url.is_printable s = true
  /\ Str.all (fun c => negb (Ascii.eqb c ":")) s = true
  /\ Str.toLowerCase s = s.
Proof.
  unfold Url.default_port.
  destruct (String.eqb_spec s "http") as [-> | _]; [now vm_compute |].
  destruct (String.eqb_spec s "https") as [-> | _]; [now vm_compute |].
  destruct (String.eqb_spec s "ws") as [-> | _]; [now vm_compute |].
  destruct (String.eqb_spec s "wss") as [-> | _]; [now vm_compute |].
  destruct (String.eqb_spec s "ftp") as [-> | _]; [now vm_compute |].
  discriminate.
Qed.

(** *** The parser produces well-formed records *)

Lemma URL_parse_wellformed (raw : string) (u : Url.URL) :
  Url.URL_parse raw = Some u -> wellformed u = true.
Proof.
  unfold Url.URL_parse. intros E.
  destruct (negb (Str.all Url.is_printable raw)); [discriminate |].
  destruct (Str.span _ raw) as [sch r1]. destruct r1 as [| c0 r2]; [discriminate |].
  destruct (Url.default_port (Str.toLowerCase sch)) as [dflt |] eqn:Ed;
    [| discriminate].
  destruct (Str.span _ (Str.drop_while Url.is_slash r2)) as [auth r4].
  destruct (Str.span _ auth) as [h r5].
  destruct (Url.parse_port (Url.tail r5) dflt) as [port |] eqn:Ep; [| discriminate].
  destruct (Str.span _ r4) as [p r6].
  match type of E with
  | context [let (_, _) := ?X in _] => destruct X as [query r8]
  end.
  match type of E with
  | (if ?c then _ else _) = _ => destruct c eqn:Ec; [| discriminate]
  end.
  injection E as <-. unfold wellformed, port_ok. simpl. rewrite Ed.
  apply parse_port_ok in Ep.
  apply andb_prop in Ec as [Ec Hf]. apply andb_prop in Ec as [Ec Hq].
  apply andb_prop in Ec as [Hh Hp].
  rewrite Hh, Hp, Hq, Hf. destruct port as [n |]; [now rewrite Ep | reflexivity].
Qed.

(** *** Serialising and parsing again *)

Lemma host_ok_facts (h : string) :
  Url.host_ok h = true ->
  Str.all Url.host_char h = true /\ exists c h', h = String c h'.
Proof.
  unfold Url.host_ok. intros H.
  apply andb_prop in H as [H _]. apply andb_prop in H as [H _].
  apply andb_prop in H as [Hne Hall]. split; [assumption |].
  destruct h as [| c h']; [discriminate | eauto].
Qed.

Lemma path_ok_facts (p : string) :
  Url.path_ok p = true ->
  Str.all Url.path_char p = true /\ exists p', p = String "/" p'.
Proof.
  unfold Url.path_ok. intros H.
  apply andb_prop in H as [H _]. apply andb_prop in H as [Hs Hall].
  split; [assumption |].
  destruct p as [| c p']; [discriminate |].
  unfold Str.startsWith in Hs. cbn [String.prefix] in Hs.
  destruct (ascii_dec "/" c) as [<- | _]; [eauto | discriminate].
Qed.

Theorem URL_parse_toString (u : Url.URL) :
  wellformed u = true -> Url.URL_parse (Url.toString u) = Some u.
Proof.
  destruct u as [s h port p q f]. unfold wellformed. simpl. intros H.
  apply andb_prop in H as [H Hf]. apply andb_prop in H as [H Hq].
  apply andb_prop in H as [H Hp]. apply andb_prop in H as [Hport Hh].
  unfold port_ok in Hport.
  destruct (Url.default_port s) as [dflt |] eqn:Ed; [| discriminate].
  destruct (special_scheme s dflt Ed) as (Hs1 & Hs2 & Hs3).
  destruct (host_ok_facts h Hh) as (Hhc & c0 & h' & Eh).
  destruct (path_ok_facts p Hp) as (Hpc & p' & Ep).
  set (portstr := match port with
                  | Some n => (":" ++ Url.string_of_N n)%string
                  | None => ""%string
                  end).
  set (qs := match q with Some q0 => ("?" ++ q0)%string | None => ""%string end).
  set (fs := match f with Some f0 => ("#" ++ f0)%string | None => ""%string end).
  assert (Ehost : Url.host (Url.mkURL s h port p q f) = (h ++ portstr)%string).
  { unfold Url.host, portstr. simpl. destruct port; [reflexivity |].
    now rewrite append_nil_r. }
  unfold Url.toString. cbn [Url.url_scheme Url.url_path Url.url_query Url.url_fragment].
  rewrite Ehost. fold qs fs.
  assert (Hps : Str.all Url.is_printable portstr = true
                /\ Str.all (fun c => negb (Str.mem c "/\?#")) portstr = true
                /\ Str.stops (fun c => negb (Ascii.eqb c ":")) portstr
                /\ Url.parse_port (Url.tail portstr) dflt = Some port).
  { unfold portstr. destruct port as [n |]; [| now vm_compute].
    unfold Url.string_of_N. cbn [String.append Str.all Url.tail Str.stops].
    rewrite (all_impl _ _ _ digit_printable (string_of_uint_digits _)).
    rewrite (all_impl _ _ _ digit_no_delim (string_of_uint_digits _)).
    repeat split. now apply parse_port_string_of_N. }
  destruct Hps as (Hps1 & Hps2 & Hps3 & Hps4).
  assert (Hqc : match q with
                | Some q0 => Str.all Url.query_char q0 = true
                | None => True
                end).
  { destruct q as [q0 |]; [| exact I]. cbn [Url.opt_test] in Hq.
    unfold Url.query_ok in Hq. now apply andb_prop in Hq as [Hq1 _]. }
  assert (Hqs : Str.all Url.is_printable qs = true).
  { unfold qs. destruct q as [q0 |]; [| reflexivity]. cbn [String.append Str.all].
    now rewrite (all_impl _ _ _ query_char_printable Hqc). }
  assert (Hfs : Str.all Url.is_printable fs = true).
  { unfold fs. destruct f as [f0 |]; [| reflexivity]. cbn [String.append Str.all].
    cbn [Url.opt_test] in Hf. unfold Url.fragment_ok in Hf.
    now rewrite (all_impl _ _ _ fragment_char_printable Hf). }
  unfold Url.URL_parse.
  (* every character is printable *)
  replace (Str.all Url.is_printable (s ++ "://" ++ (h ++ portstr) ++ p ++ qs ++ fs))
    with true.
  2:{ symmetry. rewrite !all_app, Hs1, Hps1, Hqs, Hfs.
      rewrite (all_impl _ _ _ host_char_printable Hhc).
      rewrite (all_impl _ _ _ path_char_printable Hpc). reflexivity. }
  cbn [negb].
  (* the scheme *)
  rewrite (span_app _ s _ Hs2) by reflexivity.
  cbn [String.append]. rewrite Hs3, Ed.
  (* the slashes and the authority *)
  replace (Str.drop_while Url.is_slash
             (String "/" (String "/" ((h ++ portstr) ++ p ++ qs ++ fs))))
    with ((h ++ portstr) ++ p ++ qs ++ fs)%string.
  2:{ symmetry. change (Str.drop_while Url.is_slash
                          (String "/" (String "/" ((h ++ portstr) ++ p ++ qs ++ fs))))
        with (Str.drop_while Url.is_slash ((h ++ portstr) ++ p ++ qs ++ fs)).
      apply drop_while_stops. rewrite Eh in *. simpl.
      simpl in Hhc. apply andb_prop in Hhc as [Hc0 _].
      now apply host_char_not_slash. }
  rewrite (span_app _ (h ++ portstr) (p ++ qs ++ fs)).
  2:{ rewrite all_app, Hps2, (all_impl _ _ _ host_char_no_delim Hhc). reflexivity. }
  2:{ rewrite Ep. reflexivity. }
  rewrite (span_app _ h portstr (all_impl _ _ _ host_char_no_colon Hhc) Hps3).
  rewrite (toLowerCase_id h (all_impl _ _ _ host_char_not_upper Hhc)).
  rewrite Hps4.
  (* the path *)
  rewrite (span_app _ p (qs ++ fs) (all_impl _ _ _ path_char_no_delim Hpc)).
  2:{ unfold qs, fs. destruct q; [reflexivity |]. destruct f; reflexivity. }
  replace (p =? "")%string with false by (now rewrite Ep).
  (* the query and the fragment *)
  assert (Eqf :
    match (qs ++ fs)%string with
    | String "?" r7 =>
        let (q0, r) := Str.span (fun c => negb (Ascii.eqb c "#")) r7 in (Some q0, r)
    | _ => (None, (qs ++ fs)%string)
    end = (q, fs)).
  { unfold qs. destruct q as [q0 |].
    - cbn [String.append].
      rewrite (span_app _ q0 fs (all_impl _ _ _ query_char_no_hash Hqc));
        [reflexivity |].
      unfold fs. destruct f; reflexivity.
    - cbn [String.append]. unfold fs. destruct f; reflexivity. }
  rewrite Eqf.
  replace (match fs with String "#" f0 => Some f0 | _ => None end) with f.
  2:{ unfold fs. destruct f; reflexivity. }
  now rewrite Hh, Hp, Hq, Hf.
Qed.

End UrlFacts.

(** ** [normalizeUrl] *)

Module NormFacts.
Import StrFacts FormFacts UrlFacts.

Lemma snoc_neq (s : string) (c : ascii) : (s ++ String c "")%string <> s.
Proof. induction s as [| x s IH]; simpl; [discriminate | congruence]. Qed.

Lemma endsWith_two (p : string) :
  Str.endsWith p "//" = true -> Str.endsWith p "/" = true.
Proof.
  induction p as [| x p IH]; [discriminate |].
  cbn [Str.endsWith]. intros H. apply orb_prop in H as [H | H].
  - apply String.eqb_eq in H. injection H as -> ->. reflexivity.
  - rewrite (IH H). apply orb_true_r.
Qed.

(** Removing one trailing slash is idempotent exactly on the paths that
    do not end in two slashes, and on ["//"]. *)
Lemma strip_slash_idem (p : string) :
  strip_slash (strip_slash p) = strip_slash p
  <-> (p = "//"%string \/ Str.endsWith p "//" = false).
Proof.
  unfold strip_slash at 2 3.
  destruct (String.eqb_spec p "/") as [-> | Np]; [now vm_compute; auto |].
  destruct (Str.endsWith p "/") eqn:Es; cbn [negb andb].
  - pose proof (endsWith_chop p "/" Es) as Ep.
    set (c := Str.chop p) in *.
    assert (E2 : Str.endsWith p "//" = Str.endsWith c "/").
    { rewrite Ep. change "//"%string with ("/" ++ String "/" "")%string.
      apply endsWith_snoc. }
    rewrite E2. unfold strip_slash.
    destruct (String.eqb_spec c "/") as [Ec | Nc]; cbn [negb andb].
    + split; [| reflexivity]. intros _. left. now rewrite Ep, Ec.
    + destruct (Str.endsWith c "/") eqn:Ec.
      * split.
        -- intros H. exfalso. pose proof (endsWith_chop c "/" Ec) as E.
           rewrite H in E. symmetry in E. now apply snoc_neq in E.
        -- intros [H | H]; [| discriminate].
           exfalso. apply Nc. rewrite H in Ep.
           destruct c as [| x [| y c]]; simpl in Ep; try discriminate.
           ++ now injection Ep as ->.
           ++ injection Ep as _ _ Ep. destruct c; discriminate.
      * split; auto.
  - split.
    + intros _. right.
      destruct (Str.endsWith p "//") eqn:E; [| reflexivity].
      apply endsWith_two in E. congruence.
    + intros _. unfold strip_slash. now rewrite Es, andb_false_r.
Qed.

Lemma path_ok_strip_slash (p : string) :
  Url.path_ok p = true -> Url.path_ok (strip_slash p) = true.
Proof.
  intros Hp. unfold strip_slash.
  destruct (String.eqb_spec p "/") as [-> | Np]; [assumption |].
  destruct (Str.endsWith p "/") eqn:Es; cbn [negb andb]; [| assumption].
  pose proof (endsWith_chop p "/" Es) as Ep.
  set (c := Str.chop p) in *. rewrite Ep in Hp.
  unfold Url.path_ok in *.
  rewrite all_app, split_on_snoc_sep, forallb_app in Hp.
  apply andb_prop in Hp as [Hp Hseg]. apply andb_prop in Hp as [Hs Hall].
  apply andb_prop in Hall as [Hall _]. apply andb_prop in Hseg as [Hseg _].
  rewrite Hall, Hseg, !andb_true_r.
  destruct c as [| x c]; [now rewrite Ep in Np |].
  unfold Str.startsWith in *. cbn [String.append String.prefix] in *.
  destruct (ascii_dec "/" x); [| discriminate]. now destruct c.
Qed.

Lemma prefix_nil (s : string) : String.prefix "" s = true.
Proof. now destruct s. Qed.

Lemma set_search_query (u : Url.URL) (q : string) :
  Url.set_search u ("?" ++ q)
  = Url.mkURL (Url.url_scheme u) (Url.url_host u) (Url.url_port u)
      (Url.url_path u) (Some q) (Url.url_fragment u).
Proof.
  unfold Url.set_search, Str.startsWith. cbn [String.append String.eqb String.prefix].
  destruct (ascii_dec "?" "?") as [_ | N]; [| congruence].
  now rewrite prefix_nil.
Qed.

Lemma set_pathname_absolute (u : Url.URL) (p : string) :
  Url.set_pathname u (String "/" p)
  = Url.mkURL (Url.url_scheme u) (Url.url_host u) (Url.url_port u)
      (String "/" p) (Url.url_query u) (Url.url_fragment u).
Proof.
  unfold Url.set_pathname, Str.startsWith. cbn [String.prefix].
  destruct (ascii_dec "/" "/") as [_ | N]; [| congruence].
  now rewrite prefix_nil.
Qed.

Section Normalized.

Variable cmp : string -> string -> comparison.

Local Abbreviation norm := (normalized cmp).

Lemma normalized_wellformed (u : Url.URL) :
  wellformed u = true -> wellformed (norm u) = true.
Proof.
  unfold wellformed. intros H.
  apply andb_prop in H as [H _]. apply andb_prop in H as [H Hq].
  apply andb_prop in H as [H Hp].
  assert (Hes : Forall entry_ascii (sort_entries cmp (searchParams u))).
  { assert (Hs : Forall entry_ascii (searchParams u)).
    { unfold searchParams. destruct (Url.url_query u) as [q |]; [| constructor].
      now apply parse_ascii. }
    rewrite Forall_forall in *. intros e He. apply Hs.
    eapply Permutation_in; [apply sort_entries_perm | exact He]. }
  unfold normalized.
  cbn [Url.url_scheme Url.url_host Url.url_port Url.url_path Url.url_query
       Url.url_fragment].
  rewrite H, (path_ok_strip_slash _ Hp). cbn [andb Url.opt_test].
  destruct (sort_entries cmp (searchParams u)) as [| e es]; [reflexivity |].
  cbn [Url.opt_test]. now rewrite serialize_query_ok.
Qed.

(** [normalizeUrl] parses, rebuilds the record and serialises it. *)
Lemma normalizeUrl_normalized (raw : string) :
  normalizeUrl cmp raw
  = option_map (fun u => Url.toString (norm u)) (Url.URL_parse raw).
Proof.
  unfold normalizeUrl. destruct (Url.URL_parse raw) as [u |] eqn:E; [| reflexivity].
  apply URL_parse_wellformed in E. cbn [option_map]. f_equal. f_equal.
  assert (Hp : Url.path_ok (strip_slash (Url.url_path u)) = true).
  { apply path_ok_strip_slash. unfold wellformed in E.
    apply andb_prop in E as [E _]. apply andb_prop in E as [E _].
    now apply andb_prop in E as [_ E]. }
  unfold normalized, Url.set_hash, Url.pathname. cbn [String.eqb Url.url_path].
  unfold strip_slash in *.
  destruct (negb (Url.url_path u =? "/")%string && Str.endsWith (Url.url_path u) "/")
    eqn:Ec.
  - destruct (path_ok_facts _ Hp) as (_ & p' & ->).
    rewrite set_pathname_absolute. unfold searchParams.
    cbn [Url.url_scheme Url.url_host Url.url_port Url.url_path Url.url_query
         Url.url_fragment].
    fold (searchParams u).
    destruct (sort_entries cmp (searchParams u)) as [| e es] eqn:Es;
      [reflexivity | now rewrite set_search_query].
  - unfold searchParams.
    cbn [Url.url_scheme Url.url_host Url.url_port Url.url_path Url.url_query
         Url.url_fragment].
    fold (searchParams u).
    destruct (sort_entries cmp (searchParams u)) as [| e es] eqn:Es;
      [reflexivity | now rewrite set_search_query].
Qed.

(** What [normalizeUrl] returns parses back to the record it serialised. *)
Lemma normalizeUrl_parses (raw out : string) :
  normalizeUrl cmp raw = Some out ->
  exists u,
    Url.URL_parse raw = Some u
    /\ out = Url.toString (norm u)
    /\ wellformed (norm u) = true
    /\ Url.URL_parse out = Some (norm u).
Proof.
  rewrite normalizeUrl_normalized.
  destruct (Url.URL_parse raw) as [u |] eqn:E; [| discriminate].
  intros [= <-]. exists u.
  pose proof (normalized_wellformed u (URL_parse_wellformed raw u E)) as Hwf.
  repeat split; try assumption. now apply URL_parse_toString.
Qed.

Lemma searchParams_normalized (u : Url.URL) :
  searchParams (norm u) = sort_entries cmp (searchParams u).
Proof.
  unfold normalized, searchParams at 1. cbn [Url.url_query].
  destruct (sort_entries cmp (searchParams u)) as [| e es]; [reflexivity |].
  apply parse_serialize.
Qed.

Hypothesis cmp_antisym : forall a b, cmp b a = CompOpp (cmp a b).

(** Normalising a normalised record changes at most its path. *)
Lemma normalized_twice (u : Url.URL) :
  norm (norm u)
  = Url.mkURL (Url.url_scheme (norm u)) (Url.url_host (norm u))
      (Url.url_port (norm u)) (strip_slash (Url.url_path (norm u)))
      (Url.url_query (norm u)) (Url.url_fragment (norm u)).
Proof.
  unfold normalized at 1. rewrite searchParams_normalized.
  rewrite (sort_entries_idem cmp cmp_antisym).
  unfold normalized.
  cbn [Url.url_scheme Url.url_host Url.url_port Url.url_path Url.url_query
       Url.url_fragment].
  reflexivity.
Qed.

End Normalized.

End NormFacts.

(** ** The normaliser: idempotence and what it computes *)

Lemma toString_inj (u1 u2 : Url.URL) :
  wellformed u1 = true -> wellformed u2 = true ->
  Url.toString u1 = Url.toString u2 -> u1 = u2.
Proof.
  intros H1 H2 E. apply UrlFacts.URL_parse_toString in H1, H2.
  rewrite E in H1. congruence.
Qed.

Lemma strip_slash_fixed (p : string) :
  strip_slash p = p <-> (p = "/"%string \/ Str.endsWith p "/" = false).
Proof.
  unfold strip_slash.
  destruct (String.eqb_spec p "/") as [-> | Np]; cbn [negb andb]; [tauto |].
  destruct (Str.endsWith p "/") eqn:E; [| tauto].
  split; [| intros [H | H]; congruence].
  intros H. exfalso. apply StrFacts.endsWith_chop in E. rewrite H in E.
  symmetry in E. now apply NormFacts.snoc_neq in E.
Qed.

(** ** Strings the constructor rejects *)

Lemma default_port_letters (s : string) (dflt : N) :
  Url.default_port s = Some dflt ->
  s <> ""%string /\ Str.all Str.is_lower s = true.
Proof.
  unfold Url.default_port.
  repeat match goal with
         | |- context [(s =? ?l)%string] =>
             destruct (String.eqb_spec s l) as [-> | _];
             [intros _; split; [discriminate | reflexivity] |]
         end.
  discriminate.
Qed.

Lemma lower_ascii_alpha (c : ascii) :
  Str.is_lower (Str.lower_ascii c) = true -> is_alpha c = true.
Proof. StrFacts.by_char c. Qed.

Lemma toLowerCase_alpha (s : string) :
  Str.all Str.is_lower (Str.toLowerCase s) = true -> Str.all is_alpha s = true.
Proof.
  induction s as [| c s IH]; [reflexivity |]. cbn [Str.toLowerCase Str.map Str.all].
  intros H. apply andb_prop in H as [Hc Hs].
  rewrite (lower_ascii_alpha c Hc). exact (IH Hs).
Qed.

Lemma alpha_scheme_char (c : ascii) : is_alpha c = true -> scheme_char c = true.
Proof. unfold scheme_char. now intros ->. Qed.

Lemma drop_while_all (p : ascii -> bool) (a b : string) :
  Str.all p a = true -> Str.stops p b -> Str.drop_while p (a ++ b) = b.
Proof.
  intros Ha Hb. induction a as [| c a IH]; cbn [String.append].
  - now apply StrFacts.drop_while_stops.
  - cbn [Str.all] in Ha. apply andb_prop in Ha as [Hc Ha].
    cbn [Str.drop_while]. rewrite Hc. now apply IH.
Qed.

(** A string whose text up to the first colon is a special scheme starts
    with a scheme. *)
Lemma special_has_scheme (sch r2 : string) (dflt : N) :
  Url.default_port (Str.toLowerCase sch) = Some dflt ->
  has_scheme (sch ++ String ":" r2) = true.
Proof.
  intros Hd. destruct (default_port_letters _ _ Hd) as [Hne Hl].
  apply toLowerCase_alpha in Hl.
  destruct sch as [| c s]; [now elim Hne |].
  cbn [Str.all] in Hl. apply andb_prop in Hl as [Hc Hs].
  cbn [String.append has_scheme]. rewrite Hc. cbn [andb].
  rewrite drop_while_all; [reflexivity | | reflexivity].
  revert Hs. apply StrFacts.all_impl. exact alpha_scheme_char.
Qed.

(** The model of the constructor answers [None] on them. *)
Lemma URL_rejects_sound (raw : string) :
  URL_rejects raw = true -> Url.URL_parse raw = None.
Proof.
  unfold URL_rejects. intros H. apply andb_prop in H as [Hp H].
  unfold Url.URL_parse. rewrite Hp. cbn [negb].
  destruct (Str.span (fun c => negb (Ascii.eqb c ":")) raw) as [sch r1] eqn:Es.
  destruct r1 as [| c r2]; [reflexivity |].
  destruct (Url.default_port (Str.toLowerCase sch)) as [dflt |] eqn:Ed;
    [| reflexivity].
  apply orb_prop in H as [H | H].
  - exfalso. destruct (StrFacts.span_spec _ _ _ _ Es) as (-> & _ & Hc).
    cbn [Str.stops] in Hc. apply negb_false_iff, Ascii.eqb_eq in Hc. subst c.
    rewrite (special_has_scheme sch r2 dflt Ed) in H. discriminate.
  - unfold bad_authority, authority in H. rewrite Es, Ed in H.
    destruct (Str.span (fun c => negb (Str.mem c "/\?#"))
                (Str.drop_while Url.is_slash r2)) as [auth r4].
    cbn [fst] in H.
    destruct (Str.span (fun c => negb (Ascii.eqb c ":")) auth) as [h r5].
    apply andb_prop in H as [_ H].
    destruct (Url.parse_port (Url.tail r5) dflt) as [port |]; [| reflexivity].
    rewrite orb_false_r in H. apply String.eqb_eq in H. subst h.
    destruct (Str.span (fun c => negb (Str.mem c "?#")) r4) as [p r6].
    destruct (match r6 with
              | String "?" r7 =>
                  let (q, r) := Str.span (fun c => negb (Ascii.eqb c "#")) r7 in
                  (Some q, r)
              | _ => (None, r6)
              end) as [query r8].
    reflexivity.
Qed.

Example URL_rejects_examples :
  URL_rejects "a.com/docs" = true /\ URL_rejects "" = true
  /\ URL_rejects "/docs?x=1" = true /\ URL_rejects "http://" = true
  /\ URL_rejects "https://a.com:99999/" = true
  /\ URL_rejects "http://a.com:8o/" = true
  /\ URL_rejects "http://a.com/x" = false
  /\ URL_rejects "mailto:x@y.z" = false
  /\ URL_rejects "http://user:pw@a.com/" = false
  /\ URL_rejects "http://a.com/a b" = false.
Proof. repeat split. Qed.

(** ** Queries written without escapes *)

Lemma encode_byte_safe (c : ascii) :
  Form.is_safe c = true -> Form.encode_byte c = String c "".
Proof. StrFacts.by_char c. Qed.

Lemma encode_safe (s : string) :
  Str.all Form.is_safe s = true -> Form.encode s = s.
Proof.
  induction s as [| c s IH]; [reflexivity |]. cbn [Str.all Form.encode].
  intros H. apply andb_prop in H as [Hc Hs].
  now rewrite (encode_byte_safe c Hc), (IH Hs).
Qed.

Lemma serialize_plain (es : list Form.entry) :
  Forall plain_entry es -> Form.serialize es = query_text es.
Proof.
  intros H. unfold Form.serialize, query_text. f_equal.
  induction H as [| e es [Hk Hv] _ IH]; [reflexivity |]. cbn [List.map].
  rewrite IH. unfold Form.serialize_pair.
  now rewrite (encode_safe _ Hk), (encode_safe _ Hv).
Qed.

Lemma safe_ascii7 (c : ascii) : Form.is_safe c = true -> ascii7 c = true.
Proof. StrFacts.by_char c. Qed.

Lemma plain_entry_ascii (e : Form.entry) : plain_entry e -> entry_ascii e.
Proof.
  intros [Hk Hv]. split;
    [revert Hk | revert Hv]; apply StrFacts.all_impl; exact safe_ascii7.
Qed.

(** The entries of a URL are the pairs its query text decodes to. *)
Lemma searchParams_search (u : Url.URL) :
  searchParams u = Form.parse (Url.tail (Url.search u)).
Proof.
  unfold searchParams, Url.search. destruct (Url.url_query u) as [q |];
    [| reflexivity].
  destruct (String.eqb_spec q "") as [-> | _]; reflexivity.
Qed.

(** ** No fragment in what the serialiser prints *)

Lemma no_char_includes (d : ascii) (s : string) :
  Str.all (fun c => negb (Ascii.eqb c d)) s = true ->
  Str.includes s (String d "") = false.
Proof.
  induction s as [| c s IH]; [reflexivity |]. cbn [Str.all Str.includes].
  intros H. apply andb_prop in H as [Hc Hs]. rewrite (IH Hs), orb_false_r.
  cbn [String.prefix]. destruct (ascii_dec d c) as [<- | _]; [| reflexivity].
  now rewrite Ascii.eqb_refl in Hc.
Qed.

Lemma lower_no_hash (c : ascii) :
  Str.is_lower c = true -> negb (Ascii.eqb c "#") = true.
Proof. StrFacts.by_char c. Qed.

Lemma host_char_no_hash (c : ascii) :
  Url.host_char c = true -> negb (Ascii.eqb c "#") = true.
Proof. StrFacts.by_char c. Qed.

Lemma digit_no_hash (c : ascii) :
  Str.is_digit c = true -> negb (Ascii.eqb c "#") = true.
Proof. StrFacts.by_char c. Qed.

Lemma path_char_no_hash (c : ascii) :
  Url.path_char c = true -> negb (Ascii.eqb c "#") = true.
Proof. StrFacts.by_char c. Qed.

Lemma toString_no_hash (u : Url.URL) :
  wellformed u = true -> Url.url_fragment u = None ->
  Str.includes (Url.toString u) "#" = false.
Proof.
  unfold wellformed, port_ok. intros H Hf.
  apply andb_prop in H as [H _]. apply andb_prop in H as [H Hq].
  apply andb_prop in H as [H Hp]. apply andb_prop in H as [Hs Hh].
  destruct (Url.default_port (Url.url_scheme u)) as [dflt |] eqn:Ed;
    [| discriminate].
  destruct (default_port_letters _ _ Ed) as [_ Hl].
  destruct (UrlFacts.host_ok_facts _ Hh) as [Hhc _].
  destruct (UrlFacts.path_ok_facts _ Hp) as [Hpc _].
  apply no_char_includes. unfold Url.toString, Url.host. rewrite Hf.
  rewrite !StrFacts.all_app.
  rewrite (StrFacts.all_impl _ _ _ lower_no_hash Hl).
  rewrite (StrFacts.all_impl _ _ _ path_char_no_hash Hpc).
  cbn [andb].
  assert (Hhost : Str.all (fun c => negb (Ascii.eqb c "#"))
                    match Url.url_port u with
                    | Some p => (Url.url_host u ++ ":" ++ Url.string_of_N p)%string
                    | None => Url.url_host u
                    end = true).
  { destruct (Url.url_port u) as [p |];
      [| exact (StrFacts.all_impl _ _ _ host_char_no_hash Hhc)].
    rewrite !StrFacts.all_app, (StrFacts.all_impl _ _ _ host_char_no_hash Hhc).
    unfold Url.string_of_N.
    now rewrite (StrFacts.all_impl _ _ _ digit_no_hash
                   (UrlFacts.string_of_uint_digits _)). }
  rewrite Hhost. cbn [andb].
  destruct (Url.url_query u) as [q |]; [| reflexivity].
  unfold Url.opt_test, Url.query_ok in Hq. apply andb_prop in Hq as [Hq _].
  rewrite StrFacts.all_app, (StrFacts.all_impl _ _ _ UrlFacts.query_char_no_hash Hq).
  reflexivity.
Qed.

Section NormalizerProps.

Variable localeCompare : string -> string -> comparison.
Hypothesis localeCompare_antisym :
  forall a b, localeCompare b a = CompOpp (localeCompare a b).
Hypothesis localeCompare_trans :
  forall a b c,
    localeCompare a b <> Gt -> localeCompare b c <> Gt -> localeCompare a c <> Gt.

Local Abbreviation norm := (normalized localeCompare).

(** Normalising what [normalizeUrl] returned: the result, and when it is
    the same string. *)
Lemma normalizeUrl_again (raw out : string) (u : Url.URL) :
  Url.URL_parse raw = Some u ->
  normalizeUrl localeCompare raw = Some out ->
  Url.URL_parse out = Some (norm u)
  /\ (normalizeUrl localeCompare out = Some out
      <-> strip_slash (Url.url_path (norm u)) = Url.url_path (norm u)).
Proof.
  intros Hp Hn.
  destruct (NormFacts.normalizeUrl_parses localeCompare raw out Hn)
    as (u' & Hp' & -> & Hwf & Hparse).
  rewrite Hp in Hp'. injection Hp' as <-. split; [exact Hparse |].
  rewrite NormFacts.normalizeUrl_normalized, Hparse. cbn [option_map].
  pose proof (NormFacts.normalized_wellformed localeCompare _ Hwf) as Hwf2.
  rewrite (NormFacts.normalized_twice localeCompare localeCompare_antisym u) in *.
  split.
  - intros [= H]. apply toString_inj in H; [| assumption | assumption].
    now apply (f_equal Url.url_path) in H.
  - intros H. rewrite H. now destruct (norm u).
Qed.


(** What [normalizeUrl] prints, from the record it parsed. *)
Lemma toString_normalized (u : Url.URL) :
  Url.toString (norm u)
  = (Url.protocol u ++ "//" ++ Url.host u ++ Url.pathname (norm u)
     ++ search_text (searchParams (norm u)))%string.
Proof.
  rewrite NormFacts.searchParams_normalized.
  unfold Url.toString, Url.protocol, Url.host, Url.pathname, normalized, search_text.
  cbn [Url.url_scheme Url.url_host Url.url_port Url.url_path Url.url_query
       Url.url_fragment].
  rewrite !StrFacts.append_assoc. cbn [String.append].
  rewrite StrFacts.append_nil_r.
  destruct (sort_entries localeCompare (searchParams u)); reflexivity.
Qed.

(** The normaliser on a query written without escapes. *)
Lemma normalizeUrl_plain_query (scheme host path : string) (port : option N)
  (es : list Form.entry) (frag : option string) :
  wellformed (Url.mkURL scheme host port path None None) = true ->
  Forall plain_entry es ->
  Url.opt_test Url.fragment_ok frag = true ->
  normalizeUrl localeCompare
    (Url.toString (Url.mkURL scheme host port path (Some (query_text es)) frag))
  = Some (Url.toString
            (Url.mkURL scheme host port (strip_slash path)
               match sort_entries localeCompare es with
               | [] => None
               | e :: r => Some (query_text (e :: r))
               end
               None)).
Proof.
  intros Hw Hes Hf.
  assert (Hq : Url.query_ok (query_text es) = true).
  { rewrite <- (serialize_plain es Hes). apply FormFacts.serialize_query_ok.
    revert Hes. apply Forall_impl. exact plain_entry_ascii. }
  assert (Hw' : wellformed (Url.mkURL scheme host port path (Some (query_text es)) frag)
                = true).
  { unfold wellformed in *.
    cbn [Url.url_scheme Url.url_host Url.url_port Url.url_path Url.url_query
         Url.url_fragment Url.opt_test] in *.
    rewrite !andb_true_r in Hw. now rewrite Hw, Hq, Hf. }
  rewrite NormFacts.normalizeUrl_normalized, (UrlFacts.URL_parse_toString _ Hw').
  cbn [option_map]. do 2 f_equal. unfold normalized, searchParams.
  cbn [Url.url_scheme Url.url_host Url.url_port Url.url_path Url.url_query].
  rewrite <- (serialize_plain es Hes), FormFacts.parse_serialize.
  f_equal.
  assert (Hs : Forall plain_entry (sort_entries localeCompare es)).
  { rewrite Forall_forall in *. intros e He. apply Hes.
    now apply (Permutation_in _ (sort_entries_perm localeCompare es)). }
  destruct (sort_entries localeCompare es) as [| e r]; [reflexivity |].
  now rewrite (serialize_plain _ Hs).
Qed.


End NormalizerProps.

(** ** Byte order is a collation *)

Lemma ascii_compare_trans (a b c : ascii) :
  Ascii.compare a b <> Gt -> Ascii.compare b c <> Gt -> Ascii.compare a c <> Gt.
Proof.
  unfold Ascii.compare. rewrite !N.compare_le_iff. apply N.le_trans.
Qed.

Lemma compare_bytes_antisym (a b : string) :
  compare_bytes b a = CompOpp (compare_bytes a b).
Proof. apply String.compare_antisym. Qed.

Lemma compare_bytes_trans (a b c : string) :
  compare_bytes a b <> Gt -> compare_bytes b c <> Gt -> compare_bytes a c <> Gt.
Proof.
  unfold compare_bytes. revert b c.
  induction a as [| x a IH]; intros [| y b] [| z c]; simpl; try congruence.
  destruct (Ascii.compare x y) eqn:Exy; try congruence.
  - apply Ascii.compare_eq_iff in Exy. subst y.
    destruct (Ascii.compare x z) eqn:Exz; try congruence. apply IH.
  - destruct (Ascii.compare y z) eqn:Eyz; try congruence.
    + apply Ascii.compare_eq_iff in Eyz. subst z. rewrite Exy. congruence.
    + intros _ _.
      assert (H : Ascii.compare x z <> Gt).
      { apply (ascii_compare_trans x y z); congruence. }
      destruct (Ascii.compare x z) eqn:Exz; try congruence.
      apply Ascii.compare_eq_iff in Exz. subst z.
      unfold Ascii.compare in *. rewrite N.compare_lt_iff in Exy, Eyz.
      exfalso. eapply N.lt_irrefl, N.lt_trans; eassumption.
Qed.

(** ** The root collation is a collation *)

Lemma compare_keys_antisym (a b : list N) :
  compare_keys b a = CompOpp (compare_keys a b).
Proof.
  revert b. induction a as [| x a IH]; intros [| y b]; simpl; try reflexivity.
  rewrite (N.compare_antisym x y).
  destruct (x ?= y)%N; simpl; [apply IH | reflexivity | reflexivity].
Qed.

Lemma compare_keys_trans (a b c : list N) :
  compare_keys a b <> Gt -> compare_keys b c <> Gt -> compare_keys a c <> Gt.
Proof.
  revert b c.
  induction a as [| x a IH]; intros [| y b] [| z c]; simpl; try congruence.
  destruct (x ?= y)%N eqn:Exy; try congruence.
  - apply N.compare_eq_iff in Exy. subst y.
    destruct (x ?= z)%N eqn:Exz; try congruence. apply IH.
  - destruct (y ?= z)%N eqn:Eyz; try congruence.
    + apply N.compare_eq_iff in Eyz. subst z. rewrite Exy. congruence.
    + intros _ _. rewrite N.compare_lt_iff in Exy, Eyz.
      assert (H : (x < z)%N) by (eapply N.lt_trans; eassumption).
      apply N.compare_lt_iff in H. rewrite H. congruence.
Qed.

Lemma collate_antisym (a b : string) : collate b a = CompOpp (collate a b).
Proof. apply compare_keys_antisym. Qed.

Lemma collate_trans (a b c : string) :
  collate a b <> Gt -> collate b c <> Gt -> collate a c <> Gt.
Proof. apply compare_keys_trans. Qed.

Example collate_letters_then_case :
  collate "a" "B" = Lt /\ collate "b" "B" = Lt /\ collate "a" "A" = Lt
  /\ collate "Aa" "ab" = Lt /\ collate "a1" "aa" = Lt /\ collate "a" "ab" = Lt
  /\ collate "aB" "Ab" = Lt /\ collate "10" "9" = Lt.
Proof. repeat split. Qed.

(** ** [isSameHost] *)

Lemma host_span (u : Url.URL) :
  wellformed u = true ->
  fst (Str.span (fun c => negb (Ascii.eqb c ":")) (Url.host u)) = Url.url_host u.
Proof.
  unfold wellformed, port_ok. intros H.
  apply andb_prop in H as [H _]. apply andb_prop in H as [H _].
  apply andb_prop in H as [H _]. apply andb_prop in H as [_ Hh].
  destruct (UrlFacts.host_ok_facts _ Hh) as (Hc & _).
  unfold Url.host. destruct (Url.url_port u) as [n |].
  - rewrite StrFacts.span_app; [reflexivity | | reflexivity].
    now apply (StrFacts.all_impl _ _ _ UrlFacts.host_char_no_colon).
  - rewrite <- (StrFacts.append_nil_r (Url.url_host u)) at 1.
    rewrite StrFacts.span_app; [reflexivity | | exact I].
    now apply (StrFacts.all_impl _ _ _ UrlFacts.host_char_no_colon).
Qed.

Lemma host_hostname (u1 u2 : Url.URL) :
  wellformed u1 = true -> wellformed u2 = true ->
  Url.host u1 = Url.host u2 -> Url.hostname u1 = Url.hostname u2.
Proof.
  intros H1 H2 E. unfold Url.hostname.
  rewrite <- (host_span u1 H1), <- (host_span u2 H2). now rewrite E.
Qed.

Lemma isSameHost_refl (a : string) (u : Url.URL) :
  Url.URL_parse a = Some u -> isSameHost a a = Some true.
Proof.
  intros E. unfold isSameHost. rewrite E.
  destruct (isLocal (Url.hostname u) && isLocal (Url.hostname u)); [reflexivity |].
  now rewrite !String.eqb_refl.
Qed.

Lemma isSameHost_trans (a b c : string) :
  isSameHost a b = Some true -> isSameHost b c = Some true ->
  isSameHost a c = Some true.
Proof.
  unfold isSameHost.
  destruct (Url.URL_parse a) as [ua |] eqn:Ea; [| discriminate].
  destruct (Url.URL_parse b) as [ub |] eqn:Eb; [| discriminate].
  destruct (Url.URL_parse c) as [uc |] eqn:Ec; [| discriminate].
  apply UrlFacts.URL_parse_wellformed in Ea, Eb, Ec.
  assert (Hab : Url.host ua = Url.host ub ->
                isLocal (Url.hostname ua) = isLocal (Url.hostname ub)).
  { intros E. now rewrite (host_hostname ua ub Ea Eb E). }
  assert (Hbc : Url.host ub = Url.host uc ->
                isLocal (Url.hostname ub) = isLocal (Url.hostname uc)).
  { intros E. now rewrite (host_hostname ub uc Eb Ec E). }
  destruct (isLocal (Url.hostname ua)) eqn:La,
           (isLocal (Url.hostname ub)) eqn:Lb,
           (isLocal (Url.hostname uc)) eqn:Lc; cbn [andb];
    intros H1 H2; try reflexivity;
    apply (f_equal (fun o => match o with Some x => x | None => false end)) in H1, H2;
    cbn beta iota in H1, H2;
    try (apply andb_prop in H1 as [H1 H1']; apply String.eqb_eq in H1);
    try (apply andb_prop in H2 as [H2 H2']; apply String.eqb_eq in H2);
    try (specialize (Hab H1); discriminate);
    try (specialize (Hbc H2); discriminate).
  f_equal. apply String.eqb_eq in H1', H2'.
  rewrite H1, H2, H1', H2', !String.eqb_refl. reflexivity.
Qed.

(** ** The crawler *)

Section CrawlerProps.

Variable localeCompare : string -> string -> comparison.
Variable URL_resolve : string -> string -> option string.
Variable robots_allows : string -> bool.
Variable opts : CrawlOptions.

Local Abbreviation enter := (crawlPage_enter robots_allows opts).
Local Abbreviation resume := (crawlPage_resume localeCompare URL_resolve).
Local Abbreviation cstep := (step localeCompare URL_resolve robots_allows opts).
Local Abbreviation crun := (run localeCompare URL_resolve robots_allows opts).
Local Abbreviation cands := (candidates localeCompare URL_resolve).

(** A property of states kept by every turn holds along every run. *)
Lemma run_invariant (P : Crawl -> Prop) :
  (forall st turn st', P st -> cstep st turn = Some st' -> P st') ->
  forall turns st st', P st -> crun st turns = Some st' -> P st'.
Proof.
  intros Hstep. induction turns as [| turn turns IH]; simpl; intros st st' HP E.
  - now injection E as <-.
  - destruct (cstep st turn) as [st1 |] eqn:E1; [| discriminate].
    eapply IH; [| eassumption]. eapply Hstep; eassumption.
Qed.

(** The three kinds of turn, seen through what they do to a property. *)
Lemma step_cases (P : Crawl -> Prop) (st st' : Crawl) (turn : Turn) :
  cstep st turn = Some st' ->
  (P (mkCrawl (visited st) (skipn (concurrency opts) (queue st))
        (firstn (concurrency opts) (queue st)) [] (fetched st) (rejected st))) ->
  (forall i t, nth_error (pending st) i = Some t ->
     P (enter t (mkCrawl (visited st) (queue st) (remove_nth i (pending st))
                   (loading st) (fetched st) (rejected st)))) ->
  (forall i t o, nth_error (loading st) i = Some t ->
     P (resume t o (mkCrawl (visited st) (queue st) (pending st)
                      (remove_nth i (loading st)) (fetched st) (rejected st)))) ->
  P st'.
Proof.
  intros E Hb He Hr. destruct turn as [| i | i o]; simpl in E.
  - destruct (batch_done st && negb (rejected st) && loop_test opts st);
      [| discriminate].
    now injection E as <-.
  - destruct (nth_error (pending st) i) as [t |] eqn:Et; [| discriminate].
    injection E as <-. now apply He.
  - destruct (nth_error (loading st) i) as [t |] eqn:Et; [| discriminate].
    injection E as <-. now apply Hr.
Qed.

Lemma crawlPage_enter_cases (t : Task) (st : Crawl) :
  EnterCase robots_allows opts t st (enter t st).
Proof.
  unfold crawlPage_enter.
  destruct (set_has (visited st) (url t)) eqn:Ev.
  { apply EnterSkip. auto. }
  destruct (isLikelyHtmlPage (url t)) eqn:Eh; simpl.
  2:{ apply EnterSkip. auto. }
  destruct (respectRobots opts && negb (robots_allows (url t))) eqn:Er.
  { apply EnterSkip. apply andb_prop in Er as [Er1 Er2].
    apply negb_true_iff in Er2. auto. }
  destruct (maxPages opts <=? length (visited st)) eqn:Em.
  { apply EnterSkip. apply Nat.leb_le in Em. auto. }
  apply Nat.leb_gt in Em.
  unfold set_add. rewrite Ev.
  destruct (maxDepth opts <=? depth t) eqn:Ed.
  - apply Nat.leb_le in Ed. now apply EnterMark.
  - apply Nat.leb_gt in Ed. now apply EnterFetch.
Qed.

Lemma push_unvisited_In (vis : list string) (d : nat) (cs : list string)
  (q : list Task) (t : Task) :
  In t (push_unvisited vis d cs q) ->
  In t q \/ (depth t = d + 1 /\ In (url t) cs /\ set_has vis (url t) = false).
Proof.
  revert q. induction cs as [| c cs IH]; simpl; intros q H.
  - now left.
  - apply IH in H. destruct H as [H | (Hd & Hc & Hv)].
    + destruct (set_has vis c) eqn:E; [now left |].
      apply in_app_or in H. destruct H as [H | [<- | []]]; [now left |].
      right. simpl. auto.
    + right. auto.
Qed.

(** What the rest of [crawlPage] does: the visited set and the fetch log
    stay, and every task it adds to the queue is one level deeper. *)
Lemma crawlPage_resume_spec (t : Task) (o : PageOutcome) (st : Crawl) :
  visited (resume t o st) = visited st
  /\ pending (resume t o st) = pending st
  /\ loading (resume t o st) = loading st
  /\ fetched (resume t o st) = fetched st
  /\ forall t', In t' (queue (resume t o st)) ->
        In t' (queue st)
        \/ (depth t' = depth t + 1
            /\ exists links cs, cands (url t) links = Some cs /\ In (url t') cs).
Proof.
  assert (Hl : forall links,
             visited (enqueue_links localeCompare URL_resolve t links st) = visited st
             /\ pending (enqueue_links localeCompare URL_resolve t links st) = pending st
             /\ loading (enqueue_links localeCompare URL_resolve t links st) = loading st
             /\ fetched (enqueue_links localeCompare URL_resolve t links st) = fetched st
             /\ forall t', In t' (queue (enqueue_links localeCompare URL_resolve t links st)) ->
                   In t' (queue st)
                   \/ (depth t' = depth t + 1
                       /\ exists links cs, cands (url t) links = Some cs
                                           /\ In (url t') cs)).
  { intros links. unfold enqueue_links.
    destruct (cands (url t) links) as [cs |] eqn:E; simpl; auto 6.
    repeat split; try reflexivity. intros t' H.
    apply push_unvisited_In in H. destruct H as [H | (Hd & Hc & _)]; [now left |].
    right. split; [assumption |]. exists links, cs. auto. }
  unfold crawlPage_resume. destruct (opens o); cbn [negb]; [| simpl; auto 6].
  destruct (hrefs o) as [links |]; destruct (closes o); simpl;
    try apply Hl; auto 6.
Qed.

Lemma crawl_inv_step (start : string) (st st' : Crawl) (turn : Turn) :
  crawl_inv opts start st -> cstep st turn = Some st' -> crawl_inv opts start st'.
Proof.
  intros [Hb Hs Ho Hf Hd] E.
  apply (step_cases (crawl_inv opts start) st st' turn E).
  - constructor; simpl; auto.
    intros t Ht. apply Hd. unfold holds_task in *. simpl in Ht.
    destruct Ht as [H | [H | [[] | H]]]; eauto using In_skipn, In_firstn.
  - intros i t Ht.
    assert (Hin : holds_task st t).
    { right. left. eapply nth_error_In. eassumption. }
    match goal with |- crawl_inv _ _ (crawlPage_enter _ _ _ ?s) => set (st0 := s) end.
    assert (Hsub : forall x, holds_task st0 x -> holds_task st x).
    { unfold holds_task, st0. simpl. intros x [H | [H | [H | H]]]; auto.
      right. left. eapply In_remove_nth. eassumption. }
    destruct (crawlPage_enter_cases t st0)
      as [_ | Hv Hh Hlt Hge | Hv Hh Hlt Hlt'].
    + constructor; simpl; auto.
    + apply set_has_not_In in Hv. simpl in Hv, Hlt.
      constructor; simpl; auto.
      * rewrite length_app. simpl. lia.
      * now apply NoDup_snoc.
      * intros x Hx. destruct (Hf x Hx). split; [| assumption].
        apply in_or_app. now left.
    + apply set_has_not_In in Hv. simpl in Hv, Hlt.
      constructor; simpl.
      * rewrite length_app. simpl. lia.
      * now apply NoDup_snoc.
      * rewrite map_app. simpl. apply NoDup_snoc; [assumption |].
        intros Hx. apply in_map_iff in Hx. destruct Hx as (x & Ex & Hx).
        apply Hv. rewrite <- Ex. now apply Hf.
      * intros x Hx. apply in_app_or in Hx. destruct Hx as [Hx | [<- | []]].
        -- destruct (Hf x Hx). split; [| assumption]. apply in_or_app. now left.
        -- split; [| assumption]. apply in_or_app. right. now left.
      * intros x Hx. apply Hd. unfold holds_task in Hx. simpl in Hx.
        destruct Hx as [H | [H | [H | H]]].
        -- apply Hsub. now left.
        -- apply Hsub. right. now left.
        -- apply in_app_or in H. destruct H as [H | [<- | []]]; [| assumption].
           apply Hsub. right. right. now left.
        -- apply in_app_or in H. destruct H as [H | [<- | []]]; [| assumption].
           right. right. now right.
  - intros i t o Ht.
    match goal with |- crawl_inv _ _ (crawlPage_resume _ _ _ _ ?s) => set (st0 := s) end.
    destruct (crawlPage_resume_spec t o st0) as (Ev & Ep & El & Ef & Hq).
    constructor; rewrite ?Ev, ?Ef; simpl; auto.
    intros x Hx Hx0. unfold holds_task in Hx. rewrite Ep, El, Ef in Hx. simpl in Hx.
    destruct Hx as [H | [H | [H | H]]].
    + apply Hq in H. destruct H as [H | (Hdep & _)]; [| lia].
      apply Hd; [now left | assumption].
    + apply Hd; [right; now left | assumption].
    + apply Hd; [| assumption]. right. right. left.
      eapply In_remove_nth. eassumption.
    + apply Hd; [| assumption]. right. right. now right.
Qed.

Lemma crawl_inv_state (turns : list Turn) (st : Crawl) :
  crawlSite_state localeCompare URL_resolve robots_allows opts turns = Some st ->
  exists start,
    normalizeUrl localeCompare (baseUrl opts) = Some start
    /\ crawl_inv opts start st.
Proof.
  unfold crawlSite_state, crawlSite_start.
  destruct (normalizeUrl localeCompare (baseUrl opts)) as [start |]; [| discriminate].
  destruct (concurrency opts =? 0); [discriminate |].
  intros E. exists start. split; [reflexivity |].
  eapply run_invariant; [| | exact E].
  - intros s turn s'. apply crawl_inv_step.
  - constructor; simpl.
    + lia.
    + constructor.
    + constructor.
    + intros t [].
    + unfold holds_task. simpl. intros t [[<- | []] | [[] | [[] | []]]] _.
      reflexivity.
Qed.

(** C1.  With [maxPages = N] the visited set holds at most [N] URLs in
    every state a run of [crawlSite] goes through, whatever the pages link
    to and however the turns interleave, and the list [crawlSite] returns has
    at most [N] entries. *)
Theorem visited_within_maxPages (turns : list Turn) (st : Crawl) :
  crawlSite_state localeCompare URL_resolve robots_allows opts turns = Some st ->
  NoDup (visited st)
  /\ length (visited st) <= maxPages opts
  /\ forall r,
       crawlSite localeCompare URL_resolve robots_allows opts turns = Some r ->
       NoDup r /\ length r <= maxPages opts.
Proof.
  intros E. destruct (crawl_inv_state turns st E) as (start & _ & I).
  destruct I as [Hb Hs _ _ _]. split; [exact Hs |]. split; [exact Hb |].
  intros r Hr. unfold crawlSite in Hr. rewrite E in Hr.
  destruct (batch_done st && negb (rejected st) && negb (loop_test opts st));
    [| discriminate].
  injection Hr as <-. now split.
Qed.

(** C2.  In every run of [crawlSite] no URL reaches the page fetch twice:
    the URLs of the tasks that got past line 52 are pairwise different,
    because the test [visited.has] and [visited.add] happen in one turn. *)
Theorem each_url_fetched_once (turns : list Turn) (st : Crawl) :
  crawlSite_state localeCompare URL_resolve robots_allows opts turns = Some st ->
  NoDup (List.map url (fetched st)).
Proof.
  intros E. destruct (crawl_inv_state turns st E) as (start & _ & I).
  apply I.
Qed.

(** C3, as the code has it.  A task whose URL is not yet visited and that
    fails [isLikelyHtmlPage], or is disallowed by robots while
    [respectRobots] is set, or arrives when the budget is used up, is
    skipped and leaves every variable of the crawl as it was: the URL is
    neither fetched nor marked visited. *)
Theorem skipped_task_changes_nothing (t : Task) (st : Crawl) :
  set_has (visited st) (url t) = false ->
  isLikelyHtmlPage (url t) = false
  \/ (respectRobots opts = true /\ robots_allows (url t) = false)
  \/ maxPages opts <= length (visited st) ->
  enter t st = st /\ ~ In (url t) (visited (enter t st)).
Proof.
  intros Hv H.
  assert (E : enter t st = st).
  { unfold crawlPage_enter. rewrite Hv.
    destruct H as [H | [[H1 H2] | H]].
    - now rewrite H.
    - rewrite H1, H2. simpl. now destruct (isLikelyHtmlPage (url t)).
    - apply Nat.leb_le in H. rewrite H.
      destruct (isLikelyHtmlPage (url t)); simpl; [| reflexivity].
      now destruct (respectRobots opts && negb (robots_allows (url t))). }
  split; [assumption |]. rewrite E. now apply set_has_not_In.
Qed.

(** C9.  A page is fetched only for a task whose depth is below
    [maxDepth]; the tasks a fetched page adds to the queue are one level
    deeper than its own; and with [maxDepth = 1] the only page ever
    fetched is the start URL, so nothing two links away from it is. *)
Theorem fetch_only_below_maxDepth (turns : list Turn) (st : Crawl) :
  crawlSite_state localeCompare URL_resolve robots_allows opts turns = Some st ->
  (forall t, In t (fetched st) -> depth t < maxDepth opts)
  /\ (forall t o s t',
        In t' (queue (resume t o s)) ->
        In t' (queue s) \/ depth t' = depth t + 1)
  /\ (maxDepth opts = 1 ->
      forall t, In t (fetched st) ->
        normalizeUrl localeCompare (baseUrl opts) = Some (url t)).
Proof.
  intros E. destruct (crawl_inv_state turns st E) as (start & Es & I).
  destruct I as [_ _ _ Hf Hd]. repeat split.
  - intros t Ht. now apply Hf.
  - intros t o s t' Ht'.
    destruct (crawlPage_resume_spec t o s) as (_ & _ & _ & _ & Hq).
    destruct (Hq t' Ht') as [H | [H _]]; auto.
  - intros E1 t Ht. rewrite Es. f_equal. symmetry. apply Hd.
    + right. right. now right.
    + destruct (Hf t Ht) as [_ H]. lia.
Qed.

Lemma candidates_on_site (page : string) (hrefs cs : list string) (u : string) :
  cands page hrefs = Some cs -> In u cs ->
  canonical localeCompare u /\ isSameHost page u = Some true.
Proof.
  unfold candidates.
  destruct (map_throw _ _) as [us |] eqn:Em; [| discriminate].
  destruct (filter_throw _ us) as [vs |] eqn:Ef; [| discriminate].
  intros [= <-] Hu. apply filter_In in Hu as [Hu _].
  destruct (filter_throw_In _ _ _ _ Ef Hu) as [Hus Hsame].
  destruct (map_throw_In _ _ _ _ Em Hus) as (raw & _ & Hraw).
  split; [now exists raw | assumption].
Qed.

Lemma site_inv_step (start : string) (st st' : Crawl) (turn : Turn) :
  site_inv localeCompare start st -> cstep st turn = Some st' ->
  site_inv localeCompare start st'.
Proof.
  intros [Hv Ht] E.
  apply (step_cases (site_inv localeCompare start) st st' turn E).
  - split; simpl; [assumption |].
    intros t H. apply Ht. unfold holds_task in *. simpl in H.
    destruct H as [H | [H | [[] | H]]]; eauto using In_skipn, In_firstn.
  - intros i t Hi.
    assert (Hin : holds_task st t).
    { right. left. eapply nth_error_In. eassumption. }
    match goal with |- site_inv _ _ (crawlPage_enter _ _ _ ?s) => set (st0 := s) end.
    assert (Hsub : forall x, holds_task st0 x -> holds_task st x).
    { unfold holds_task, st0. simpl. intros x [H | [H | [H | H]]]; auto.
      right. left. eapply In_remove_nth. eassumption. }
    destruct (crawlPage_enter_cases t st0) as [_ | _ _ _ _ | _ _ _ _].
    + split; [exact Hv | auto].
    + split; simpl.
      * intros u Hu. apply in_app_or in Hu. destruct Hu as [Hu | [<- | []]]; auto.
      * intros x Hx. apply Ht, Hsub. exact Hx.
    + split; simpl.
      * intros u Hu. apply in_app_or in Hu. destruct Hu as [Hu | [<- | []]]; auto.
      * intros x Hx. unfold holds_task in Hx. simpl in Hx.
        destruct Hx as [H | [H | [H | H]]].
        -- apply Ht, Hsub. now left.
        -- apply Ht, Hsub. right. now left.
        -- apply in_app_or in H. destruct H as [H | [<- | []]]; auto.
           apply Ht, Hsub. right. right. now left.
        -- apply in_app_or in H. destruct H as [H | [<- | []]]; auto.
           apply Ht. right. right. now right.
  - intros i t o Hi.
    assert (Hin : holds_task st t).
    { right. right. left. eapply nth_error_In. eassumption. }
    match goal with |- site_inv _ _ (crawlPage_resume _ _ _ _ ?s) => set (st0 := s) end.
    destruct (crawlPage_resume_spec t o st0) as (Ev & Ep & El & Ef & Hq).
    split; [now rewrite Ev |].
    intros x Hx. unfold holds_task in Hx. rewrite Ep, El, Ef in Hx. simpl in Hx.
    destruct Hx as [H | [H | [H | H]]].
    + apply Hq in H. destruct H as [H | (_ & hrefs & cs & Hc & Hu)].
      * apply Ht. now left.
      * destruct (candidates_on_site _ _ _ _ Hc Hu) as [Hcan Hsame].
        split; [assumption |].
        eapply isSameHost_trans; [| eassumption]. now apply Ht.
    + apply Ht. right. now left.
    + apply Ht. right. right. left. eapply In_remove_nth. eassumption.
    + apply Ht. right. right. now right.
Qed.

Lemma site_inv_state (turns : list Turn) (st : Crawl) :
  crawlSite_state localeCompare URL_resolve robots_allows opts turns = Some st ->
  exists start,
    normalizeUrl localeCompare (baseUrl opts) = Some start
    /\ site_inv localeCompare start st.
Proof.
  unfold crawlSite_state, crawlSite_start.
  destruct (normalizeUrl localeCompare (baseUrl opts)) as [start |] eqn:Es;
    [| discriminate].
  destruct (concurrency opts =? 0); [discriminate |].
  intros E. exists start. split; [reflexivity |].
  eapply run_invariant; [| | exact E].
  - intros s turn s'. apply site_inv_step.
  - split; simpl; [intros u [] |].
    unfold holds_task. simpl. intros t [[<- | []] | [[] | [[] | []]]].
    split; [now exists (baseUrl opts) |]. simpl.
    destruct (NormFacts.normalizeUrl_parses _ _ _ Es) as (u & _ & _ & _ & Hp).
    eapply isSameHost_refl. eassumption.
Qed.

Hypothesis localeCompare_antisym :
  forall a b, localeCompare b a = CompOpp (localeCompare a b).

(** X2.  What holds of the list [crawlSite] returns: every string in it was
    returned by [normalizeUrl] and is on the same host as the normalised
    start URL; it is a fixed point of [normalizeUrl] exactly when its path
    is [/] or does not end in a slash. *)
Theorem crawl_result_on_site (turns : list Turn) (r : list string) (start u : string) :
  crawlSite localeCompare URL_resolve robots_allows opts turns = Some r ->
  normalizeUrl localeCompare (baseUrl opts) = Some start ->
  In u r ->
  canonical localeCompare u
  /\ isSameHost start u = Some true
  /\ exists parsed,
       Url.URL_parse u = Some parsed
       /\ (normalizeUrl localeCompare u = Some u
           <-> (Url.pathname parsed = "/"%string
                \/ Str.endsWith (Url.pathname parsed) "/" = false)).
Proof.
  unfold crawlSite. intros E Es Hu.
  destruct (crawlSite_state _ _ _ _ turns) as [st |] eqn:Est; [| discriminate].
  destruct (batch_done st && negb (rejected st) && negb (loop_test opts st));
    [| discriminate].
  injection E as <-.
  destruct (site_inv_state turns st Est) as (start' & Es' & Hv & _).
  rewrite Es in Es'. injection Es' as <-.
  destruct (Hv u Hu) as [Hcan Hsame]. repeat split; try assumption.
  destruct Hcan as (raw & Hraw).
  destruct (NormFacts.normalizeUrl_parses _ _ _ Hraw) as (u0 & Hp0 & _ & _ & _).
  destruct (normalizeUrl_again localeCompare localeCompare_antisym raw u u0 Hp0 Hraw)
    as [Hp Hfix].
  exists (normalized localeCompare u0). split; [exact Hp |].
  rewrite Hfix. apply strip_slash_fixed.
Qed.

End CrawlerProps.

(** ** The sitemap harvester *)

Lemma gets_app (a b : History) : gets (a ++ b) = gets a + gets b.
Proof.
  induction a as [| [u | ms] a IH]; simpl; [reflexivity | now rewrite IH | assumption].
Qed.

Section HarvesterProps.

Variable localeCompare : string -> string -> comparison.
Variable URL_resolve : string -> string -> option string.
Variable axios_get : History -> string -> Reply.
Variable Date_now : History -> Z.
Variable Number_other : string -> option Q.
Variable Date_parse : string -> option Z.
Variable parseStringPromise : string -> XmlResult.

Local Abbreviation retryAfterMs := (parseRetryAfterMs Number_other Date_parse).
Local Abbreviation attempt_of := (fetchXml_attempt Number_other Date_parse).
Local Abbreviation loop := (fetchXml_loop axios_get Date_now Number_other Date_parse).
Local Abbreviation fetch := (fetchXml axios_get Date_now Number_other Date_parse).
Local Abbreviation harvest :=
  (parseSitemapUrls localeCompare URL_resolve axios_get Date_now Number_other
     Date_parse parseStringPromise).
Local Abbreviation harvest_all :=
  (discover_sitemaps localeCompare URL_resolve axios_get Date_now Number_other
     Date_parse parseStringPromise).

(** One pass of the loop ends with the body exactly on an accepted reply. *)
Lemma attempt_accept (attempt : Z) (lastError : option FetchError) (now : Z)
  (reply : Reply) :
  match attempt_of attempt lastError now reply with
  | Accept body => accepted reply = true
  | Again _ _ => accepted reply = false
  end.
Proof.
  destruct reply as [| res]; simpl; [reflexivity |].
  destruct ((200 <=? status res)%Z && (status res <? 300)%Z); simpl.
  - destruct (looksXml (data res)); simpl; [reflexivity |].
    destruct (Str.includes (Str.toLowerCase (content_type res)) "xml"); simpl;
      [reflexivity |].
    destruct (Str.includes (Str.toLowerCase (content_type res)) "text/plain");
      reflexivity.
  - destruct ((status res =? 429)%Z || (status res =? 503)%Z); reflexivity.
Qed.

(** The loop with [left] passes to go sends at most [left] requests, and
    exactly [left] when it gives up. *)
Lemma fetchXml_loop_gets (url : string) (left : nat) :
  forall attempt lastError h,
  exists evs,
    snd (loop url left attempt lastError h) = h ++ evs
    /\ gets evs <= left
    /\ (forall e, fst (loop url left attempt lastError h) = inr e ->
         gets evs = left).
Proof.
  induction left as [| left IH]; intros attempt lastError h; simpl.
  - exists []. rewrite app_nil_r. repeat split; auto.
  - destruct (attempt_of attempt lastError (Date_now (h ++ [Get url]))
                (axios_get h url)) as [body | lastError' sleep].
    + exists [Get url]. simpl. repeat split; [lia | discriminate].
    + destruct sleep as [ms |].
      * destruct (IH (attempt + 1)%Z lastError' ((h ++ [Get url]) ++ [Sleep ms]))
          as (evs & E & Hle & Heq).
        exists (Get url :: Sleep ms :: evs). split; [| split].
        -- rewrite E, <- !app_assoc. reflexivity.
        -- simpl. lia.
        -- intros e He. simpl. now rewrite (Heq e He).
      * destruct (IH (attempt + 1)%Z lastError' (h ++ [Get url]))
          as (evs & E & Hle & Heq).
        exists (Get url :: evs). split; [| split].
        -- rewrite E, <- !app_assoc. reflexivity.
        -- simpl. lia.
        -- intros e He. simpl. now rewrite (Heq e He).
Qed.

(** When no reply for [url] is ever accepted, the loop gives up. *)
Lemma fetchXml_loop_fails (url : string) (left : nat) :
  (forall h, accepted (axios_get h url) = false) ->
  forall attempt lastError h,
  exists e, fst (loop url left attempt lastError h) = inr e.
Proof.
  intros Hno. induction left as [| left IH]; intros attempt lastError h; simpl.
  - eexists. reflexivity.
  - pose proof (attempt_accept attempt lastError (Date_now (h ++ [Get url]))
                  (axios_get h url)) as Ha.
    destruct (attempt_of attempt lastError (Date_now (h ++ [Get url]))
                (axios_get h url)) as [body | lastError' sleep].
    + rewrite Hno in Ha. discriminate.
    + apply IH.
Qed.

Lemma fetchXml_retryable (url : string) (left : nat) (attempt : Z)
  (lastError : option FetchError) (h : History) (res : Response) :
  axios_get h url = Replied res ->
  status res = 429%Z \/ status res = 503%Z ->
  loop url (S left) attempt lastError h
  = loop url left (attempt + 1)%Z lastError
      (h ++ [Get url;
             Sleep (match retryAfterMs (Date_now (h ++ [Get url])) (retry_after res) with
                    | Some ms => ms
                    | None => Z.min 30000 (1000 * 2 ^ attempt)
                    end)]).
Proof.
  intros Hr Hs. simpl. rewrite Hr. unfold fetchXml_attempt.
  assert (E1 : ((200 <=? status res)%Z && (status res <? 300)%Z) = false).
  { destruct Hs as [-> | ->]; reflexivity. }
  assert (E2 : ((status res =? 429)%Z || (status res =? 503)%Z) = true).
  { destruct Hs as [-> | ->]; reflexivity. }
  rewrite E1, E2, <- app_assoc. reflexivity.
Qed.

Lemma parseRetryAfterMs_seconds (now : Z) :
  retryAfterMs now "2" = Some 2000%Z.
Proof. reflexivity. Qed.

(** C7.  [fetchXml] sends at most 4 requests.  A 429 or 503 reply is
    followed by a sleep and then the next pass of the loop; the sleep is
    what [Retry-After] gives when the header is there (seconds as a number,
    times 1000 and floored at 0; or a date, as the time left until it,
    floored at 0) and [min(30000, 1000 * 2^attempt)] otherwise.  With a
    503 reply that carries [Retry-After: 2] the sleep before the next
    request is 2000 ms. *)
Theorem retry_after_then_backoff (url : string) :
  (forall h, exists evs, snd (fetch url h) = h ++ evs /\ gets evs <= 4)
  /\ (forall left attempt lastError h res,
        axios_get h url = Replied res ->
        status res = 429%Z \/ status res = 503%Z ->
        loop url (S left) attempt lastError h
        = loop url left (attempt + 1)%Z lastError
            (h ++ [Get url;
                   Sleep (match retryAfterMs (Date_now (h ++ [Get url]))
                                  (retry_after res) with
                          | Some ms => ms
                          | None => Z.min 30000 (1000 * 2 ^ attempt)
                          end)]))
  /\ (forall now, retryAfterMs now "" = None)
  /\ (forall now s q,
        s <> ""%string -> Number_ Number_other s = Some q ->
        retryAfterMs now s = Some (Z.max 0 (Qfloor (q * inject_Z 1000))))
  /\ (forall now s date,
        s <> ""%string -> Number_ Number_other s = None ->
        Date_parse s = Some date ->
        retryAfterMs now s = Some (Z.max 0 (date - now)))
  /\ (forall now s,
        Number_ Number_other s = None -> Date_parse s = None ->
        retryAfterMs now s = None)
  /\ (forall left attempt lastError h res,
        axios_get h url = Replied res ->
        status res = 503%Z -> retry_after res = "2"%string ->
        loop url (S left) attempt lastError h
        = loop url left (attempt + 1)%Z lastError
            (h ++ [Get url; Sleep 2000])).
Proof.
  repeat split.
  - intros h. destruct (fetchXml_loop_gets url (Z.to_nat maxAttempts) 1%Z None h)
      as (evs & E & Hle & _).
    exists evs. split; [exact E | exact Hle].
  - intros. now apply fetchXml_retryable.
  - intros now s q Hs Hq. unfold parseRetryAfterMs.
    apply String.eqb_neq in Hs. now rewrite Hs, Hq.
  - intros now s date Hs Hq Hd. unfold parseRetryAfterMs.
    apply String.eqb_neq in Hs. rewrite Hs, Hq, Hd. f_equal.
    destruct (Z.ltb_spec 0 (date - now)); lia.
  - intros now s Hq Hd. unfold parseRetryAfterMs.
    destruct (s =? "")%string; [reflexivity |]. now rewrite Hq, Hd.
  - intros left attempt lastError h res Hr Hs Hra.
    rewrite (fetchXml_retryable url left attempt lastError h res Hr (or_intror Hs)).
    rewrite Hra, parseRetryAfterMs_seconds. reflexivity.
Qed.

(** The documents that are skipped.  A sitemap document none of whose
    replies is accepted makes [fetchXml] give up after 4 requests; and a document whose fetch gives
    up, or whose body the XML parser rejects, makes [parseSitemapUrls]
    return the empty list instead of throwing, so that the loop of
    [discover] goes on with the next sitemap. *)
Theorem failed_document_is_skipped (fuel : nat) (url base : string) (h : History) :
  ((forall h', accepted (axios_get h' url) = false) ->
   exists e evs, fetch url h = (inr e, h ++ evs) /\ gets evs = 4)
  /\ ((exists e, fst (fetch url h) = inr e)
      \/ (exists xml, fst (fetch url h) = inl xml
                      /\ parseStringPromise xml = XmlError) ->
      harvest (S fuel) url base h = (Returned [], snd (fetch url h))
      /\ forall rest acc,
           harvest_all (S fuel) (url :: rest) base acc h
           = harvest_all (S fuel) rest base acc (snd (fetch url h))).
Proof.
  split.
  - intros Hno.
    destruct (fetchXml_loop_fails url (Z.to_nat maxAttempts) Hno 1%Z None h)
      as (e & He).
    destruct (fetchXml_loop_gets url (Z.to_nat maxAttempts) 1%Z None h)
      as (evs & E & _ & Heq).
    exists e, evs. split; [| exact (Heq e He)].
    unfold fetchXml. rewrite (surjective_pairing (loop url _ _ _ h)).
    now rewrite He, E.
  - intros H.
    assert (E : harvest (S fuel) url base h = (Returned [], snd (fetch url h))).
    { simpl. destruct (fetch url h) as [[xml | e] h1] eqn:Ef; simpl in *.
      - destruct H as [(e & He) | (xml' & Hx & Hp)]; [discriminate |].
        injection Hx as <-. now rewrite Hp.
      - reflexivity. }
    split; [exact E |]. intros rest acc.
    cbn [discover_sitemaps]. rewrite E. reflexivity.
Qed.

(** X3.  A body for which the XML parser resolves to [null] without
    throwing is not skipped like a body it rejects: the read of
    [parsed.urlset] throws, and [parseSitemapUrls] with it. *)
Lemma null_document_throws (fuel : nat) (url base xml : string) (h h1 : History) :
  fetch url h = (inl xml, h1) ->
  parseStringPromise xml = XmlNull ->
  harvest (S fuel) url base h = (Thrown, h1).
Proof.
  intros Ef Ep. cbn [parseSitemapUrls]. rewrite Ef, Ep.
  now destruct (Url.URL_parse base).
Qed.

(** More fuel does not change what a call returned or threw: the fuel
    only cuts off calls that are nested deeper. *)
Lemma collect_index_fuel
  (rec1 rec2 : string -> History -> Outcome (list string) * History)
  (base : string) (baseUrl : Url.URL) :
  (forall u h o h', rec1 u h = (o, h') -> o <> OutOfFuel -> rec2 u h = (o, h')) ->
  forall items urls h o h',
    collect_index URL_resolve rec1 base baseUrl items urls h = (o, h') ->
    o <> OutOfFuel ->
    collect_index URL_resolve rec2 base baseUrl items urls h = (o, h').
Proof.
  intros Hrec. induction items as [| loc r IH]; intros urls h o h' E Ho.
  - exact E.
  - cbn [collect_index] in *. destruct (loc =? "")%string; [now apply IH |].
    destruct (URL_resolve loc base) as [abs |]; [| now apply IH].
    destruct (abs =? "")%string; [now apply IH |].
    destruct (rec1 (rewriteToBaseOriginIfLocal baseUrl abs) h) as [o1 h1] eqn:E1.
    destruct o1 as [us | |].
    + rewrite (Hrec _ _ _ _ E1) by discriminate. now apply IH.
    + rewrite (Hrec _ _ _ _ E1) by discriminate. exact E.
    + injection E as <- <-. congruence.
Qed.

Lemma parseSitemapUrls_fuel (fuel : nat) :
  forall sitemapUrl base h o h',
    harvest fuel sitemapUrl base h = (o, h') -> o <> OutOfFuel ->
    harvest (S fuel) sitemapUrl base h = (o, h').
Proof.
  induction fuel as [| fuel IH]; intros sitemapUrl base h o h' E Ho.
  - simpl in E. injection E as <- <-. congruence.
  - remember (S fuel) as n eqn:En. cbn [parseSitemapUrls]. rewrite En in E.
    cbn [parseSitemapUrls] in E.
    destruct (fetch sitemapUrl h) as [[xml | e] h1]; [| exact E].
    destruct (parseStringPromise xml) as [| | doc]; try exact E.
    destruct (Url.URL_parse base) as [baseUrl |]; [| exact E].
    destruct (collect_urlset localeCompare URL_resolve base baseUrl (urlset_url doc) [])
      as [urls |]; [| exact E].
    eapply collect_index_fuel; [| exact E | exact Ho].
    intros u h0 o0 h0' E0 Ho0. subst n. now apply IH.
Qed.

(** C4.  A sitemap index that lists itself is harvested for ever: when
    the server answers [sitemapUrl] with an index whose first entry
    resolves to [sitemapUrl] again, no depth of nested calls is enough for
    [parseSitemapUrls] to return, and each level sends one more request
    for the same URL. *)
Theorem self_referencing_index_never_returns
  (sitemapUrl base loc abs : string) (rest : list string)
  (baseUrl : Url.URL) (res : Response) :
  (forall h, axios_get h sitemapUrl = Replied res) ->
  accepted (Replied res) = true ->
  parseStringPromise (data res) = XmlDoc (mkDoc [] (loc :: rest)) ->
  Url.URL_parse base = Some baseUrl ->
  loc <> ""%string ->
  URL_resolve loc base = Some abs ->
  abs <> ""%string ->
  rewriteToBaseOriginIfLocal baseUrl abs = sitemapUrl ->
  forall fuel h,
    harvest fuel sitemapUrl base h = (OutOfFuel, h ++ repeat (Get sitemapUrl) fuel).
Proof.
  intros Hget Hacc Hdoc Hbase Hloc Hres Habs Hself.
  assert (Hfetch : forall h, fetch sitemapUrl h = (inl (data res), h ++ [Get sitemapUrl])).
  { intros h. unfold fetchXml. simpl. rewrite Hget.
    pose proof (attempt_accept 1%Z None (Date_now (h ++ [Get sitemapUrl]))
                  (Replied res)) as Ha.
    destruct (attempt_of 1%Z None (Date_now (h ++ [Get sitemapUrl])) (Replied res))
      as [body | e sl] eqn:Ea.
    - f_equal. f_equal. unfold fetchXml_attempt in Ea.
      destruct ((200 <=? status res)%Z && (status res <? 300)%Z).
      + destruct (negb (looksXml (data res)) && negb _) in Ea.
        * discriminate.
        * now injection Ea as <-.
      + destruct ((status res =? 429)%Z || (status res =? 503)%Z); discriminate.
    - rewrite Hacc in Ha. discriminate. }
  apply String.eqb_neq in Hloc. apply String.eqb_neq in Habs.
  induction fuel as [| fuel IH]; intros h.
  - simpl. now rewrite app_nil_r.
  - cbn [parseSitemapUrls]. rewrite Hfetch, Hdoc, Hbase.
    cbn [urlset_url collect_urlset sitemapindex_sitemap collect_index].
    rewrite Hloc, Hres, Habs, Hself, IH.
    rewrite <- app_assoc. reflexivity.
Qed.

End HarvesterProps.

(* ================================================================== *)
(** * Part III: the statements on concrete runs *)
(* ================================================================== *)

Lemma visited_within_maxPages_demo :
  crawlSite_state compare_bytes resolve_absolute allow_all demo_opts demo_turns
  = Some demo_state
  /\ (NoDup (visited demo_state)
      /\ length (visited demo_state) <= maxPages demo_opts
      /\ forall r,
           crawlSite compare_bytes resolve_absolute allow_all demo_opts demo_turns
           = Some r ->
           NoDup r /\ length r <= maxPages demo_opts).
Proof.
  split; [reflexivity |].
  apply (visited_within_maxPages compare_bytes resolve_absolute allow_all
           demo_opts demo_turns demo_state).
  reflexivity.
Defined.

Lemma each_url_fetched_once_demo :
  crawlSite_state compare_bytes resolve_absolute allow_all roomy_opts demo_turns
  = Some roomy_state
  /\ NoDup (List.map url (fetched roomy_state)).
Proof.
  split; [reflexivity |].
  apply (each_url_fetched_once compare_bytes resolve_absolute allow_all
           roomy_opts demo_turns roomy_state).
  reflexivity.
Defined.

(** The third task of the second batch of [demo_turns]: [/c] arrives when
    the two pages of the budget are used up. *)
Lemma skipped_task_changes_nothing_demo :
  set_has (visited demo_state) "http://a.com/c" = false
  /\ (isLikelyHtmlPage "http://a.com/c" = false
      \/ (respectRobots demo_opts = true /\ allow_all "http://a.com/c" = false)
      \/ maxPages demo_opts <= length (visited demo_state))
  /\ (crawlPage_enter allow_all demo_opts (mkTask "http://a.com/c" 1) demo_state
      = demo_state
      /\ ~ In "http://a.com/c"
            (visited (crawlPage_enter allow_all demo_opts
                        (mkTask "http://a.com/c" 1) demo_state))).
Proof.
  assert (H1 : set_has (visited demo_state) (url (mkTask "http://a.com/c" 1)) = false)
    by reflexivity.
  assert (H2 : isLikelyHtmlPage (url (mkTask "http://a.com/c" 1)) = false
               \/ (respectRobots demo_opts = true
                   /\ allow_all (url (mkTask "http://a.com/c" 1)) = false)
               \/ maxPages demo_opts <= length (visited demo_state)).
  { right. right. apply Nat.le_refl. }
  split; [exact H1 |]. split; [exact H2 |].
  exact (skipped_task_changes_nothing allow_all demo_opts
           (mkTask "http://a.com/c" 1) demo_state H1 H2).
Defined.

(** C3 as the specification words it fails: [http://a.com/x.pdf] is not
    visited and is not a likely HTML page; [crawlPage] leaves the visited
    set empty, and the crawl started there returns the empty list. *)
Lemma skipped_task_not_marked_visited :
  set_has [] "http://a.com/x.pdf" = false
  /\ isLikelyHtmlPage "http://a.com/x.pdf" = false
  /\ visited (crawlPage_enter allow_all pdf_opts (mkTask "http://a.com/x.pdf" 0)
                (mkCrawl [] [] [] [] [] false)) = []
  /\ crawlSite compare_bytes resolve_absolute allow_all pdf_opts [NextBatch; Enter 0]
     = Some [].
Proof. repeat split. Qed.

Lemma fetch_only_below_maxDepth_demo :
  crawlSite_state compare_bytes resolve_absolute allow_all shallow_opts shallow_turns
  = Some shallow_state
  /\ ((forall t, In t (fetched shallow_state) -> depth t < maxDepth shallow_opts)
      /\ (forall t o s t',
            In t' (queue (crawlPage_resume compare_bytes resolve_absolute t o s)) ->
            In t' (queue s) \/ depth t' = depth t + 1)
      /\ (maxDepth shallow_opts = 1 ->
          forall t, In t (fetched shallow_state) ->
            normalizeUrl compare_bytes (baseUrl shallow_opts) = Some (url t))).
Proof.
  split; [reflexivity |].
  apply (fetch_only_below_maxDepth compare_bytes resolve_absolute allow_all
           shallow_opts shallow_turns shallow_state).
  reflexivity.
Defined.

(** C10.  The list [crawlSite] returns can hold a string that is not a
    fixed point of [normalizeUrl]: whatever the collation, the link
    resolution and the robots policy, the crawl of [http://a.com/x//]
    returns [http://a.com/x/], which [normalizeUrl] maps to
    [http://a.com/x]. *)
Theorem crawl_result_not_fixed_point :
  forall (localeCompare : string -> string -> comparison)
         (URL_resolve : string -> string -> option string)
         (robots_allows : string -> bool),
    crawlSite localeCompare URL_resolve robots_allows slash_opts [NextBatch; Enter 0]
    = Some ["http://a.com/x/"%string]
    /\ isSameHost "http://a.com/x/" "http://a.com/x/" = Some true
    /\ normalizeUrl localeCompare "http://a.com/x/" = Some "http://a.com/x"%string.
Proof. intros. repeat split. Qed.

Lemma crawl_result_on_site_demo :
  crawlSite compare_bytes resolve_absolute allow_all slash_opts [NextBatch; Enter 0]
  = Some ["http://a.com/x/"%string]
  /\ normalizeUrl compare_bytes (baseUrl slash_opts) = Some "http://a.com/x/"%string
  /\ In "http://a.com/x/"%string ["http://a.com/x/"%string]
  /\ (canonical compare_bytes "http://a.com/x/"
      /\ isSameHost "http://a.com/x/" "http://a.com/x/" = Some true
      /\ exists parsed,
           Url.URL_parse "http://a.com/x/" = Some parsed
           /\ (normalizeUrl compare_bytes "http://a.com/x/" = Some "http://a.com/x/"%string
               <-> (Url.pathname parsed = "/"%string
                    \/ Str.endsWith (Url.pathname parsed) "/" = false))).
Proof.
  split; [reflexivity |]. split; [reflexivity |]. split; [now left |].
  apply (crawl_result_on_site compare_bytes resolve_absolute allow_all slash_opts
           compare_bytes_antisym [NextBatch; Enter 0] ["http://a.com/x/"%string]).
  - reflexivity.
  - reflexivity.
  - now left.
Defined.

(** C5.  [normalizeUrl] is not idempotent on a path that ends in two
    slashes: whatever the collation, normalising [http://a.com/x//] gives
    [http://a.com/x/], and normalising that gives [http://a.com/x]. *)
Theorem normalizeUrl_not_idempotent :
  forall localeCompare : string -> string -> comparison,
    normalizeUrl localeCompare "http://a.com/x//" = Some "http://a.com/x/"%string
    /\ normalizeUrl localeCompare "http://a.com/x/" = Some "http://a.com/x"%string.
Proof. intros. split; reflexivity. Qed.




(** A server that answers 503 with [Retry-After: 2]: the harvester sleeps
    2000 ms after the first request and goes on with three passes left. *)
Lemma retry_after_then_backoff_demo :
  fetchXml (always busy_response) clock_zero no_number no_date loop_url []
  = fetchXml_loop (always busy_response) clock_zero no_number no_date loop_url 3 2
      None [Get loop_url; Sleep 2000]
  /\ fetchXml (always busy_response) clock_zero no_number no_date loop_url []
     = (inr UnknownError,
        [Get loop_url; Sleep 2000; Get loop_url; Sleep 2000;
         Get loop_url; Sleep 2000; Get loop_url; Sleep 2000]).
Proof.
  split; [| reflexivity].
  pose proof (retry_after_then_backoff (always busy_response) clock_zero no_number
                no_date loop_url) as H.
  exact (proj2 (proj2 (proj2 (proj2 (proj2 (proj2 H))))) 3%nat 1%Z None []
           busy_response eq_refl eq_refl eq_refl).
Defined.

(** A server that is down: four requests, then the empty list. *)
Lemma failed_document_is_skipped_demo :
  (forall h', accepted (down h' loop_url) = false)
  /\ parseSitemapUrls compare_bytes resolve_absolute down clock_zero no_number
       no_date (parse_only loop_body (mkDoc [] [loop_url])) 1 loop_url
       "https://a.com" []
     = (Returned [],
        [Get loop_url; Sleep 2000; Get loop_url; Sleep 4000;
         Get loop_url; Sleep 8000; Get loop_url]).
Proof.
  split; [reflexivity |].
  pose proof (failed_document_is_skipped compare_bytes resolve_absolute down
                clock_zero no_number no_date
                (parse_only loop_body (mkDoc [] [loop_url])) 0 loop_url
                "https://a.com" []) as [_ H].
  exact (proj1 (H (or_introl (ex_intro _ RequestFailed eq_refl)))).
Defined.

(** C8.  An empty sitemap document is not skipped.  The server answers
    [/sitemap.xml] with status 200, an XML content type and no body:
    [fetchXml] accepts the reply, the XML parser resolves to [null], and
    [parseSitemapUrls] throws at [parsed.urlset] instead of returning the
    empty list.  [discover] does not catch it: the run ends there,
    although the other sitemap lists a page, and although the same run
    against a server without the empty document returns its list. *)
Theorem empty_document_aborts_discovery :
  accepted (first_empty [] "http://a.com/sitemap.xml") = true
  /\ parseSitemapUrls compare_bytes resolve_reference first_empty clock_zero
       no_number no_date
       (parse_or_null slashes_body (mkDoc ["http://a.com/x//"%string] []))
       1 "http://a.com/sitemap.xml" "http://a.com" []
     = (Thrown, [Get "http://a.com/sitemap.xml"])
  /\ parseSitemapUrls compare_bytes resolve_reference first_empty clock_zero
       no_number no_date
       (parse_or_null slashes_body (mkDoc ["http://a.com/x//"%string] []))
       1 "http://a.com/pages.xml" "http://a.com" []
     = (Returned ["http://a.com/x/"%string], [Get "http://a.com/pages.xml"])
  /\ discover compare_bytes resolve_reference (robots_reply robots_missing)
       (robots_reply robots_missing) (robots_listing []) first_empty
       clock_zero no_number no_date
       (parse_or_null slashes_body (mkDoc ["http://a.com/x//"%string] []))
       1 "http://a.com" pages_args
       [NextBatch; Enter 0; Page 0 (Anchors [])]
     = Thrown
  /\ discover compare_bytes resolve_reference (robots_reply robots_missing)
       (robots_reply robots_missing) (robots_listing []) (always slashes_response)
       clock_zero no_number no_date
       (parse_or_null slashes_body (mkDoc ["http://a.com/x//"%string] []))
       1 "http://a.com" pages_args
       [NextBatch; Enter 0; Page 0 (Anchors [])]
     = Returned ["http://a.com/x"%string; "http://a.com/"%string].
Proof.
  split; [reflexivity |]. split; [reflexivity |]. split; [reflexivity |].
  split; reflexivity.
Qed.

(** An input on which the harvester does not return. *)
Lemma self_referencing_index_demo :
  (forall h, always loop_response h loop_url = Replied loop_response)
  /\ accepted (Replied loop_response) = true
  /\ parse_only loop_body (mkDoc [] [loop_url]) (data loop_response)
     = XmlDoc (mkDoc [] [loop_url])
  /\ resolve_absolute loop_url "https://a.com" = Some loop_url
  /\ forall fuel h,
       parseSitemapUrls compare_bytes resolve_absolute (always loop_response)
         clock_zero no_number no_date (parse_only loop_body (mkDoc [] [loop_url]))
         fuel loop_url "https://a.com" h
       = (OutOfFuel, h ++ repeat (Get loop_url) fuel).
Proof.
  split; [reflexivity |]. split; [reflexivity |]. split; [reflexivity |].
  split; [reflexivity |].
  apply (self_referencing_index_never_returns compare_bytes resolve_absolute
           (always loop_response) clock_zero no_number no_date
           (parse_only loop_body (mkDoc [] [loop_url]))
           loop_url "https://a.com" loop_url loop_url []
           (Url.mkURL "https" "a.com" None "/" None None) loop_response).
  - reflexivity.
  - reflexivity.
  - reflexivity.
  - reflexivity.
  - discriminate.
  - reflexivity.
  - discriminate.
  - reflexivity.
Defined.

(** The same defect seen from [discover]: the sitemap side normalises what
    [parseSitemapUrls] returned once more, the crawl side does not, so a
    page reached as [http://a.com/x//] from both sides is listed under two
    strings and the union keeps both. *)
Lemma discover_lists_page_twice :
  discover_sitemaps compare_bytes resolve_absolute (always slashes_response)
    clock_zero no_number no_date
    (parse_only slashes_body (mkDoc ["http://a.com/x//"%string] []))
    1 ["http://a.com/sitemap.xml"%string] "http://a.com" [] []
  = (Returned ["http://a.com/x"%string], [Get "http://a.com/sitemap.xml"])
  /\ crawlSite compare_bytes resolve_absolute allow_all slashes_opts
       [NextBatch; Enter 0; Page 0 (Anchors ["http://a.com/x//"%string]);
        NextBatch; Enter 0]
     = Some ["http://a.com/"%string; "http://a.com/x/"%string].
Proof. split; reflexivity. Qed.

(* ================================================================== *)
(** * Part IV: further properties of the code *)
(* ================================================================== *)

(** ** Sets, once more *)

(** Adding a list of strings to a set. *)
Lemma fold_set_add_spec (us urls : list string) :
  (NoDup urls -> NoDup (fold_left set_add us urls))
  /\ forall u, In u (fold_left set_add us urls) <-> In u urls \/ In u us.
Proof.
  revert urls. induction us as [| x us IH]; intros urls; simpl.
  - split; [auto | intros u; tauto].
  - destruct (IH (set_add urls x)) as [IH1 IH2]. split.
    + intros H. apply IH1. now apply set_add_NoDup.
    + intros u. rewrite IH2, set_add_In. intuition congruence.
Qed.

(** ** More about [src/utils/url.ts] *)

Lemma append_inv_head (h x y : string) :
  (h ++ x)%string = (h ++ y)%string -> x = y.
Proof.
  induction h as [| c h IH]; simpl; [auto |]. intros [= E]. auto.
Qed.

Lemma string_of_N_inj (p q : N) :
  Url.string_of_N p = Url.string_of_N q -> p = q.
Proof.
  intros E. apply (f_equal Url.decimal) in E.
  rewrite !UrlFacts.decimal_string_of_N in E. congruence.
Qed.

(** The [host] getter determines the host name and the port. *)
Lemma host_inj (u1 u2 : Url.URL) :
  wellformed u1 = true -> wellformed u2 = true ->
  Url.host u1 = Url.host u2 ->
  Url.url_host u1 = Url.url_host u2 /\ Url.url_port u1 = Url.url_port u2.
Proof.
  intros H1 H2 E. pose proof (host_hostname u1 u2 H1 H2 E) as Eh.
  unfold Url.hostname in Eh. split; [exact Eh |].
  unfold Url.host in E. rewrite Eh in E.
  destruct (Url.url_port u1) as [p |], (Url.url_port u2) as [q |].
  - apply append_inv_head in E. injection E as E.
    now rewrite (string_of_N_inj p q E).
  - rewrite <- (StrFacts.append_nil_r (Url.url_host u2)) in E at 2.
    apply append_inv_head in E. discriminate.
  - rewrite <- (StrFacts.append_nil_r (Url.url_host u2)) in E at 1.
    apply append_inv_head in E. discriminate.
  - reflexivity.
Qed.

Lemma protocol_inj (u1 u2 : Url.URL) :
  wellformed u1 = true -> wellformed u2 = true ->
  Url.protocol u1 = Url.protocol u2 -> Url.url_scheme u1 = Url.url_scheme u2.
Proof.
  assert (Hs : forall u, wellformed u = true ->
             fst (Str.span (fun c => negb (Ascii.eqb c ":")) (Url.protocol u))
             = Url.url_scheme u).
  { intros u H. unfold wellformed, port_ok in H.
    destruct (Url.default_port (Url.url_scheme u)) as [dflt |] eqn:Ed;
      [| discriminate].
    destruct (UrlFacts.special_scheme _ _ Ed) as (_ & Hc & _).
    unfold Url.protocol. now rewrite (StrFacts.span_app _ _ _ Hc). }
  intros H1 H2 E. rewrite <- (Hs u1 H1), <- (Hs u2 H2). now rewrite E.
Qed.

Lemma isSameHost_sym (a b : string) : isSameHost a b = isSameHost b a.
Proof.
  unfold isSameHost.
  destruct (Url.URL_parse a) as [ua |], (Url.URL_parse b) as [ub |]; try reflexivity.
  rewrite (andb_comm (isLocal (Url.hostname ub))).
  rewrite (String.eqb_sym (Url.host ub)), (String.eqb_sym (Url.protocol ub)).
  reflexivity.
Qed.

(** X4.  [isSameHost] throws exactly when one of its arguments does not
    parse, and is an equivalence on the strings that parse: reflexive,
    symmetric and transitive. *)
Theorem isSameHost_equivalence (a b c : string) :
  (isSameHost a b = None <-> Url.URL_parse a = None \/ Url.URL_parse b = None)
  /\ (Url.URL_parse a <> None -> isSameHost a a = Some true)
  /\ isSameHost a b = isSameHost b a
  /\ (isSameHost a b = Some true -> isSameHost b c = Some true ->
      isSameHost a c = Some true).
Proof.
  split; [| split; [| split]].
  - unfold isSameHost.
    destruct (Url.URL_parse a) as [ua |]; [| intuition].
    destruct (Url.URL_parse b) as [ub |]; [| intuition].
    split; [| intros [H | H]; discriminate].
    destruct (isLocal (Url.hostname ua) && isLocal (Url.hostname ub)); discriminate.
  - destruct (Url.URL_parse a) as [ua |] eqn:Ea; [| congruence].
    intros _. now apply (isSameHost_refl a ua).
  - apply isSameHost_sym.
  - apply isSameHost_trans.
Qed.

(** X5.  What [isSameHost] compares.  Two URLs whose host names are both
    [localhost] or [127.0.0.1] are the same host whatever their schemes
    and ports; otherwise they are the same host exactly when scheme, host
    name and port agree (a default port counting as no port). *)
Theorem isSameHost_compares (a b : string) (ua ub : Url.URL) :
  Url.URL_parse a = Some ua -> Url.URL_parse b = Some ub ->
  (isSameHost a b = Some true
   <-> (isLocal (Url.hostname ua) = true /\ isLocal (Url.hostname ub) = true)
       \/ (Url.url_scheme ua = Url.url_scheme ub
           /\ Url.url_host ua = Url.url_host ub
           /\ Url.url_port ua = Url.url_port ub)).
Proof.
  intros Ea Eb. unfold isSameHost. rewrite Ea, Eb.
  apply UrlFacts.URL_parse_wellformed in Ea, Eb.
  destruct (isLocal (Url.hostname ua) && isLocal (Url.hostname ub)) eqn:El.
  - apply andb_prop in El. tauto.
  - split.
    + intros [= H]. apply andb_prop in H as [H1 H2].
      apply String.eqb_eq in H1, H2. right.
      destruct (host_inj ua ub Ea Eb H1). split; [| auto].
      now apply protocol_inj.
    + intros [[H1 H2] | (Hs & Hh & Hp)].
      * rewrite H1, H2 in El. discriminate.
      * unfold Url.host, Url.protocol. rewrite Hs, Hh, Hp, !String.eqb_refl.
        reflexivity.
Qed.

Section NormalizerHost.

Variable localeCompare : string -> string -> comparison.

(** The host comparisons of a normalised URL are those of the URL. *)
Lemma isSameHost_normalizeUrl (raw out other : string) :
  normalizeUrl localeCompare raw = Some out ->
  isSameHost out other = isSameHost raw other
  /\ isSameHost other out = isSameHost other raw.
Proof.
  intros Hn.
  destruct (NormFacts.normalizeUrl_parses localeCompare raw out Hn)
    as (u & Hp & _ & _ & Hout).
  unfold isSameHost. rewrite Hp, Hout. split; [reflexivity |].
  destruct (Url.URL_parse other); reflexivity.
Qed.

(** X6.  [normalizeUrl] stays on the host: what it returns is the same
    host as its argument, and compares with every other URL as its
    argument does. *)
Theorem normalizeUrl_keeps_host (raw out : string) :
  normalizeUrl localeCompare raw = Some out ->
  isSameHost raw out = Some true
  /\ forall other, isSameHost out other = isSameHost raw other.
Proof.
  intros Hn. pose proof (isSameHost_normalizeUrl raw out) as Hall.
  destruct (NormFacts.normalizeUrl_parses localeCompare raw out Hn)
    as (u & Hp & _).
  split; [| intros other; now apply Hall].
  rewrite (proj2 (Hall raw Hn)). now apply (isSameHost_refl raw u).
Qed.

End NormalizerHost.

(** *** Extensions *)

Lemma split_on_single (sep : ascii) (s h : string) :
  Str.split_on sep s = [h] -> s = h.
Proof.
  revert h. induction s as [| c s IH]; cbn [Str.split_on]; intros h E.
  - now injection E.
  - destruct (StrFacts.split_on_cons sep s) as (h0 & t0 & E0). rewrite E0 in *.
    destruct (Ascii.eqb c sep); [discriminate |].
    injection E as <- ->. now rewrite (IH h0 eq_refl).
Qed.

Lemma all_last_split (sep : ascii) (s : string) :
  Str.all (fun c => negb (Ascii.eqb c sep)) (last (Str.split_on sep s) "") = true
  /\ Str.endsWith s (last (Str.split_on sep s) "") = true.
Proof.
  induction s as [| c s [IH1 IH2]].
  - now vm_compute.
  - cbn [Str.split_on].
    destruct (StrFacts.split_on_cons sep s) as (h & t & E). rewrite E in *.
    destruct (Ascii.eqb c sep) eqn:Ec.
    + change (last ("" :: h :: t) "") with (last (h :: t) "").
      split; [exact IH1 |]. cbn [Str.endsWith]. rewrite IH2. apply orb_true_r.
    + destruct t as [| h' t'].
      * apply split_on_single in E. subst h.
        cbn [last] in *. cbn [Str.all]. rewrite Ec, IH1. split; [reflexivity |].
        cbn [Str.endsWith]. rewrite String.eqb_refl. reflexivity.
      * change (last (String c h :: h' :: t') "") with (last (h' :: t') "").
        change (last (h :: h' :: t') "") with (last (h' :: t') "") in IH1, IH2.
        split; [exact IH1 |]. cbn [Str.endsWith]. rewrite IH2. apply orb_true_r.
Qed.

Lemma endsWith_trans (a b c : string) :
  Str.endsWith a b = true -> Str.endsWith b c = true -> Str.endsWith a c = true.
Proof.
  induction a as [| x a IH]; cbn [Str.endsWith]; intros Hab Hbc.
  - rewrite orb_false_r in Hab. apply String.eqb_eq in Hab. subst b. exact Hbc.
  - apply orb_prop in Hab. destruct Hab as [Hab | Hab].
    + apply String.eqb_eq in Hab. subst b. exact Hbc.
    + rewrite (IH Hab Hbc). apply orb_true_r.
Qed.

Lemma from_last_dot_spec (s e : string) :
  Str.from_last_dot s = Some e ->
  exists e',
    e = String "." e'
    /\ Str.all (fun c => negb (Ascii.eqb c ".")) e' = true
    /\ Str.endsWith s e = true.
Proof.
  revert e. induction s as [| c s IH]; cbn [Str.from_last_dot]; intros e E.
  - discriminate.
  - destruct (Str.from_last_dot s) as [e0 |] eqn:E0.
    + injection E as <-. destruct (IH e0 eq_refl) as (e' & He & Hall & Hend).
      exists e'. repeat split; try assumption.
      cbn [Str.endsWith]. rewrite Hend. apply orb_true_r.
    + destruct (Ascii.eqb_spec c ".") as [-> | _]; [| discriminate].
      injection E as <-. exists s. repeat split.
      * clear IH. induction s as [| d s IHs]; [reflexivity |].
        cbn [Str.from_last_dot] in E0.
        destruct (Str.from_last_dot s); [discriminate |].
        destruct (Ascii.eqb_spec d ".") as [| Hd]; [discriminate |].
        cbn [Str.all]. rewrite IHs by reflexivity.
        destruct (Ascii.eqb_spec d "."); [contradiction | reflexivity].
      * cbn [Str.endsWith]. now rewrite String.eqb_refl.
Qed.

Lemma all_endsWith (p : ascii -> bool) (s e : string) :
  Str.all p s = true -> Str.endsWith s e = true -> Str.all p e = true.
Proof.
  induction s as [| c s IH]; cbn [Str.endsWith]; intros Hs He.
  - rewrite orb_false_r in He. apply String.eqb_eq in He. now subst e.
  - apply orb_prop in He. destruct He as [He | He].
    + apply String.eqb_eq in He. now subst e.
    + cbn [Str.all] in Hs. apply andb_prop in Hs as [_ Hs]. auto.
Qed.

Lemma endsWith_map (f : ascii -> ascii) (s e : string) :
  Str.endsWith s e = true -> Str.endsWith (Str.map f s) (Str.map f e) = true.
Proof.
  induction s as [| c s IH]; cbn [Str.endsWith]; intros He.
  - rewrite orb_false_r in He. apply String.eqb_eq in He. subst e.
    now vm_compute.
  - apply orb_prop in He. destruct He as [He | He].
    + apply String.eqb_eq in He. subst e. cbn [Str.map Str.endsWith].
      now rewrite String.eqb_refl.
    + cbn [Str.map Str.endsWith]. rewrite (IH He). apply orb_true_r.
Qed.

Lemma lower_keeps_marks (c : ascii) :
  negb (Str.mem c "./") = true ->
  negb (Str.mem (Str.lower_ascii c) "./") && negb (Str.is_upper (Str.lower_ascii c))
  = true.
Proof. StrFacts.by_char c. Qed.

(** X7.  [getExtension] returns the empty string or a dot followed by
    characters that are no dot, no slash and no upper-case letter; and
    what it returns is the end of the lower-cased path, so that only the
    part after the last dot of the last segment counts. *)
Theorem getExtension_shape (pathname : string) :
  (getExtension pathname = ""%string
   \/ exists e,
        getExtension pathname = String "." e
        /\ Str.all (fun c => negb (Str.mem c "./") && negb (Str.is_upper c)) e = true)
  /\ Str.endsWith (Str.toLowerCase pathname) (getExtension pathname) = true.
Proof.
  unfold getExtension.
  destruct ((pathname =? "")%string || Str.endsWith pathname "/") eqn:E0.
  { split; [now left | apply StrFacts.endsWith_nil]. }
  destruct (all_last_split "/" pathname) as [Hns Hend].
  set (clean := last (Str.split_on "/" pathname) "") in *.
  destruct (Str.from_last_dot clean) as [e |] eqn:Ed.
  2:{ split; [now left | apply StrFacts.endsWith_nil]. }
  destruct (from_last_dot_spec clean e Ed) as (e' & -> & Hnd & He).
  split.
  - right. exists (Str.toLowerCase e'). split.
    + unfold Str.toLowerCase. cbn [Str.map]. f_equal.
    + unfold Str.toLowerCase. rewrite StrFacts.all_map.
      pose proof (all_endsWith _ _ _ Hns He) as Hs. cbn [Str.all] in Hs.
      apply andb_prop in Hs as [_ Hs].
      assert (Hboth : Str.all (fun c => negb (Str.mem c "./")) e' = true).
      { clear - Hnd Hs. induction e' as [| c e' IH]; [reflexivity |].
        cbn [Str.all] in *. apply andb_prop in Hnd as [H1 Hnd].
        apply andb_prop in Hs as [H2 Hs]. rewrite (IH Hnd Hs).
        cbn [Str.mem]. apply negb_true_iff in H1, H2. rewrite H1, H2. reflexivity. }
      revert Hboth. apply StrFacts.all_impl. apply lower_keeps_marks.
  - unfold Str.toLowerCase. apply endsWith_map.
    eapply endsWith_trans; eassumption.
Qed.

Lemma html_not_denied (ext : string) :
  Url.mem_string ext HTML_EXTENSIONS = true ->
  Url.mem_string ext NON_HTML_EXTENSIONS = false.
Proof.
  unfold Url.mem_string, HTML_EXTENSIONS. cbn [existsb].
  repeat match goal with
         | |- context [(ext =? ?l)%string] =>
             destruct (String.eqb_spec ext l) as [-> | _]; [intros _; now vm_compute |]
         end.
  discriminate.
Qed.

(** X8.  [isLikelyHtmlPage] is a deny list: the two lists of extensions
    have nothing in common, so a URL is refused exactly when it does not
    parse or the extension of its path is in [NON_HTML_EXTENSIONS]; in
    particular a path that ends in a slash is accepted. *)
Theorem isLikelyHtmlPage_deny_list (raw : string) :
  isLikelyHtmlPage raw
  = match Url.URL_parse raw with
    | None => false
    | Some u =>
        negb (Url.mem_string (getExtension (Str.toLowerCase (Url.pathname u)))
                NON_HTML_EXTENSIONS)
    end
  /\ (forall ext, Url.mem_string ext HTML_EXTENSIONS = true ->
                  Url.mem_string ext NON_HTML_EXTENSIONS = false)
  /\ (forall u, Url.URL_parse raw = Some u ->
                Str.endsWith (Url.pathname u) "/" = true ->
                isLikelyHtmlPage raw = true).
Proof.
  split; [| split; [exact html_not_denied |]].
  - unfold isLikelyHtmlPage. destruct (Url.URL_parse raw) as [u |]; [| reflexivity].
    destruct (Url.mem_string _ HTML_EXTENSIONS) eqn:Eh.
    + now rewrite (html_not_denied _ Eh).
    + now destruct (Url.mem_string _ NON_HTML_EXTENSIONS).
  - intros u Eu Hs. unfold isLikelyHtmlPage. rewrite Eu.
    assert (E : getExtension (Str.toLowerCase (Url.pathname u)) = ""%string).
    { unfold getExtension.
      replace (Str.endsWith (Str.toLowerCase (Url.pathname u)) "/") with true.
      - now rewrite orb_true_r.
      - symmetry. apply (endsWith_map Str.lower_ascii _ "/" Hs). }
    rewrite E. reflexivity.
Qed.

(** ** More about the crawler *)

Section CrawlerFrontier.

Variable localeCompare : string -> string -> comparison.
Variable URL_resolve : string -> string -> option string.
Variable robots_allows : string -> bool.
Variable opts : CrawlOptions.

Local Abbreviation enter := (crawlPage_enter robots_allows opts).
Local Abbreviation resume := (crawlPage_resume localeCompare URL_resolve).
Local Abbreviation cstep := (step localeCompare URL_resolve robots_allows opts).
Local Abbreviation crun := (run localeCompare URL_resolve robots_allows opts).
Local Abbreviation state := (crawlSite_state localeCompare URL_resolve robots_allows opts).
Local Abbreviation crawl := (crawlSite localeCompare URL_resolve robots_allows opts).

(** What [crawlPage] adds to the visited set passed every guard. *)
Lemma crawlPage_enter_visited (t : Task) (st : Crawl) (u : string) :
  In u (visited (enter t st)) ->
  In u (visited st)
  \/ (u = url t
      /\ isLikelyHtmlPage u = true
      /\ (respectRobots opts = true -> robots_allows u = true)
      /\ length (visited st) < maxPages opts).
Proof.
  unfold crawlPage_enter.
  destruct (set_has (visited st) (url t)); [auto |].
  destruct (isLikelyHtmlPage (url t)) eqn:Eh; cbn [negb]; [| auto].
  destruct (respectRobots opts && negb (robots_allows (url t))) eqn:Er; [auto |].
  destruct (maxPages opts <=? length (visited st)) eqn:Em; [auto |].
  apply Nat.leb_gt in Em.
  assert (Hr : respectRobots opts = true -> robots_allows (url t) = true).
  { intros E. rewrite E in Er. simpl in Er. now apply negb_false_iff in Er. }
  destruct (maxDepth opts <=? depth t); simpl; intros H;
    apply set_add_In in H; destruct H as [H | ->]; auto 6.
Qed.

(** Every visited URL passed the guards of [crawlPage]. *)
Lemma visited_guarded (turns : list Turn) (st : Crawl) (u : string) :
  state turns = Some st -> In u (visited st) ->
  isLikelyHtmlPage u = true
  /\ (respectRobots opts = true -> robots_allows u = true).
Proof.
  intros E. unfold crawlSite_state in E.
  destruct (crawlSite_start localeCompare opts) as [st0 |] eqn:E0; [| discriminate].
  revert u.
  set (P := fun s : Crawl => forall u, In u (visited s) ->
              isLikelyHtmlPage u = true
              /\ (respectRobots opts = true -> robots_allows u = true)).
  apply (run_invariant localeCompare URL_resolve robots_allows opts P)
    with (turns := turns) (st := st0); [| | exact E].
  - intros s turn s' Hs Es.
    apply (step_cases localeCompare URL_resolve robots_allows opts P s s' turn Es);
      unfold P.
    + exact Hs.
    + intros i t _ u Hu. apply crawlPage_enter_visited in Hu.
      destruct Hu as [Hu | (-> & Hh & Hr & _)]; [now apply Hs | now split].
    + intros i t o _ u Hu.
      destruct (crawlPage_resume_spec localeCompare URL_resolve t o
                  (mkCrawl (visited s) (queue s) (pending s)
                     (remove_nth i (loading s)) (fetched s) (rejected s)))
        as (Ev & _).
      rewrite Ev in Hu. now apply Hs.
  - unfold crawlSite_start in E0.
    destruct (normalizeUrl localeCompare (baseUrl opts)); [| discriminate].
    destruct (concurrency opts =? 0); [discriminate |].
    injection E0 as <-. intros u [].
Qed.

(** The list [crawlSite] returns is the visited set of the last state. *)
Lemma crawlSite_returns (turns : list Turn) (r : list string) :
  crawl turns = Some r ->
  exists st,
    state turns = Some st /\ r = visited st
    /\ batch_done st = true /\ rejected st = false /\ loop_test opts st = false.
Proof.
  unfold crawlSite. destruct (state turns) as [st |]; [| discriminate].
  destruct (batch_done st) eqn:Eb; [| discriminate].
  destruct (rejected st) eqn:Er; [discriminate |].
  destruct (loop_test opts st) eqn:El; [discriminate |].
  intros [= <-]. exists st. auto.
Qed.

(** X9.  Every URL in the visited set, in every state of a crawl and in
    the list [crawlSite] returns, passed [isLikelyHtmlPage], and was
    allowed by the robots policy when [respectRobots] is set.  When
    [respectRobots] is off the policy is not consulted: the crawl is the
    same under any two policies. *)
Theorem visited_pages_are_allowed_html (turns : list Turn) :
  (forall st u,
     state turns = Some st -> In u (visited st) ->
     isLikelyHtmlPage u = true
     /\ (respectRobots opts = true -> robots_allows u = true))
  /\ (forall r u,
        crawl turns = Some r -> In u r ->
        isLikelyHtmlPage u = true
        /\ (respectRobots opts = true -> robots_allows u = true))
  /\ (forall other : string -> bool,
        respectRobots opts = false ->
        crawlSite localeCompare URL_resolve other opts turns = crawl turns).
Proof.
  split; [intros st u; apply visited_guarded |]. split.
  - intros r u Er Hu.
    destruct (crawlSite_returns turns r Er) as (st & Est & -> & _).
    now apply (visited_guarded turns st).
  - intros other Hoff.
    assert (Hen : forall t s, crawlPage_enter other opts t s = enter t s).
    { intros t s. unfold crawlPage_enter. now rewrite Hoff. }
    assert (Hst : forall s turn,
               step localeCompare URL_resolve other opts s turn = cstep s turn).
    { intros s [| i | i o]; simpl; [reflexivity | | reflexivity].
      destruct (nth_error (pending s) i); [| reflexivity]. now rewrite Hen. }
    assert (Hrun : forall ts s,
               run localeCompare URL_resolve other opts s ts = crun s ts).
    { induction ts as [| turn ts IH]; intros s; simpl; [reflexivity |].
      rewrite Hst. destruct (cstep s turn); [apply IH | reflexivity]. }
    unfold crawlSite, crawlSite_state.
    destruct (crawlSite_start localeCompare opts); [| reflexivity].
    now rewrite Hrun.
Qed.

(** X10.  The crawler opens at most [maxPages] pages: in every state of a
    crawl the tasks that reached the page fetch are no more than
    [maxPages], and the URL of each is in the visited set. *)
Theorem fetched_within_maxPages (turns : list Turn) (st : Crawl) :
  state turns = Some st ->
  length (fetched st) <= maxPages opts
  /\ forall t, In t (fetched st) -> In (url t) (visited st).
Proof.
  intros E.
  destruct (crawl_inv_state localeCompare URL_resolve robots_allows opts turns st E)
    as (start & _ & [Hb _ Ho Hf _]).
  split; [| intros t Ht; now apply Hf].
  rewrite <- (length_map url). etransitivity; [| exact Hb].
  apply NoDup_incl_length; [exact Ho |].
  intros u Hu. apply in_map_iff in Hu. destruct Hu as (t & <- & Ht). now apply Hf.
Qed.

(** The tasks that wait for their page were counted as fetched, and no
    task is deeper than [maxDepth]. *)
Lemma depth_inv_state (turns : list Turn) (st : Crawl) :
  state turns = Some st ->
  (forall t, In t (loading st) -> depth t < maxDepth opts)
  /\ (forall t, holds_task st t -> depth t <= maxDepth opts).
Proof.
  intros E. unfold crawlSite_state in E.
  destruct (crawlSite_start localeCompare opts) as [st0 |] eqn:E0; [| discriminate].
  set (P := fun s : Crawl =>
              (forall t, In t (loading s) -> depth t < maxDepth opts)
              /\ (forall t, holds_task s t -> depth t <= maxDepth opts)).
  apply (run_invariant localeCompare URL_resolve robots_allows opts P)
    with (turns := turns) (st := st0); [| | exact E].
  - intros s turn s' [Hl Hh] Es.
    apply (step_cases localeCompare URL_resolve robots_allows opts P s s' turn Es);
      unfold P.
    + split; simpl; [intros t [] |].
      intros t Ht. apply Hh. unfold holds_task in *. simpl in Ht.
      destruct Ht as [H | [H | [[] | H]]]; eauto using In_skipn, In_firstn.
    + intros i t Hi.
      match goal with |- context [crawlPage_enter _ _ _ ?s0] => set (st1 := s0) end.
      assert (Hsub : forall x, holds_task st1 x -> holds_task s x).
      { unfold holds_task, st1. simpl. intros x [H | [H | [H | H]]]; auto.
        right. left. eapply In_remove_nth. eassumption. }
      destruct (crawlPage_enter_cases robots_allows opts t st1)
        as [_ | _ _ _ _ | _ _ _ Hd].
      * split; [exact Hl | auto].
      * split; simpl; [exact Hl |]. intros x Hx. apply Hh, Hsub. exact Hx.
      * split; simpl.
        -- intros x Hx. apply in_app_or in Hx. destruct Hx as [Hx | [<- | []]]; auto.
        -- intros x Hx. unfold holds_task in Hx. simpl in Hx.
           destruct Hx as [H | [H | [H | H]]].
           ++ apply Hh, Hsub. now left.
           ++ apply Hh, Hsub. right. now left.
           ++ apply in_app_or in H. destruct H as [H | [<- | []]]; [| lia].
              apply Hh, Hsub. right. right. now left.
           ++ apply in_app_or in H. destruct H as [H | [<- | []]]; [| lia].
              apply Hh. right. right. now right.
    + intros i t o Hi.
      assert (Hin : In t (loading s)) by (eapply nth_error_In; eassumption).
      match goal with |- context [crawlPage_resume _ _ _ _ ?s0] => set (st1 := s0) end.
      destruct (crawlPage_resume_spec localeCompare URL_resolve t o st1)
        as (Ev & Ep & El & Ef & Hq).
      split.
      * rewrite El. simpl. intros x Hx. apply Hl. eapply In_remove_nth. eassumption.
      * intros x Hx. unfold holds_task in Hx. rewrite Ep, El, Ef in Hx. simpl in Hx.
        destruct Hx as [H | [H | [H | H]]].
        -- apply Hq in H. destruct H as [H | (Hdep & _)].
           ++ apply Hh. now left.
           ++ specialize (Hl t Hin). lia.
        -- apply Hh. right. now left.
        -- apply Hh. right. right. left. eapply In_remove_nth. eassumption.
        -- apply Hh. right. right. now right.
  - unfold crawlSite_start in E0.
    destruct (normalizeUrl localeCompare (baseUrl opts)) as [start |]; [| discriminate].
    destruct (concurrency opts =? 0); [discriminate |].
    injection E0 as <-. split; simpl; [intros t [] |].
    unfold holds_task. simpl. intros t [[<- | []] | [[] | [[] | []]]]. simpl. lia.
Qed.

(** X11.  No task deeper than [maxDepth] is ever held: the tasks in the
    queue, in the running batch and in the fetch log have a depth of at
    most [maxDepth], and the pages being loaded a depth below it. *)
Theorem queued_depth_within_maxDepth (turns : list Turn) (st : Crawl) (t : Task) :
  state turns = Some st ->
  (In t (queue st) \/ In t (pending st) -> depth t <= maxDepth opts)
  /\ (In t (loading st) \/ In t (fetched st) -> depth t < maxDepth opts).
Proof.
  intros E. destruct (depth_inv_state turns st E) as [Hl Hh].
  destruct (crawl_inv_state localeCompare URL_resolve robots_allows opts turns st E)
    as (start & _ & [_ _ _ Hf _]).
  split.
  - intros [H | H]; apply Hh; unfold holds_task; auto.
  - intros [H | H]; [now apply Hl | now apply Hf].
Qed.

(** The visited set only grows, at its end. *)
Lemma visited_grows (s s' : Crawl) (turn : Turn) :
  cstep s turn = Some s' -> exists more, visited s' = visited s ++ more.
Proof.
  intros Es.
  apply (step_cases localeCompare URL_resolve robots_allows opts
           (fun x => exists more, visited x = visited s ++ more) s s' turn Es).
  - exists []. simpl. now rewrite app_nil_r.
  - intros i t _.
    match goal with |- context [crawlPage_enter _ _ _ ?s0] => set (st1 := s0) end.
    destruct (crawlPage_enter_cases robots_allows opts t st1) as [_ | _ _ _ _ | _ _ _ _];
      simpl; [exists []; now rewrite app_nil_r | eauto | eauto].
  - intros i t o _.
    match goal with |- context [crawlPage_resume _ _ _ _ ?s0] => set (st1 := s0) end.
    destruct (crawlPage_resume_spec localeCompare URL_resolve t o st1) as (Ev & _).
    rewrite Ev. exists []. simpl. now rewrite app_nil_r.
Qed.

(** While nothing is visited only the start task is held and no page is
    being loaded; afterwards the first visited URL is the start URL. *)
Lemma seed_first_inv (start : string) (turns : list Turn) (st st0 : Crawl) :
  st0 = mkCrawl [] [mkTask start 0] [] [] [] false ->
  crun st0 turns = Some st ->
  match visited st with
  | [] =>
      loading st = []
      /\ forall t, In t (queue st) \/ In t (pending st) -> url t = start
  | u :: _ => u = start
  end.
Proof.
  intros E0 E.
  set (P := fun s : Crawl =>
              match visited s with
              | [] =>
                  loading s = []
                  /\ forall t, In t (queue s) \/ In t (pending s) -> url t = start
              | u :: _ => u = start
              end).
  apply (run_invariant localeCompare URL_resolve robots_allows opts P)
    with (turns := turns) (st := st0); [| | exact E].
  - intros s turn s' Hs Es.
    apply (step_cases localeCompare URL_resolve robots_allows opts P s s' turn Es);
      unfold P in *.
    + simpl. destruct (visited s) as [| u vs]; [| exact Hs].
      destruct Hs as [_ Hs]. split; [reflexivity |].
      intros t [H | H]; apply Hs; eauto using In_skipn, In_firstn.
    + intros i t Hi.
      assert (Hin : In t (pending s)) by (eapply nth_error_In; eassumption).
      match goal with |- context [crawlPage_enter _ _ _ ?s0] => set (st1 := s0) end.
      assert (Hsub : forall x, In x (queue st1) \/ In x (pending st1) ->
                               In x (queue s) \/ In x (pending s)).
      { unfold st1. simpl. intros x [H | H]; [now left |].
        right. eapply In_remove_nth. eassumption. }
      destruct (crawlPage_enter_cases robots_allows opts t st1)
        as [_ | _ _ _ _ | _ _ _ _]; simpl.
      * destruct (visited s); [| exact Hs].
        destruct Hs as [Hl Hs]. split; [exact Hl |].
        intros x Hx. apply Hs, Hsub. exact Hx.
      * destruct (visited s); simpl; [| exact Hs].
        destruct Hs as [_ Hs]. apply Hs. now right.
      * destruct (visited s); simpl; [| exact Hs].
        destruct Hs as [_ Hs]. apply Hs. now right.
    + intros i t o Hi.
      match goal with |- context [crawlPage_resume _ _ _ _ ?s0] => set (st1 := s0) end.
      destruct (crawlPage_resume_spec localeCompare URL_resolve t o st1) as (Ev & _).
      rewrite Ev. simpl. destruct (visited s); [| exact Hs].
      destruct Hs as [Hl _]. rewrite Hl in Hi. now destruct i.
  - subst st0. unfold P. simpl. split; [reflexivity |].
    intros t [[<- | []] | []]. reflexivity.
Qed.

(** A crawl whose start URL passes the guards visits it before it can end. *)
Lemma seed_visited (start : string) (turns : list Turn) (st st0 : Crawl) :
  st0 = mkCrawl [] [mkTask start 0] [] [] [] false ->
  concurrency opts <> 0 ->
  isLikelyHtmlPage start = true ->
  (respectRobots opts = true -> robots_allows start = true) ->
  0 < maxPages opts ->
  crun st0 turns = Some st ->
  st = st0
  \/ st = mkCrawl [] [] [mkTask start 0] [] [] false
  \/ visited st <> [].
Proof.
  intros E0 Hc Hh Hr Hm E.
  set (st1 := mkCrawl [] [] [mkTask start 0] [] [] false).
  set (P := fun s : Crawl => s = st0 \/ s = st1 \/ visited s <> []).
  apply (run_invariant localeCompare URL_resolve robots_allows opts P)
    with (turns := turns) (st := st0); [| | exact E].
  - intros s turn s' Hs Es. unfold P in *.
    destruct Hs as [-> | [-> | Hs]].
    + subst st0. destruct turn as [| i | i o]; simpl in Es.
      * destruct (loop_test opts _); [| discriminate]. injection Es as <-.
        right. left. unfold st1.
        destruct (concurrency opts) as [| c]; [contradiction |]. simpl.
        now rewrite firstn_nil, skipn_nil.
      * now destruct i.
      * now destruct i.
    + unfold st1 in Es. destruct turn as [| i | i o]; simpl in Es.
      * discriminate.
      * destruct i as [| i]; simpl in Es; [| now destruct i].
        injection Es as <-. right. right.
        unfold crawlPage_enter. simpl. rewrite Hh. simpl.
        replace (respectRobots opts && negb (robots_allows start)) with false.
        2:{ destruct (respectRobots opts); [| reflexivity].
            now rewrite Hr. }
        replace (maxPages opts <=? 0) with false
          by (symmetry; apply Nat.leb_gt; exact Hm).
        destruct (maxDepth opts <=? 0); simpl; discriminate.
      * now destruct i.
    + right. right. destruct (visited_grows s s' turn Es) as (more & ->).
      destruct (visited s); [contradiction | discriminate].
  - unfold P. now left.
Qed.

(** X12.  The list [crawlSite] returns starts with the normalised start
    URL; it is empty exactly when the start URL fails [isLikelyHtmlPage],
    or is disallowed by robots while [respectRobots] is set, or [maxPages]
    is 0. *)
Theorem crawl_result_starts_at_seed (turns : list Turn) (r : list string)
  (start : string) :
  crawl turns = Some r ->
  normalizeUrl localeCompare (baseUrl opts) = Some start ->
  (r = [] \/ exists rest, r = start :: rest)
  /\ (r = []
      <-> (isLikelyHtmlPage start = false
           \/ (respectRobots opts = true /\ robots_allows start = false)
           \/ maxPages opts = 0)).
Proof.
  intros Er Es.
  destruct (crawlSite_returns turns r Er) as (st & Est & -> & Hb & Hrej & Hl).
  pose proof (fun u => visited_guarded turns st u Est) as Hg.
  destruct (crawl_inv_state localeCompare URL_resolve robots_allows opts turns st Est)
    as (start' & Es' & [Hbud _ _ _ _]).
  unfold crawlSite_state, crawlSite_start in Est. rewrite Es in Est.
  destruct (Nat.eqb_spec (concurrency opts) 0) as [| Hc]; [discriminate |].
  pose proof (seed_first_inv start turns st _ eq_refl Est) as Hfirst.
  assert (Hhead : visited st = [] \/ exists rest, visited st = start :: rest).
  { destruct (visited st) as [| u vs]; [now left |]. right. subst u. eauto. }
  split; [exact Hhead |]. split.
  - intros Hnil.
    destruct (isLikelyHtmlPage start) eqn:Eh; [| now left]. right.
    destruct (respectRobots opts && negb (robots_allows start)) eqn:Erob.
    { left. apply andb_prop in Erob as [E1 E2]. apply negb_true_iff in E2. auto. }
    right. destruct (maxPages opts) as [| m] eqn:Em; [reflexivity |]. exfalso.
    assert (Hr : respectRobots opts = true -> robots_allows start = true).
    { intros E. rewrite E in Erob. simpl in Erob. now apply negb_false_iff in Erob. }
    assert (Hm : 0 < maxPages opts) by lia.
    destruct (seed_visited start turns st _ eq_refl Hc Eh Hr Hm Est)
      as [-> | [-> | Hne]].
    + unfold loop_test in Hl. simpl in Hl. rewrite Em in Hl. discriminate.
    + discriminate.
    + contradiction.
  - intros Href. destruct Hhead as [H | (rest & H)]; [exact H | exfalso].
    assert (Hin : In start (visited st)) by (rewrite H; now left).
    destruct (Hg start Hin) as [Hh Hr].
    destruct Href as [Hf | [[Hon Hoff] | Hz]].
    + congruence.
    + rewrite (Hr Hon) in Hoff. discriminate.
    + rewrite H, Hz in Hbud. simpl in Hbud. lia.
Qed.

Lemma run_app (a b : list Turn) (s : Crawl) :
  crun s (a ++ b)
  = match crun s a with
    | Some s1 => crun s1 b
    | None => None
    end.
Proof.
  revert s. induction a as [| turn a IH]; intros s; simpl; [reflexivity |].
  destruct (cstep s turn); [apply IH | reflexivity].
Qed.

(** Once a call of [crawlPage] has rejected (the browser could not
    open or close a context) the crawl stays rejected, takes no further
    batch, and [crawlSite] returns no list, whatever turns follow. *)
Lemma rejected_crawl_returns_nothing (turns more : list Turn) (st : Crawl) :
  state turns = Some st -> rejected st = true ->
  crawl (turns ++ more) = None
  /\ (forall st', state (turns ++ more) = Some st' -> rejected st' = true)
  /\ cstep st NextBatch = None.
Proof.
  intros E Hrej.
  assert (Hkeep : forall ts s s',
             rejected s = true -> crun s ts = Some s' -> rejected s' = true).
  { intros ts s s' Hs.
    apply (run_invariant localeCompare URL_resolve robots_allows opts
             (fun x => rejected x = true)); [| exact Hs].
    intros x turn x' Hx Ex.
    apply (step_cases localeCompare URL_resolve robots_allows opts
             (fun y => rejected y = true) x x' turn Ex).
    - exact Hx.
    - intros i t _.
      match goal with |- context [crawlPage_enter _ _ _ ?s0] => set (st1 := s0) end.
      destruct (crawlPage_enter_cases robots_allows opts t st1)
        as [_ | _ _ _ _ | _ _ _ _]; exact Hx.
    - intros i t o _. unfold crawlPage_resume, enqueue_links.
      destruct (opens o); cbn [negb]; [| reflexivity].
      destruct (closes o); [| destruct (hrefs o); reflexivity].
      destruct (hrefs o) as [links |]; [| exact Hx].
      destruct (candidates _ _ _ _); exact Hx. }
  assert (Hstate : forall st', state (turns ++ more) = Some st' -> rejected st' = true).
  { intros st' E'. unfold crawlSite_state in *.
    destruct (crawlSite_start localeCompare opts) as [st0 |]; [| discriminate].
    rewrite run_app, E in E'. eapply Hkeep; eassumption. }
  split; [| split; [exact Hstate |]].
  - unfold crawlSite. destruct (state (turns ++ more)) as [st' |] eqn:E'; [| reflexivity].
    rewrite (Hstate st' eq_refl). cbn [negb]. now rewrite andb_false_r.
  - simpl. rewrite Hrej. cbn [negb]. now rewrite andb_false_r.
Qed.

End CrawlerFrontier.

(** ** More about the sitemap harvester *)

Section HarvesterMore.

Variable localeCompare : string -> string -> comparison.
Variable URL_resolve : string -> string -> option string.
Variable axios_get : History -> string -> Reply.
Variable Date_now : History -> Z.
Variable Number_other : string -> option Q.
Variable Date_parse : string -> option Z.
Variable parseStringPromise : string -> XmlResult.

Local Abbreviation retryAfterMs := (parseRetryAfterMs Number_other Date_parse).
Local Abbreviation attempt_of := (fetchXml_attempt Number_other Date_parse).
Local Abbreviation loop := (fetchXml_loop axios_get Date_now Number_other Date_parse).
Local Abbreviation fetch := (fetchXml axios_get Date_now Number_other Date_parse).
Local Abbreviation harvest :=
  (parseSitemapUrls localeCompare URL_resolve axios_get Date_now Number_other
     Date_parse parseStringPromise).

Lemma backoff_nonneg (attempt : Z) : (0 <= backoff attempt)%Z.
Proof.
  unfold backoff. apply Z.min_glb; [lia |].
  pose proof (Z.pow_nonneg 2 attempt ltac:(lia)). lia.
Qed.

Lemma retryAfterMs_nonneg (now : Z) (retryAfter : string) (ms : Z) :
  retryAfterMs now retryAfter = Some ms -> (0 <= ms)%Z.
Proof.
  unfold parseRetryAfterMs. destruct (retryAfter =? "")%string; [discriminate |].
  destruct (Number_ Number_other retryAfter) as [q |].
  { intros [= <-]. apply Z.le_max_l. }
  destruct (Date_parse retryAfter) as [date |]; [| discriminate].
  intros [= <-]. destruct (Z.ltb_spec 0 (date - now)); lia.
Qed.

(** X13.  [parseRetryAfterMs] never gives a negative delay: a number of
    seconds below zero and a date in the past both give 0.  It gives
    [null] exactly for an empty header and for one that is neither a
    number nor a date. *)
Theorem parseRetryAfterMs_nonnegative (now : Z) (retryAfter : string) :
  (forall ms, retryAfterMs now retryAfter = Some ms -> (0 <= ms)%Z)
  /\ (retryAfterMs now retryAfter = None
      <-> retryAfter = ""%string
          \/ (Number_ Number_other retryAfter = None
              /\ Date_parse retryAfter = None)).
Proof.
  split; [apply retryAfterMs_nonneg |].
  unfold parseRetryAfterMs.
  destruct (String.eqb_spec retryAfter "") as [-> | Hne]; [tauto |].
  destruct (Number_ Number_other retryAfter) as [q |].
  { split; [discriminate | intros [H | [H _]]; [contradiction | discriminate]]. }
  destruct (Date_parse retryAfter) as [date |]; [| tauto].
  split; [discriminate | intros [H | [_ H]]; [contradiction | discriminate]].
Qed.

Lemma attempt_sleep_nonneg (attempt : Z) (lastError : option FetchError) (now : Z)
  (reply : Reply) (lastError' : option FetchError) (ms : Z) :
  attempt_of attempt lastError now reply = Again lastError' (Some ms) -> (0 <= ms)%Z.
Proof.
  assert (Herr : forall e, on_error attempt e = Again lastError' (Some ms) -> (0 <= ms)%Z).
  { intros e. unfold on_error. destruct (attempt <? maxAttempts)%Z; [| discriminate].
    intros [= _ <-]. apply backoff_nonneg. }
  destruct reply as [| res]; cbn [fetchXml_attempt]; [apply Herr |].
  destruct ((200 <=? status res)%Z && (status res <? 300)%Z).
  - destruct (negb (looksXml (data res)) && negb _); [apply Herr | discriminate].
  - destruct ((status res =? 429)%Z || (status res =? 503)%Z); [| apply Herr].
    intros [= _ <-].
    destruct (retryAfterMs now (retry_after res)) as [ms' |] eqn:E.
    + now apply (retryAfterMs_nonneg now (retry_after res)).
    + apply backoff_nonneg.
Qed.

(** X14.  All [fetchXml(url)] does to the outside world is to request
    [url] and to sleep for a time that is not negative; when it returns a
    body, that body is the data of the last reply it got, which was an
    accepted one, and nothing follows that request. *)
Theorem fetchXml_only_requests_url (url : string) (h : History) :
  exists evs,
    snd (fetch url h) = h ++ evs
    /\ Forall (fetch_event url) evs
    /\ forall body,
         fst (fetch url h) = inl body ->
         exists evs0 res,
           evs = evs0 ++ [Get url]
           /\ axios_get (h ++ evs0) url = Replied res
           /\ accepted (Replied res) = true
           /\ data res = body.
Proof.
  unfold fetchXml. generalize (Z.to_nat maxAttempts) as left.
  generalize 1%Z as attempt. generalize (@None FetchError) as lastError.
  intros lastError attempt left. revert attempt lastError h.
  induction left as [| left IH]; intros attempt lastError h.
  - exists []. rewrite app_nil_r. simpl. repeat split; [constructor | discriminate].
  - cbn [fetchXml_loop].
    pose proof (attempt_accept Number_other Date_parse attempt lastError
                  (Date_now (h ++ [Get url])) (axios_get h url)) as Hacc.
    destruct (attempt_of attempt lastError (Date_now (h ++ [Get url]))
                (axios_get h url)) as [body | lastError' sleep] eqn:Ea.
    + exists [Get url]. simpl. repeat split.
      * constructor; [reflexivity | constructor].
      * intros body' [= <-]. destruct (axios_get h url) as [| res] eqn:Er;
          [discriminate |].
        exists [], res. rewrite app_nil_r. repeat split; try assumption.
        cbn [fetchXml_attempt] in Ea.
        destruct ((200 <=? status res)%Z && (status res <? 300)%Z).
        -- destruct (negb (looksXml (data res)) && negb _) in Ea; [discriminate |].
           now injection Ea.
        -- destruct ((status res =? 429)%Z || (status res =? 503)%Z); discriminate.
    + match goal with
      | |- context [fetchXml_loop _ _ _ _ _ left _ lastError' ?x] => set (h' := x)
      end.
      destruct (IH (attempt + 1)%Z lastError' h') as (evs & E & Hev & Hbody).
      set (pre := match sleep with
                  | Some ms => [Get url; Sleep ms]
                  | None => [Get url]
                  end).
      assert (Eh : h' = h ++ pre).
      { unfold h', pre. destruct sleep; [now rewrite <- app_assoc | reflexivity]. }
      exists (pre ++ evs). split; [| split].
      * rewrite E, Eh, app_assoc. reflexivity.
      * apply Forall_app. split; [| exact Hev].
        unfold pre. destruct sleep as [ms |].
        -- constructor; [reflexivity |]. constructor; [| constructor].
           eapply attempt_sleep_nonneg. exact Ea.
        -- constructor; [reflexivity | constructor].
      * intros body Hb. destruct (Hbody body Hb) as (evs0 & res & -> & Hr & Ha & Hd).
        exists (pre ++ evs0), res. rewrite Eh, <- app_assoc in Hr.
        rewrite app_assoc. auto.
Qed.

Lemma failure_attempt (reply : Reply) :
  failure reply = true ->
  exists e,
    e <> UnknownError
    /\ forall attempt lastError now,
         attempt_of attempt lastError now reply = on_error attempt e.
Proof.
  unfold failure, retryable, accepted. destruct reply as [| res].
  - intros _. exists RequestFailed. split; [discriminate | reflexivity].
  - intros H. apply andb_prop in H as [Ha Hr].
    apply negb_true_iff in Ha, Hr.
    destruct ((200 <=? status res)%Z && (status res <? 300)%Z) eqn:E2.
    + exists NotXml. split; [discriminate |]. intros attempt lastError now.
      cbn [fetchXml_attempt]. rewrite E2. cbn [andb] in Ha.
      apply orb_false_elim in Ha as [Ha H3]. apply orb_false_elim in Ha as [H1 H2].
      now rewrite H1, H2, H3.
    + exists (BadStatus (status res)). split; [discriminate |].
      intros attempt lastError now. cbn [fetchXml_attempt]. now rewrite E2, Hr.
Qed.

Lemma retryable_attempt (reply : Reply) :
  retryable reply = true ->
  forall attempt lastError now,
  exists ms, attempt_of attempt lastError now reply = Again lastError (Some ms).
Proof.
  unfold retryable. destruct reply as [| res]; [discriminate |].
  intros H attempt lastError now. cbn [fetchXml_attempt]. rewrite H.
  replace ((200 <=? status res)%Z && (status res <? 300)%Z) with false.
  - eauto.
  - apply orb_prop in H. destruct H as [H | H]; apply Z.eqb_eq in H; now rewrite H.
Qed.

Lemma loop_failure_step (url : string) (left : nat) (attempt : Z)
  (lastError : option FetchError) (h : History) :
  failure (axios_get h url) = true ->
  exists e,
    e <> UnknownError
    /\ loop url (S left) attempt lastError h
       = loop url left (attempt + 1)%Z (Some e)
           (if (attempt <? maxAttempts)%Z
            then h ++ [Get url; Sleep (backoff attempt)]
            else h ++ [Get url]).
Proof.
  intros Hf. destruct (failure_attempt _ Hf) as (e & He & Ha).
  exists e. split; [exact He |]. cbn [fetchXml_loop]. rewrite Ha. unfold on_error.
  destruct (attempt <? maxAttempts)%Z; [now rewrite <- app_assoc | reflexivity].
Qed.

Lemma loop_retryable_step (url : string) (left : nat) (attempt : Z)
  (lastError : option FetchError) (h : History) :
  retryable (axios_get h url) = true ->
  exists ms,
    loop url (S left) attempt lastError h
    = loop url left (attempt + 1)%Z lastError (h ++ [Get url; Sleep ms]).
Proof.
  intros Hr.
  destruct (retryable_attempt _ Hr attempt lastError (Date_now (h ++ [Get url])))
    as (ms & Ha).
  exists ms. cbn [fetchXml_loop]. rewrite Ha. now rewrite <- app_assoc.
Qed.


Lemma collect_urlset_on_site (base : string) (baseUrl : Url.URL)
  (items urls urls' : list string) :
  collect_urlset localeCompare URL_resolve base baseUrl items urls = Some urls' ->
  (NoDup urls -> NoDup urls')
  /\ forall u, In u urls' ->
       In u urls \/ (canonical localeCompare u /\ isSameHost base u = Some true).
Proof.
  revert urls. induction items as [| loc r IH]; intros urls; cbn [collect_urlset].
  - intros [= <-]. auto.
  - destruct (loc =? "")%string; [apply IH |].
    destruct (URL_resolve loc base) as [absolute |]; [| apply IH].
    destruct (absolute =? "")%string; [apply IH |].
    destruct (normalizeUrl localeCompare _) as [normalized |] eqn:En; [| discriminate].
    destruct (isSameHost base normalized) as [[|] |] eqn:Es; [| apply IH | discriminate].
    intros E. destruct (IH _ E) as [H1 H2]. split.
    + intros H. apply H1. now apply set_add_NoDup.
    + intros u Hu. destruct (H2 u Hu) as [H | H]; [| now right].
      apply set_add_In in H. destruct H as [H | ->]; [now left |].
      right. split; [eexists; exact En | exact Es].
Qed.

Lemma collect_index_on_site
  (nested : string -> History -> Outcome (list string) * History)
  (P : string -> Prop) (base : string) (baseUrl : Url.URL) :
  (forall u h us h', nested u h = (Returned us, h') -> forall x, In x us -> P x) ->
  forall items urls h urls' h',
    collect_index URL_resolve nested base baseUrl items urls h = (Returned urls', h') ->
    (NoDup urls -> NoDup urls')
    /\ forall u, In u urls' -> In u urls \/ P u.
Proof.
  intros Hn. induction items as [| loc r IH]; intros urls h urls' h';
    cbn [collect_index].
  - intros [= <- <-]. auto.
  - destruct (loc =? "")%string; [apply IH |].
    destruct (URL_resolve loc base) as [abs |]; [| apply IH].
    destruct (abs =? "")%string; [apply IH |].
    destruct (nested _ h) as [[us | |] h1] eqn:E1; [| discriminate | discriminate].
    intros E. destruct (IH _ _ _ _ E) as [H1 H2].
    destruct (fold_set_add_spec us urls) as [F1 F2]. split.
    + intros H. auto.
    + intros u Hu. destruct (H2 u Hu) as [H | H]; [| now right].
      apply F2 in H. destruct H as [H | H]; [now left |].
      right. eapply Hn; eassumption.
Qed.

(** What [parseSitemapUrls] returns, by induction on the depth of the
    nested calls. *)
Lemma harvest_on_site (fuel : nat) (sitemapUrl base : string)
  (h h' : History) (urls : list string) :
  harvest fuel sitemapUrl base h = (Returned urls, h') ->
  NoDup urls
  /\ forall u, In u urls ->
       canonical localeCompare u /\ isSameHost base u = Some true.
Proof.
  revert sitemapUrl h h' urls.
  induction fuel as [| fuel IH]; intros sitemapUrl h h' urls; cbn [parseSitemapUrls].
  - discriminate.
  - destruct (fetch sitemapUrl h) as [[xml | e] h1].
    2:{ intros [= <- <-]. split; [constructor | intros u []]. }
    destruct (parseStringPromise xml) as [| | doc].
    + intros [= <- <-]. split; [constructor | intros u []].
    + destruct (Url.URL_parse base); discriminate.
    + destruct (Url.URL_parse base) as [baseUrl |]; [| discriminate].
      destruct (collect_urlset _ _ base baseUrl (urlset_url doc) []) as [us |] eqn:Eu;
        [| discriminate].
      destruct (collect_urlset_on_site _ _ _ _ _ Eu) as [U1 U2].
      intros E.
      destruct (collect_index_on_site
                  (fun u h0 => harvest fuel u base h0)
                  (fun u => canonical localeCompare u /\ isSameHost base u = Some true)
                  base baseUrl
                  (fun u h0 us0 h0' E0 x Hx => proj2 (IH u h0 h0' us0 E0) x Hx)
                  _ _ _ _ _ E) as [I1 I2].
      split.
      * apply I1, U1. constructor.
      * intros u Hu. destruct (I2 u Hu) as [H | H]; [| exact H].
        destruct (U2 u H) as [[] | H']. exact H'.
Qed.


Local Abbreviation harvest_all :=
  (discover_sitemaps localeCompare URL_resolve axios_get Date_now Number_other
     Date_parse parseStringPromise).

(** The loop of [discover] over the sitemaps: what it adds to the set. *)
Lemma harvest_all_on_site (fuel : nat) (base : string) (sitemaps : list string) :
  forall acc h urls h',
    harvest_all fuel sitemaps base acc h = (Returned urls, h') ->
    (NoDup acc -> NoDup urls)
    /\ forall u, In u urls ->
         In u acc \/ (canonical localeCompare u /\ isSameHost base u = Some true).
Proof.
  induction sitemaps as [| sm r IH]; intros acc h urls h'; cbn [discover_sitemaps].
  - intros [= <- <-]. auto.
  - destruct (harvest fuel sm base h) as [[us | |] h1] eqn:Eh;
      [| discriminate | discriminate].
    destruct (map_throw (normalizeUrl localeCompare) us) as [ns |] eqn:Em;
      [| discriminate].
    intros E. destruct (IH _ _ _ _ E) as [H1 H2].
    destruct (fold_set_add_spec ns acc) as [F1 F2]. split; [auto |].
    intros u Hu. destruct (H2 u Hu) as [H | H]; [| now right].
    apply F2 in H. destruct H as [H | H]; [now left | right].
    destruct (map_throw_In _ _ _ _ Em H) as (raw & Hraw & Hn).
    split; [now exists raw |].
    destruct (harvest_on_site fuel sm base h h1 us Eh) as [_ Hsite].
    destruct (Hsite raw Hraw) as [_ Hsame].
    now rewrite (proj2 (isSameHost_normalizeUrl localeCompare raw u base Hn)).
Qed.

(** X16.  The list [parseSitemapUrls] returns has no duplicates, and
    every URL in it, also those that come from nested sitemaps, was
    returned by [normalizeUrl] and is on the same host as [base].  The
    same holds of the set [discover] collects from the sitemaps, where
    each URL is normalised once more. *)
Theorem sitemap_urls_on_site (fuel : nat) (base : string) :
  (forall sitemapUrl h h' urls,
     harvest fuel sitemapUrl base h = (Returned urls, h') ->
     NoDup urls
     /\ forall u, In u urls ->
          canonical localeCompare u /\ isSameHost base u = Some true)
  /\ (forall sitemaps h h' urls,
        harvest_all fuel sitemaps base [] h = (Returned urls, h') ->
        NoDup urls
        /\ forall u, In u urls ->
             canonical localeCompare u /\ isSameHost base u = Some true).
Proof.
  split.
  - intros sitemapUrl h h' urls. apply harvest_on_site.
  - intros sitemaps h h' urls E.
    destruct (harvest_all_on_site fuel base sitemaps [] h urls h' E) as [H1 H2].
    split; [apply H1; constructor |].
    intros u Hu. destruct (H2 u Hu) as [[] | H]. exact H.
Qed.

End HarvesterMore.

(** *** Rewriting to a local base *)


(** *** The XML sniffing *)

Lemma strip_prefix_ci_app (kw s rest t : string) :
  strip_prefix_ci kw s = Some rest ->
  strip_prefix_ci kw (s ++ t) = Some (rest ++ t)%string.
Proof.
  revert s. induction kw as [| k kw IH]; intros s; cbn [strip_prefix_ci].
  - now intros [= ->].
  - destruct s as [| c s]; [discriminate |]. cbn [String.append].
    destruct (Ascii.eqb (Str.lower_ascii c) k); [apply IH | discriminate].
Qed.

Lemma drop_while_app (p : ascii -> bool) (s t : string) :
  Str.drop_while p s <> ""%string ->
  Str.drop_while p (s ++ t) = (Str.drop_while p s ++ t)%string.
Proof.
  induction s as [| c s IH]; cbn [Str.drop_while String.append]; [congruence |].
  destruct (p c); [exact IH | reflexivity].
Qed.

Lemma tag_here_app (s t : string) :
  tag_here s = true -> tag_here (s ++ t) = true.
Proof.
  unfold tag_here. rewrite !existsb_exists.
  intros (kw & Hin & H). exists kw. split; [exact Hin |].
  destruct (strip_prefix_ci kw (Str.drop_while is_space s)) as [[| c r] |] eqn:E;
    try discriminate.
  assert (Hne : Str.drop_while is_space s <> ""%string).
  { intros E0. rewrite E0 in E.
    destruct Hin as [<- | [<- | [<- | []]]]; discriminate. }
  rewrite (drop_while_app _ _ t Hne), (strip_prefix_ci_app _ _ _ t E). exact H.
Qed.

(** The test for XML in [fetchXml] looks for an opening tag
    anywhere in the body: a body that passes it still passes with any text
    before and after it, and a body that holds [<urlset>],
    [<sitemapindex>] or an XML declaration passes it in any letter case. *)
Lemma looksXml_anywhere (before body after : string) :
  (looksXml body = true -> looksXml (before ++ body ++ after) = true)
  /\ looksXml (before ++ "<urlset>" ++ after) = true
  /\ looksXml (before ++ "<SiteMapIndex " ++ after) = true
  /\ looksXml (before ++ "<?xml " ++ after) = true.
Proof.
  assert (Hpre : forall a b, looksXml b = true -> looksXml (a ++ b) = true).
  { induction a as [| c a IH]; intros b Hb; cbn [String.append looksXml];
      [exact Hb |]. rewrite (IH b Hb). apply orb_true_r. }
  assert (Hpost : forall b c, looksXml b = true -> looksXml (b ++ c) = true).
  { induction b as [| x b IH]; intros c; cbn [String.append looksXml];
      [discriminate |].
    intros H. apply orb_prop in H. destruct H as [H | H].
    - apply andb_prop in H as [H1 H2]. now rewrite H1, (tag_here_app b c H2).
    - rewrite (IH c H). apply orb_true_r. }
  repeat split.
  - intros H. apply Hpre, Hpost, H.
  - apply Hpre, (Hpost "<urlset>"). reflexivity.
  - apply Hpre, (Hpost "<SiteMapIndex "). reflexivity.
  - apply Hpre, (Hpost "<?xml "). reflexivity.
Qed.

(** ** The robots file and the list of sitemaps *)

Lemma map_throw_None {A B} (f : A -> option B) (xs : list A) (x : A) :
  In x xs -> f x = None -> map_throw f xs = None.
Proof.
  induction xs as [| y xs IH]; simpl; [intros [] |].
  intros [-> | H] Hx; [now rewrite Hx |].
  destruct (f y); [| reflexivity]. now rewrite (IH H Hx).
Qed.

Lemma fold_set_add_head (us : list string) (x : string) (acc : list string) :
  hd_error (fold_left set_add us (x :: acc)) = Some x.
Proof.
  revert acc. induction us as [| u us IH]; intros acc; simpl; [reflexivity |].
  unfold set_add at 2. destruct (set_has (x :: acc) u); [apply IH |].
  simpl. apply IH.
Qed.

Lemma set_add_head (s : list string) (x y : string) :
  hd_error s = Some x -> hd_error (set_add s y) = Some x.
Proof.
  unfold set_add. destruct (set_has s y); [auto |].
  destruct s; [discriminate | auto].
Qed.

Section RobotsProps.

Variable localeCompare : string -> string -> comparison.
Variable URL_resolve : string -> string -> option string.
Variable robots_get : string -> Reply.
Variable robotsParser : string -> string -> RobotsTxt.

Local Abbreviation robots_of := (parseRobots localeCompare URL_resolve robots_get robotsParser).
Local Abbreviation discover_of :=
  (discoverSitemaps localeCompare URL_resolve robots_get robotsParser).
Local Abbreviation crawl_of :=
  (crawlSite_robots localeCompare URL_resolve robots_get robotsParser).

(** X18.  The list [discoverSitemaps] returns starts with
    [/sitemap.xml] resolved against the base, has no duplicates, and holds
    exactly that URL, the sitemaps of the robots file, each as
    [normalizeUrl] returned it, and the explicit sitemap when one is given
    and not empty. *)
Theorem discoverSitemaps_lists (base : string) (explicit : option string)
  (found : list string) :
  discover_of base explicit = Some found ->
  exists dflt robots,
    URL_resolve "/sitemap.xml" base = Some dflt
    /\ robots_of base = Some robots
    /\ hd_error found = Some dflt
    /\ NoDup found
    /\ (forall u, In u found
                  <-> u = dflt \/ In u (sitemaps robots)
                      \/ (explicit = Some u /\ u <> ""%string))
    /\ forall u, In u (sitemaps robots) -> canonical localeCompare u.
Proof.
  unfold discoverSitemaps.
  destruct (URL_resolve "/sitemap.xml" base) as [dflt |]; [| discriminate].
  destruct (robots_of base) as [robots |] eqn:Er; [| discriminate].
  intros [= <-]. exists dflt, robots.
  split; [reflexivity |]. split; [reflexivity |].
  cbn [fold_left]. change (set_add [] dflt) with [dflt].
  set (base_set := fold_left set_add (sitemaps robots) [dflt]).
  assert (Hhd : hd_error base_set = Some dflt) by apply fold_set_add_head.
  assert (Hnd : NoDup base_set).
  { apply fold_set_add_spec. constructor; [intros [] | constructor]. }
  assert (Hin : forall u, In u base_set <-> u = dflt \/ In u (sitemaps robots)).
  { intros u. unfold base_set. rewrite (proj2 (fold_set_add_spec _ _)). simpl.
    intuition congruence. }
  split; [| split; [| split]].
  - destruct explicit as [e |]; [| exact Hhd].
    destruct (e =? "")%string; [exact Hhd | now apply set_add_head].
  - destruct explicit as [e |]; [| exact Hnd].
    destruct (e =? "")%string; [exact Hnd | now apply set_add_NoDup].
  - intros u. destruct explicit as [e |].
    + destruct (e =? "")%string eqn:Ee.
      * apply String.eqb_eq in Ee. subst e. rewrite Hin. split; [tauto |].
        intros [H | [H | [[= <-] H]]]; [auto | auto | contradiction].
      * apply String.eqb_neq in Ee. rewrite set_add_In, Hin. split.
        -- intros [[H | H] | ->]; auto.
        -- intros [H | [H | [[= <-] _]]]; auto.
    + rewrite Hin. split; [tauto |]. intros [H | [H | [H _]]]; [auto | auto | discriminate].
  - intros u Hu. unfold parseRobots in Er.
    destruct (fetchRobots URL_resolve robots_get base) as [[[url body] |] |];
      [| | discriminate].
    + destruct (map_throw _ _) as [sms |] eqn:Em; [| discriminate].
      injection Er as <-. cbn [sitemaps] in Hu.
      destruct (map_throw_In _ _ _ _ Em Hu) as (raw & _ & Hraw). now exists raw.
    + injection Er as <-. destruct Hu.
Qed.

(** X19.  When the robots file cannot be had (the request fails or the
    status is not 2xx), [parseRobots] allows every URL and lists no
    sitemap; [discoverSitemaps] then returns the default sitemap, followed
    by the explicit one when that is another, non-empty string; and
    [crawlSite] crawls as under a policy that allows everything. *)
Theorem robots_unavailable (base robotsUrl : string) :
  URL_resolve "/robots.txt" base = Some robotsUrl ->
  (robots_get robotsUrl = NetworkError
   \/ exists res, robots_get robotsUrl = Replied res
                  /\ (status res < 200 \/ 300 <= status res)%Z) ->
  (exists robots,
     robots_of base = Some robots
     /\ (forall u, allows robots u = true) /\ sitemaps robots = [])
  /\ (forall dflt explicit,
        URL_resolve "/sitemap.xml" base = Some dflt ->
        discover_of base explicit
        = Some (match explicit with
                | Some e =>
                    if (e =? "")%string || (e =? dflt)%string then [dflt]
                    else [dflt; e]
                | None => [dflt]
                end))
  /\ (forall opts turns,
        normalizeUrl localeCompare (baseUrl opts) = Some base ->
        crawl_of opts turns
        = crawlSite localeCompare URL_resolve (fun _ => true) opts turns).
Proof.
  intros Eu Hget.
  assert (Ef : fetchRobots URL_resolve robots_get base = Some None).
  { unfold fetchRobots. rewrite Eu. destruct Hget as [-> | (res & -> & Hs)];
      [reflexivity |].
    replace ((200 <=? status res)%Z && (status res <? 300)%Z) with false;
      [reflexivity |].
    symmetry. apply andb_false_iff.
    destruct Hs as [H | H]; [left; apply Z.leb_gt | right; apply Z.ltb_ge]; exact H. }
  assert (Er : robots_of base = Some (mkRobots (fun _ => true) [])).
  { unfold parseRobots. now rewrite Ef. }
  split; [| split].
  - eexists. split; [exact Er |]. split; reflexivity.
  - intros dflt explicit Ed. unfold discoverSitemaps. rewrite Ed, Er.
    cbn [sitemaps fold_left]. change (set_add [] dflt) with [dflt].
    destruct explicit as [e |]; [| reflexivity].
    destruct (e =? "")%string; [reflexivity |]. cbn [orb].
    unfold set_add, set_has. cbn [existsb]. rewrite orb_false_r.
    now destruct (e =? dflt)%string.
  - intros opts turns En. unfold crawlSite_robots. now rewrite En, Er.
Qed.

(** X20.  A sitemap line of the robots file that [normalizeUrl] cannot
    parse makes [parseRobots] throw, and with it [discoverSitemaps] and
    [crawlSite]: the line is normalised outside every [try]. *)
Theorem robots_sitemap_line_must_parse (base robotsUrl line : string)
  (res : Response) :
  URL_resolve "/robots.txt" base = Some robotsUrl ->
  robots_get robotsUrl = Replied res ->
  (200 <= status res < 300)%Z ->
  In line (getSitemaps (robotsParser robotsUrl (data res))) ->
  normalizeUrl localeCompare line = None ->
  robots_of base = None
  /\ (forall explicit, discover_of base explicit = None)
  /\ (forall opts turns,
        normalizeUrl localeCompare (baseUrl opts) = Some base ->
        crawl_of opts turns = None).
Proof.
  intros Eu Eg Hs Hin Hbad.
  assert (Er : robots_of base = None).
  { unfold parseRobots, fetchRobots. rewrite Eu, Eg.
    replace ((200 <=? status res)%Z && (status res <? 300)%Z) with true.
    - now rewrite (map_throw_None _ _ line Hin Hbad).
    - symmetry. apply andb_true_iff. split; [apply Z.leb_le | apply Z.ltb_lt]; lia. }
  split; [exact Er |]. split.
  - intros explicit. unfold discoverSitemaps. rewrite Er.
    now destruct (URL_resolve "/sitemap.xml" base).
  - intros opts turns En. unfold crawlSite_robots. now rewrite En, Er.
Qed.

End RobotsProps.

(** ** The list [discover] writes *)

Section DiscoverProps.

Variable localeCompare : string -> string -> comparison.
Variable URL_resolve : string -> string -> option string.
Variable robots_get : string -> Reply.
Variable robots_again : string -> Reply.
Variable robotsParser : string -> string -> RobotsTxt.
Variable axios_get : History -> string -> Reply.
Variable Date_now : History -> Z.
Variable Number_other : string -> option Q.
Variable Date_parse : string -> option Z.
Variable parseStringPromise : string -> XmlResult.

Local Abbreviation discover_of :=
  (discover localeCompare URL_resolve robots_get robots_again robotsParser axios_get
     Date_now Number_other Date_parse parseStringPromise).


End DiscoverProps.

(** ** The scan loop *)

Lemma all_drop_while (p q : ascii -> bool) (s : string) :
  Str.all q s = true -> Str.all q (Str.drop_while p s) = true.
Proof.
  induction s as [| c s IH]; cbn [Str.drop_while]; [auto |].
  intros H. destruct (p c); [| exact H].
  cbn [Str.all] in H. apply andb_prop in H as [_ H]. auto.
Qed.

Lemma drop_trailing_cons (p : ascii -> bool) (c : ascii) (r : string) :
  drop_trailing p (String c r) = ""%string
  \/ exists r', drop_trailing p (String c r) = String c r'
                /\ (r' = ""%string \/ r' = drop_trailing p r).
Proof.
  cbn [drop_trailing]. destruct (drop_trailing p r) as [| d r'] eqn:E.
  - destruct (p c); [now left | right; eauto].
  - right. eauto.
Qed.

Lemma all_drop_trailing (p q : ascii -> bool) (s : string) :
  Str.all q s = true -> Str.all q (drop_trailing p s) = true.
Proof.
  induction s as [| c s IH]; [auto |]. intros H.
  cbn [Str.all] in H. apply andb_prop in H as [Hc Hs]. specialize (IH Hs).
  cbn [drop_trailing]. destruct (drop_trailing p s) as [| d r'].
  - destruct (p c); [reflexivity |]. cbn [Str.all]. now rewrite Hc.
  - cbn [Str.all] in *. now rewrite Hc, IH.
Qed.

Lemma drop_trailing_end (p : ascii -> bool) (s : string) (c : ascii) :
  Str.endsWith (drop_trailing p s) (String c "") = true -> p c = false.
Proof.
  induction s as [| d s IH]; [discriminate |].
  cbn [drop_trailing]. destruct (drop_trailing p s) as [| e r'] eqn:E.
  - destruct (p d) eqn:Ed; [discriminate |].
    cbn [Str.endsWith]. rewrite orb_false_r. intros H.
    apply String.eqb_eq in H. injection H as <-. exact Ed.
  - intros H. apply IH. cbn [Str.endsWith] in H. apply orb_prop in H.
    destruct H as [H | H]; [| exact H].
    apply String.eqb_eq in H. discriminate.
Qed.

Lemma dash_runs_chars (in_run : bool) (s : string) :
  Str.all name_char (Axe.dash_runs in_run s) = true.
Proof.
  revert in_run. induction s as [| c s IH]; intros in_run; [reflexivity |].
  cbn [Axe.dash_runs]. destruct (Axe.is_alnum c) eqn:Ec.
  - cbn [Str.all]. unfold name_char at 1. now rewrite Ec, IH.
  - destruct in_run; [apply IH |]. cbn [Str.all]. now rewrite IH.
Qed.

Lemma name_char_lower (c : ascii) :
  name_char c = true -> name_char (Str.lower_ascii c) = true.
Proof. StrFacts.by_char c. Qed.

Lemma digit_name_char (c : ascii) : Str.is_digit c = true -> name_char c = true.
Proof. StrFacts.by_char c. Qed.

Lemma trim_dashes_ends (s : string) :
  Str.startsWith (Axe.trim_dashes s) "-" = false
  /\ Str.endsWith (Axe.trim_dashes s) "-" = false.
Proof.
  unfold Axe.trim_dashes. split.
  - assert (H : Str.stops Axe.is_dash (Str.drop_while Axe.is_dash s)).
    { induction s as [| c s IH]; [exact I |]. cbn [Str.drop_while].
      destruct (Axe.is_dash c) eqn:E; [exact IH | exact E]. }
    destruct (Str.drop_while Axe.is_dash s) as [| c r]; [reflexivity |].
    destruct (drop_trailing_cons Axe.is_dash c r) as [-> | (r' & -> & _)];
      [reflexivity |].
    cbn [Str.stops] in H. unfold Axe.is_dash in H. apply Ascii.eqb_neq in H.
    unfold Str.startsWith. cbn [String.prefix].
    destruct (ascii_dec "-" c) as [E | _]; [now symmetry in E | reflexivity].
  - destruct (Str.endsWith _ "-") eqn:E; [| reflexivity].
    apply drop_trailing_end in E. discriminate.
Qed.

(** X22.  The names of the screenshot files.  The slug of a page, for
    every path and for every URL, is never empty, is made of letters,
    digits and dashes, and neither starts nor ends with a dash; the file
    name built from it and from the id of a violation is made of such
    characters followed by [.png], so it holds no slash and names a file
    in the screenshots directory. *)
Theorem screenshot_names_are_safe (url pathname vio_id : string) (nIdx : nat)
  (slug : string) :
  slug = Axe.pageSlug url \/ slug = Axe.slug_of_path pathname ->
  slug <> ""%string
  /\ Str.all name_char slug = true
  /\ Str.startsWith slug "-" = false
  /\ Str.endsWith slug "-" = false
  /\ exists stem,
       Axe.filename slug vio_id nIdx = (stem ++ ".png")%string
       /\ Str.all name_char stem = true
       /\ Str.includes (Axe.filename slug vio_id nIdx) "/" = false.
Proof.
  assert (Hslug : forall p,
             Axe.slug_of_path p <> ""%string
             /\ Str.all name_char (Axe.slug_of_path p) = true
             /\ Str.startsWith (Axe.slug_of_path p) "-" = false
             /\ Str.endsWith (Axe.slug_of_path p) "-" = false).
  { intros p. unfold Axe.slug_of_path.
    destruct (p =? "/")%string; [now vm_compute |].
    destruct (trim_dashes_ends (Axe.dash_runs false p)) as [H1 H2].
    destruct (String.eqb_spec (Axe.trim_dashes (Axe.dash_runs false p)) "")
      as [_ | Hne]; [now vm_compute |].
    repeat split; try assumption.
    unfold Axe.trim_dashes. apply all_drop_trailing, all_drop_while, dash_runs_chars. }
  intros Hs.
  assert (Hpage : slug <> ""%string
                  /\ Str.all name_char slug = true
                  /\ Str.startsWith slug "-" = false
                  /\ Str.endsWith slug "-" = false).
  { destruct Hs as [-> | ->]; [| apply Hslug].
    unfold Axe.pageSlug. destruct (Url.URL_parse url); [apply Hslug | now vm_compute]. }
  destruct Hpage as (P1 & P2 & P3 & P4). repeat split; try assumption.
  set (stem := (slug ++ "-" ++ Axe.safeId vio_id ++ "-n"
                ++ Url.string_of_N (N.of_nat (nIdx + 1)))%string).
  assert (Hf : Axe.filename slug vio_id nIdx = (stem ++ ".png")%string).
  { unfold Axe.filename, stem. now rewrite !StrFacts.append_assoc. }
  assert (Hstem : Str.all name_char stem = true).
  { unfold stem. rewrite !StrFacts.all_app, P2. cbn [andb].
    replace (Str.all name_char (Axe.safeId vio_id)) with true.
    - unfold Url.string_of_N.
      now rewrite (StrFacts.all_impl _ _ _ digit_name_char
                     (UrlFacts.string_of_uint_digits _)).
    - symmetry. unfold Axe.safeId, Str.toLowerCase. rewrite StrFacts.all_map.
      generalize (dash_runs_chars false vio_id). apply StrFacts.all_impl.
      apply name_char_lower. }
  exists stem. split; [exact Hf |]. split; [exact Hstem |]. rewrite Hf.
  assert (Hno : forall s, Str.all (fun c => name_char c || Ascii.eqb c "."
                                            || Str.is_lower c) s = true ->
                          Str.includes s "/" = false).
  { induction s as [| c s IH]; [reflexivity |]. cbn [Str.all Str.includes].
    intros H. apply andb_prop in H as [Hc Hsr]. rewrite (IH Hsr), orb_false_r.
    cbn [String.prefix]. destruct (ascii_dec "/" c) as [<- | _]; [| reflexivity].
    discriminate. }
  apply Hno. rewrite StrFacts.all_app. apply andb_true_iff. split; [| reflexivity].
  revert Hstem. apply StrFacts.all_impl. intros c ->. reflexivity.
Qed.

Section RunnerProps.

Variable page_scan : nat -> string -> Axe.PageScan.
Variable shoot : nat -> nat -> nat -> string -> bool.
Variable elapsed : nat -> Z.

Local Abbreviation enhanced := (Axe.enhance shoot).
Local Abbreviation scan := (Axe.scan_loop page_scan shoot elapsed).
Local Abbreviation runAxe := (Axe.runAxeForUrls page_scan shoot elapsed).

Lemma enhance_nodes_spec (i : nat) (slug : string) (vIdx : nat) (vio_id : string)
  (ns : list Axe.AxeNode) :
  forall nIdx,
    Forall2 (node_enhanced slug vio_id) ns
      (Axe.enhance_nodes shoot i slug vIdx vio_id nIdx ns).
Proof.
  induction ns as [| n ns IH]; intros nIdx; cbn [Axe.enhance_nodes]; constructor;
    [| apply IH].
  unfold Axe.enhance_node, node_enhanced.
  destruct (Axe.target n) as [| selector rest] eqn:Et; [auto 6 |].
  destruct (selector =? "")%string; [auto 6 |].
  destruct (shoot i vIdx nIdx selector); [| auto 6].
  cbn [Axe.html Axe.target Axe.failureSummary Axe.screenshot].
  repeat split. right. now exists nIdx.
Qed.

Lemma enhance_violations_spec (i : nat) (slug : string) (vs : list Axe.AxeViolation) :
  forall vIdx,
    Forall2 (violation_enhanced slug) vs (Axe.enhance_violations shoot i slug vIdx vs).
Proof.
  induction vs as [| v vs IH]; intros vIdx; cbn [Axe.enhance_violations];
    constructor; [| apply IH].
  unfold violation_enhanced. cbn [Axe.id Axe.impact Axe.description Axe.help
    Axe.helpUrl Axe.nodes].
  repeat split. apply enhance_nodes_spec.
Qed.

Lemma Forall2_same {A} (R : A -> A -> Prop) (l : list A) :
  (forall x, R x x) -> Forall2 R l l.
Proof. intros H. induction l; constructor; auto. Qed.

Lemma node_enhanced_refl (slug vio_id : string) (n : Axe.AxeNode) :
  node_enhanced slug vio_id n n.
Proof. unfold node_enhanced. auto. Qed.

(** X23.  The screenshot step attaches screenshots and changes nothing
    else: the violations and their nodes stay the same in number and
    order, each violation and each node keeps every other member, and a
    [screenshot] member it sets is a file of the screenshots directory
    named after the page and the violation.  Without a screenshots
    directory the violations are what [axe.run] gave. *)
Theorem enhance_only_attaches_screenshots (opts : Axe.RunOptions) (i : nat)
  (url : string) (result : list Axe.AxeViolation) :
  Forall2 (violation_enhanced (Axe.pageSlug url)) result (enhanced opts i url result)
  /\ length (enhanced opts i url result) = length result
  /\ (Axe.screenshotsDir opts = None -> enhanced opts i url result = result).
Proof.
  assert (H : Forall2 (violation_enhanced (Axe.pageSlug url)) result
                (enhanced opts i url result)).
  { unfold Axe.enhance.
    assert (Hsame : Forall2 (violation_enhanced (Axe.pageSlug url)) result result).
    { apply Forall2_same. intros v. unfold violation_enhanced.
      repeat split. apply Forall2_same. apply node_enhanced_refl. }
    destruct (Axe.screenshotsDir opts) as [dir |]; [| exact Hsame].
    destruct (dir =? "")%string; [exact Hsame | apply enhance_violations_spec]. }
  split; [exact H |]. split.
  - symmetry. eapply Forall2_length. exact H.
  - unfold Axe.enhance. now intros ->.
Qed.

Lemma enhance_length (opts : Axe.RunOptions) (i : nat) (url : string)
  (result : list Axe.AxeViolation) :
  length (enhanced opts i url result) = length result.
Proof.
  unfold Axe.enhance. destruct (Axe.screenshotsDir opts) as [dir |]; [| reflexivity].
  destruct (dir =? "")%string; [reflexivity |].
  generalize 0. induction result as [| v vs IH]; intros vIdx; simpl; [reflexivity |].
  now rewrite IH.
Qed.

Lemma violations_in_app (a b : list Axe.AxeResult) :
  violations_in (a ++ b) = (violations_in a + violations_in b)%Z.
Proof.
  induction a as [| r a IH]; simpl; [reflexivity |]. rewrite IH. lia.
Qed.

(** The loop from any pass on: what it adds to the results. *)
Lemma scan_loop_spec (opts : Axe.RunOptions) (todo : list string) :
  forall i total results,
  exists added,
    scan opts i todo total results = results ++ added
    /\ List.map Axe.url added = firstn (length added) todo
    /\ Forall (fun r => Axe.error r = None \/ Axe.violations r = []) added
    /\ ((Axe.maxIssues opts <= 0)%Z -> length added = length todo)
    /\ (length added < length todo ->
        (0 < Axe.maxIssues opts <= total + violations_in added)%Z)
    /\ ((0 < Axe.maxIssues opts)%Z -> (total < Axe.maxIssues opts)%Z ->
        (total + violations_in (removelast added) < Axe.maxIssues opts)%Z).
Proof.
  induction todo as [| url rest IH]; intros i total results.
  - exists []. simpl. rewrite app_nil_r. repeat split; auto; try lia.
  - cbn [Axe.scan_loop]. destruct (page_scan i url) as [message | result].
    + destruct (IH (S i) total
                  (results ++ [Axe.mkResult url [] (Some message) (elapsed i)]))
        as (added & E & Hu & Hok & Hall & Hstop & Hlast).
      exists (Axe.mkResult url [] (Some message) (elapsed i) :: added).
      rewrite E, <- app_assoc. split; [reflexivity |]. split; [| split; [| split; [| split]]].
      * simpl. now rewrite Hu.
      * constructor; [now right | exact Hok].
      * intros H. simpl. now rewrite (Hall H).
      * intros H. simpl in H. apply Nat.succ_lt_mono in H.
        change (violations_in (_ :: added)) with (0 + violations_in added)%Z.
        specialize (Hstop H). lia.
      * intros H0 H. specialize (Hlast H0 H). destruct added as [| r added'].
        -- simpl. lia.
        -- change (removelast (_ :: r :: added'))
             with (Axe.mkResult url [] (Some message) (elapsed i)
                   :: removelast (r :: added')).
           change (violations_in (_ :: removelast (r :: added')))
             with (0 + violations_in (removelast (r :: added')))%Z.
           lia.
    + set (r0 := Axe.mkResult url (enhanced opts i url result) None (elapsed i)).
      assert (Hr0 : violations_in [r0] = Z.of_nat (length result)).
      { unfold violations_in, r0. simpl. rewrite enhance_length. lia. }
      destruct ((0 <? Axe.maxIssues opts)%Z
                && (Axe.maxIssues opts <=? total + Z.of_nat (length result))%Z) eqn:Estop.
      * apply andb_prop in Estop as [H1 H2].
        apply Z.ltb_lt in H1. apply Z.leb_le in H2.
        exists [r0]. split; [reflexivity |].
        split; [reflexivity |]. split; [| split; [| split]].
        -- constructor; [now left | constructor].
        -- intros H. lia.
        -- intros _. rewrite Hr0. lia.
        -- intros _ H. simpl. lia.
      * destruct (IH (S i) (total + Z.of_nat (length result))%Z (results ++ [r0]))
          as (added & E & Hu & Hok & Hall & Hstop & Hlast).
        exists (r0 :: added). rewrite E, <- app_assoc.
        split; [reflexivity |]. split; [| split; [| split; [| split]]].
        -- simpl. now rewrite Hu.
        -- constructor; [now left | exact Hok].
        -- intros H. simpl. now rewrite (Hall H).
        -- intros H. simpl in H. apply Nat.succ_lt_mono in H. specialize (Hstop H).
           change (r0 :: added) with ([r0] ++ added).
           rewrite violations_in_app, Hr0. lia.
        -- intros H0 H. apply andb_false_iff in Estop.
           assert (Hlt : (total + Z.of_nat (length result) < Axe.maxIssues opts)%Z).
           { destruct Estop as [E0 | E0]; [apply Z.ltb_ge in E0 | apply Z.leb_gt in E0];
               lia. }
           specialize (Hlast H0 Hlt). destruct added as [| r added'].
           ++ simpl. lia.
           ++ change (removelast (r0 :: r :: added'))
                with ([r0] ++ removelast (r :: added')).
              rewrite violations_in_app, Hr0. lia.
Qed.

(** X24.  [runAxeForUrls] scans the URLs in order and gives one result
    for each URL it scanned: the URLs of the results are a beginning of
    the list of URLs, and all of it when [maxIssues] is 0 (or less).  A
    result that carries an error carries no violation. *)
Theorem scan_results_follow_urls (opts : Axe.RunOptions) :
  List.map Axe.url (runAxe opts)
  = firstn (length (runAxe opts)) (Axe.urls opts)
  /\ ((Axe.maxIssues opts <= 0)%Z -> List.map Axe.url (runAxe opts) = Axe.urls opts)
  /\ Forall (fun r => Axe.error r = None \/ Axe.violations r = []) (runAxe opts).
Proof.
  unfold Axe.runAxeForUrls.
  destruct (scan_loop_spec opts (Axe.urls opts) 0 0%Z [])
    as (added & E & Hu & Hok & Hall & _ & _).
  rewrite E. cbn [app]. split; [exact Hu |]. split; [| exact Hok].
  intros H. rewrite Hu, (Hall H). apply firstn_all.
Qed.

(** X25.  With [maxIssues] above 0 the scan stops at the first page at
    which the violations found so far reach [maxIssues]: the results
    before the last hold fewer than [maxIssues] violations, and when a URL
    was left unscanned the results hold at least [maxIssues]. *)
Theorem scan_stops_at_maxIssues (opts : Axe.RunOptions) :
  ((0 < Axe.maxIssues opts)%Z ->
   (violations_in (removelast (runAxe opts)) < Axe.maxIssues opts)%Z)
  /\ (length (runAxe opts) < length (Axe.urls opts) ->
      (0 < Axe.maxIssues opts <= violations_in (runAxe opts))%Z).
Proof.
  unfold Axe.runAxeForUrls.
  destruct (scan_loop_spec opts (Axe.urls opts) 0 0%Z [])
    as (added & E & _ & _ & _ & Hstop & Hlast).
  rewrite E. cbn [app]. split.
  - intros H. specialize (Hlast H H). lia.
  - intros H. specialize (Hstop H). lia.
Qed.

End RunnerProps.

(** ** The report *)

Lemma replace_all_expand (c : ascii) (by_ : string) (s : string) :
  replace_all c by_ s
  = expand (fun d => if Ascii.eqb d c then by_ else String d EmptyString) s.
Proof. induction s as [| d s IH]; simpl; [reflexivity | now rewrite IH]. Qed.

Lemma expand_app (f : ascii -> string) (a b : string) :
  expand f (a ++ b) = (expand f a ++ expand f b)%string.
Proof.
  induction a as [| c a IH]; simpl; [reflexivity |].
  now rewrite IH, StrFacts.append_assoc.
Qed.

Lemma expand_expand (f g : ascii -> string) (s : string) :
  expand f (expand g s) = expand (fun c => expand f (g c)) s.
Proof.
  induction s as [| c s IH]; simpl; [reflexivity |]. now rewrite expand_app, IH.
Qed.

Lemma expand_ext (f g : ascii -> string) (s : string) :
  (forall c, f c = g c) -> expand f s = expand g s.
Proof. intros H. induction s as [| c s IH]; simpl; [reflexivity | now rewrite H, IH]. Qed.

Lemma escapeHtml_expand (s : string) : escapeHtml s = expand escape_char s.
Proof.
  unfold escapeHtml. rewrite !replace_all_expand, !expand_expand.
  apply expand_ext. intros c. StrFacts.by_char c.
Qed.

(** X26.  The five replacements of [escapeHtml], made one after the
    other, come to replacing each character on its own: the ampersands of
    the entities written for [<], [>] and the quotes are not escaped a
    second time.  So escaping goes through concatenation, and a text
    without the five characters is returned as it is. *)
Theorem escapeHtml_by_character (a b : string) :
  escapeHtml a = expand escape_char a
  /\ escapeHtml (a ++ b) = (escapeHtml a ++ escapeHtml b)%string
  /\ (Str.all (fun c => negb (markup_char c || Ascii.eqb c "&")) a = true ->
      escapeHtml a = a).
Proof.
  split; [apply escapeHtml_expand |]. split.
  - rewrite !escapeHtml_expand. apply expand_app.
  - rewrite escapeHtml_expand. induction a as [| c a IH]; [reflexivity |].
    cbn [Str.all expand]. intros H. apply andb_prop in H as [Hc Ha].
    rewrite (IH Ha). clear IH Ha. revert Hc. StrFacts.by_char c.
Qed.

Lemma escape_char_safe (c : ascii) (t : string) :
  Str.all (fun d => negb (markup_char d)) (escape_char c ++ t)
  = Str.all (fun d => negb (markup_char d)) t
  /\ entities_only (escape_char c ++ t) = entities_only t.
Proof.
  destruct c as [[] [] [] [] [] [] [] []]; split; try reflexivity;
    destruct t; reflexivity.
Qed.

(** X27.  What [escapeHtml] returns holds no [<], no [>] and no quote of
    either kind, and each ampersand in it starts one of the entities
    [&amp;], [&lt;], [&gt;], [&quot;] and [&#39;]: an escaped text cannot
    open a tag or close an attribute value. *)
Theorem escapeHtml_leaves_no_markup (input : string) :
  Str.all (fun c => negb (markup_char c)) (escapeHtml input) = true
  /\ entities_only (escapeHtml input) = true.
Proof.
  rewrite escapeHtml_expand. induction input as [| c s [IH1 IH2]]; [now split |].
  cbn [expand]. destruct (escape_char_safe c (expand escape_char s)) as [-> ->].
  now split.
Qed.

Lemma escape_char_cases (c : ascii) :
  (c = "&"%char \/ c = "<"%char \/ c = ">"%char \/ c = Url.dquote \/ c = "'"%char)
  \/ (escape_char c = String c EmptyString /\ c <> "&"%char).
Proof.
  unfold escape_char.
  destruct (Ascii.eqb_spec c "&"); [auto |].
  destruct (Ascii.eqb_spec c "<"); [auto |].
  destruct (Ascii.eqb_spec c ">"); [auto 6 |].
  destruct (Ascii.eqb_spec c Url.dquote); [auto 6 |].
  destruct (Ascii.eqb_spec c "'"); [auto 7 | auto].
Qed.

Lemma escape_char_inj (c d : ascii) (s t : string) :
  (escape_char c ++ s)%string = (escape_char d ++ t)%string -> c = d /\ s = t.
Proof.
  destruct (escape_char_cases c) as [Hc | [Ec Nc]],
           (escape_char_cases d) as [Hd | [Ed Nd]].
  - destruct Hc as [-> | [-> | [-> | [-> | ->]]]],
             Hd as [-> | [-> | [-> | [-> | ->]]]];
      cbn; intros E; try discriminate E; injection E as ->; auto.
  - rewrite Ed. destruct Hc as [-> | [-> | [-> | [-> | ->]]]];
      cbn; intros E; injection E as E _; congruence.
  - rewrite Ec. destruct Hd as [-> | [-> | [-> | [-> | ->]]]];
      cbn; intros E; injection E as E _; congruence.
  - rewrite Ec, Ed. cbn. intros E. now injection E.
Qed.

(** X28.  [escapeHtml] loses nothing: two texts with the same escaped
    form are the same text. *)
Theorem escapeHtml_injective (a b : string) :
  escapeHtml a = escapeHtml b -> a = b.
Proof.
  rewrite !escapeHtml_expand. revert b.
  induction a as [| c a IH]; intros [| d b]; cbn [expand].
  - reflexivity.
  - intros E. exfalso. destruct (escape_char_cases d) as [H | [H _]].
    + destruct H as [-> | [-> | [-> | [-> | ->]]]]; discriminate E.
    + rewrite H in E. discriminate E.
  - intros E. exfalso. destruct (escape_char_cases c) as [H | [H _]].
    + destruct H as [-> | [-> | [-> | [-> | ->]]]]; discriminate E.
    + rewrite H in E. discriminate E.
  - intros E. apply escape_char_inj in E as [-> E]. now rewrite (IH b E).
Qed.

(** ** The command line *)

Lemma drop_trailing_app (p : ascii -> bool) (a b : string) :
  drop_trailing p b <> ""%string ->
  drop_trailing p (a ++ b) = (a ++ drop_trailing p b)%string.
Proof.
  intros Hb. induction a as [| c a IH]; [reflexivity |].
  cbn [String.append drop_trailing]. rewrite IH.
  destruct (a ++ drop_trailing p b)%string as [| d r] eqn:E; [| reflexivity].
  destruct a; [contradiction | discriminate].
Qed.

Lemma drop_trailing_idem (p : ascii -> bool) (s : string) :
  drop_trailing p (drop_trailing p s) = drop_trailing p s.
Proof.
  induction s as [| c s IH]; [reflexivity |].
  cbn [drop_trailing]. destruct (drop_trailing p s) as [| d r] eqn:E.
  - destruct (p c) eqn:Ec; [reflexivity |]. cbn [drop_trailing]. now rewrite Ec.
  - cbn [drop_trailing]. cbn [drop_trailing] in IH. now rewrite IH.
Qed.

Lemma drop_trailing_stops (p : ascii -> bool) (s : string) :
  Str.stops p s -> Str.stops p (drop_trailing p s).
Proof.
  destruct s as [| c s]; [auto |]. cbn [Str.stops]. intros Hc.
  cbn [drop_trailing]. destruct (drop_trailing p s); [now rewrite Hc | exact Hc].
Qed.

Lemma drop_while_stops_at (p : ascii -> bool) (s : string) :
  Str.stops p (Str.drop_while p s).
Proof.
  induction s as [| c s IH]; [exact I |]. cbn [Str.drop_while].
  destruct (p c) eqn:E; [exact IH | exact E].
Qed.

Lemma trim_idem (s : string) : trim (trim s) = trim s.
Proof.
  unfold trim at 1.
  rewrite (StrFacts.drop_while_stops is_space (trim s)).
  - apply drop_trailing_idem.
  - apply drop_trailing_stops, drop_while_stops_at.
Qed.

Lemma trim_plain (s : string) :
  Str.all (fun c => negb (is_space c)) s = true -> trim s = s.
Proof.
  intros H. unfold trim.
  rewrite StrFacts.drop_while_stops.
  - induction s as [| c s IH]; [reflexivity |]. cbn [Str.all] in H.
    apply andb_prop in H as [Hc Hs]. cbn [drop_trailing]. rewrite (IH Hs).
    apply negb_true_iff in Hc. rewrite Hc. now destruct s.
  - destruct s as [| c s]; [exact I |]. cbn [Str.all] in H.
    apply andb_prop in H as [Hc _]. now apply negb_true_iff in Hc.
Qed.

Lemma has_http_scheme_https (t : string) : has_http_scheme ("https://" ++ t) = true.
Proof.
  unfold has_http_scheme. cbn. unfold Str.startsWith. now destruct t.
Qed.

Lemma trim_https (t : string) :
  trim t = t -> trim ("https://" ++ t) = ("https://" ++ t)%string.
Proof.
  intros H.
  assert (Hd : drop_trailing is_space t = t).
  { rewrite <- H at 1. unfold trim. rewrite drop_trailing_idem. exact H. }
  unfold trim. rewrite (StrFacts.drop_while_stops is_space ("https://" ++ t));
    [| reflexivity].
  destruct t as [| c r]; [reflexivity |].
  rewrite drop_trailing_app; rewrite Hd; [reflexivity | discriminate].
Qed.

(** X29.  [ensureProtocol] gives a string that starts with [http://] or
    [https://], in any letter case, and has no space around it; a string
    it returned it returns unchanged.  It puts [https://] before every
    input that does not start so, whatever else the input is. *)
Theorem ensureProtocol_idempotent (input : string) :
  ensureProtocol (ensureProtocol input) = ensureProtocol input
  /\ has_http_scheme (ensureProtocol input) = true
  /\ trim (ensureProtocol input) = ensureProtocol input
  /\ (has_http_scheme (trim input) = false ->
      ensureProtocol input = ("https://" ++ trim input)%string).
Proof.
  assert (Ht : trim (ensureProtocol input) = ensureProtocol input).
  { unfold ensureProtocol. destruct (has_http_scheme (trim input));
      [apply trim_idem | apply trim_https, trim_idem]. }
  assert (Hh : has_http_scheme (ensureProtocol input) = true).
  { unfold ensureProtocol. destruct (has_http_scheme (trim input)) eqn:E;
      [exact E | apply has_http_scheme_https]. }
  split; [| split; [exact Hh |]; split; [exact Ht |]].
  - unfold ensureProtocol at 1. now rewrite Ht, Hh.
  - unfold ensureProtocol. now intros ->.
Qed.

Lemma printable_not_space (c : ascii) :
  Url.is_printable c = true -> negb (is_space c) = true.
Proof. StrFacts.by_char c. Qed.

(** The origin of a record the parser produced parses again, to the
    record with the path [/] and neither query nor fragment. *)
Lemma URL_parse_origin (u : Url.URL) :
  wellformed u = true ->
  Url.URL_parse (origin_of u)
  = Some (Url.mkURL (Url.url_scheme u) (Url.url_host u) (Url.url_port u) "/"
            None None).
Proof.
  destruct u as [s h port p q f]. unfold wellformed. simpl. intros H.
  apply andb_prop in H as [H _]. apply andb_prop in H as [H _].
  apply andb_prop in H as [H _]. apply andb_prop in H as [Hport Hh].
  unfold port_ok in Hport.
  destruct (Url.default_port s) as [dflt |] eqn:Ed; [| discriminate].
  destruct (UrlFacts.special_scheme s dflt Ed) as (Hs1 & Hs2 & Hs3).
  destruct (UrlFacts.host_ok_facts h Hh) as (Hhc & c0 & h' & Eh).
  set (portstr := match port with
                  | Some n => (":" ++ Url.string_of_N n)%string
                  | None => ""%string
                  end).
  assert (Eorigin : origin_of (Url.mkURL s h port p q f)
                    = (s ++ "://" ++ (h ++ portstr) ++ "")%string).
  { unfold origin_of, Url.protocol, Url.host, portstr. simpl.
    rewrite StrFacts.append_nil_r, StrFacts.append_assoc. simpl.
    destruct port; [reflexivity | now rewrite StrFacts.append_nil_r]. }
  rewrite Eorigin.
  assert (Hps : Str.all Url.is_printable portstr = true
                /\ Str.all (fun c => negb (Str.mem c "/\?#")) portstr = true
                /\ Str.stops (fun c => negb (Ascii.eqb c ":")) portstr
                /\ Url.parse_port (Url.tail portstr) dflt = Some port).
  { unfold portstr. destruct port as [n |]; [| now vm_compute].
    unfold Url.string_of_N. cbn [String.append Str.all Url.tail Str.stops].
    rewrite (StrFacts.all_impl _ _ _ UrlFacts.digit_printable
               (UrlFacts.string_of_uint_digits _)).
    rewrite (StrFacts.all_impl _ _ _ UrlFacts.digit_no_delim
               (UrlFacts.string_of_uint_digits _)).
    repeat split. now apply UrlFacts.parse_port_string_of_N. }
  destruct Hps as (Hps1 & Hps2 & Hps3 & Hps4).
  unfold Url.URL_parse.
  replace (Str.all Url.is_printable (s ++ "://" ++ (h ++ portstr) ++ "")) with true.
  2:{ symmetry. rewrite !StrFacts.all_app, Hs1, Hps1.
      rewrite (StrFacts.all_impl _ _ _ UrlFacts.host_char_printable Hhc).
      reflexivity. }
  cbn [negb].
  rewrite (StrFacts.span_app _ s _ Hs2) by reflexivity.
  cbn [String.append]. rewrite Hs3, Ed.
  replace (Str.drop_while Url.is_slash
             (String "/" (String "/" ((h ++ portstr) ++ ""))))
    with ((h ++ portstr) ++ "")%string.
  2:{ symmetry. change (Str.drop_while Url.is_slash
                          (String "/" (String "/" ((h ++ portstr) ++ ""))))
        with (Str.drop_while Url.is_slash ((h ++ portstr) ++ "")).
      apply StrFacts.drop_while_stops. rewrite Eh in *. simpl.
      simpl in Hhc. apply andb_prop in Hhc as [Hc0 _].
      now apply UrlFacts.host_char_not_slash. }
  rewrite (StrFacts.span_app _ (h ++ portstr) "").
  2:{ rewrite StrFacts.all_app, Hps2,
        (StrFacts.all_impl _ _ _ UrlFacts.host_char_no_delim Hhc). reflexivity. }
  2:{ exact I. }
  rewrite (StrFacts.span_app _ h portstr
             (StrFacts.all_impl _ _ _ UrlFacts.host_char_no_colon Hhc) Hps3).
  rewrite (StrFacts.toLowerCase_id h
             (StrFacts.all_impl _ _ _ UrlFacts.host_char_not_upper Hhc)).
  rewrite Hps4. cbn [Str.span]. cbn. now rewrite Hh.
Qed.

(** X30.  The base [ensureBase] stores is read back unchanged: what it
    writes to the last-base file, the origin of the URL it validated, is a
    URL with the path [/] and neither query nor fragment, on the same host,
    and [getLastBase] finds in a file that holds it the same string, so
    that a second run with the same base sees [previousBase === base]. *)
Theorem last_base_reads_back (provided origin : string) :
  ensureBase_origin provided = Some origin ->
  getLastBase (Some origin) = Some origin
  /\ exists u o,
       Url.URL_parse (ensureProtocol provided) = Some u
       /\ Url.URL_parse origin = Some o
       /\ Url.protocol o = Url.protocol u
       /\ Url.host o = Url.host u
       /\ Url.pathname o = "/"%string
       /\ Url.search o = ""%string
       /\ Url.url_fragment o = None
       /\ isSameHost (ensureProtocol provided) origin = Some true.
Proof.
  unfold ensureBase_origin.
  destruct (Url.URL_parse (ensureProtocol provided)) as [u |] eqn:Eu; [| discriminate].
  intros [= <-].
  pose proof (UrlFacts.URL_parse_wellformed _ _ Eu) as Wu.
  pose proof (URL_parse_origin u Wu) as Eo.
  set (o := Url.mkURL (Url.url_scheme u) (Url.url_host u) (Url.url_port u) "/"
              None None) in *.
  assert (Hprint : Str.all Url.is_printable (origin_of u) = true).
  { unfold Url.URL_parse in Eo.
    destruct (Str.all Url.is_printable (origin_of u)); [reflexivity | discriminate]. }
  assert (Htrim : trim (origin_of u) = origin_of u).
  { apply trim_plain. revert Hprint. apply StrFacts.all_impl, printable_not_space. }
  split.
  - unfold getLastBase. rewrite Htrim, Eo. cbn [option_map].
    destruct (String.eqb_spec (origin_of u) "") as [E | _]; [| reflexivity].
    rewrite E in Eo. discriminate.
  - exists u, o. repeat split; try assumption.
    unfold isSameHost. rewrite Eu, Eo. unfold o, Url.hostname, Url.host, Url.protocol.
    cbn [Url.url_scheme Url.url_host Url.url_port]. rewrite !String.eqb_refl.
    now destruct (isLocal (Url.url_host u) && isLocal (Url.url_host u)).
Qed.

(* ================================================================== *)
(** * Part V: the further statements on concrete runs *)
(* ================================================================== *)

Lemma isSameHost_compares_demo :
  Url.URL_parse "http://localhost:3000/a"
  = Some (Url.mkURL "http" "localhost" (Some 3000%N) "/a" None None)
  /\ Url.URL_parse "https://127.0.0.1/b"
     = Some (Url.mkURL "https" "127.0.0.1" None "/b" None None)
  /\ (isSameHost "http://localhost:3000/a" "https://127.0.0.1/b" = Some true
      <-> (isLocal "localhost" = true /\ isLocal "127.0.0.1" = true)
          \/ ("http"%string = "https"%string
              /\ "localhost"%string = "127.0.0.1"%string
              /\ Some 3000%N = None)).
Proof.
  split; [reflexivity |]. split; [reflexivity |].
  apply (isSameHost_compares "http://localhost:3000/a" "https://127.0.0.1/b"
           (Url.mkURL "http" "localhost" (Some 3000%N) "/a" None None)
           (Url.mkURL "https" "127.0.0.1" None "/b" None None));
    reflexivity.
Defined.

Lemma normalizeUrl_keeps_host_demo :
  normalizeUrl compare_bytes "HTTP://A.com:80/x/?b=1&a=2#f"
  = Some "http://a.com/x?a=2&b=1"%string
  /\ (isSameHost "HTTP://A.com:80/x/?b=1&a=2#f" "http://a.com/x?a=2&b=1" = Some true
      /\ forall other,
           isSameHost "http://a.com/x?a=2&b=1" other
           = isSameHost "HTTP://A.com:80/x/?b=1&a=2#f" other).
Proof.
  split; [reflexivity |].
  apply (normalizeUrl_keeps_host compare_bytes "HTTP://A.com:80/x/?b=1&a=2#f"
           "http://a.com/x?a=2&b=1").
  reflexivity.
Defined.

Lemma fetched_within_maxPages_demo :
  crawlSite_state compare_bytes resolve_absolute allow_all roomy_opts demo_turns
  = Some roomy_state
  /\ (length (fetched roomy_state) <= maxPages roomy_opts
      /\ forall t, In t (fetched roomy_state) -> In (url t) (visited roomy_state)).
Proof.
  split; [reflexivity |].
  apply (fetched_within_maxPages compare_bytes resolve_absolute allow_all roomy_opts
           demo_turns roomy_state).
  reflexivity.
Defined.

Lemma queued_depth_within_maxDepth_demo :
  crawlSite_state compare_bytes resolve_absolute allow_all roomy_opts demo_turns
  = Some roomy_state
  /\ ((In (mkTask "http://a.com/c" 1) (queue roomy_state)
       \/ In (mkTask "http://a.com/c" 1) (pending roomy_state) ->
       depth (mkTask "http://a.com/c" 1) <= maxDepth roomy_opts)
      /\ (In (mkTask "http://a.com/c" 1) (loading roomy_state)
          \/ In (mkTask "http://a.com/c" 1) (fetched roomy_state) ->
          depth (mkTask "http://a.com/c" 1) < maxDepth roomy_opts)).
Proof.
  split; [reflexivity |].
  apply (queued_depth_within_maxDepth compare_bytes resolve_absolute allow_all
           roomy_opts demo_turns roomy_state (mkTask "http://a.com/c" 1)).
  reflexivity.
Defined.

Lemma crawl_result_starts_at_seed_demo :
  crawlSite compare_bytes resolve_absolute allow_all pdf_opts [NextBatch; Enter 0]
  = Some []
  /\ normalizeUrl compare_bytes (baseUrl pdf_opts) = Some "http://a.com/x.pdf"%string
  /\ ((@nil string = [] \/ exists rest, [] = "http://a.com/x.pdf"%string :: rest)
      /\ (@nil string = []
          <-> (isLikelyHtmlPage "http://a.com/x.pdf" = false
               \/ (respectRobots pdf_opts = true
                   /\ allow_all "http://a.com/x.pdf" = false)
               \/ maxPages pdf_opts = 0))).
Proof.
  split; [reflexivity |]. split; [reflexivity |].
  apply (crawl_result_starts_at_seed compare_bytes resolve_absolute allow_all pdf_opts
           [NextBatch; Enter 0] [] "http://a.com/x.pdf"); reflexivity.
Defined.

Lemma sitemap_urls_on_site_demo :
  parseSitemapUrls compare_bytes resolve_absolute (always slashes_response)
    clock_zero no_number no_date
    (parse_only slashes_body (mkDoc ["http://a.com/x//"%string] []))
    1 "http://a.com/sitemap.xml" "http://a.com" []
  = (Returned ["http://a.com/x/"%string], [Get "http://a.com/sitemap.xml"])
  /\ (NoDup ["http://a.com/x/"%string]
      /\ forall u, In u ["http://a.com/x/"%string] ->
           canonical compare_bytes u /\ isSameHost "http://a.com" u = Some true).
Proof.
  split; [reflexivity |].
  apply (proj1 (sitemap_urls_on_site compare_bytes resolve_absolute
                  (always slashes_response) clock_zero no_number no_date
                  (parse_only slashes_body (mkDoc ["http://a.com/x//"%string] []))
                  1 "http://a.com")
           "http://a.com/sitemap.xml" [] [Get "http://a.com/sitemap.xml"]
           ["http://a.com/x/"%string]).
  reflexivity.
Defined.

Lemma null_document_throws_demo :
  fetchXml (always slashes_response) clock_zero no_number no_date
    "http://a.com/sitemap.xml" []
  = (inl slashes_body, [Get "http://a.com/sitemap.xml"])
  /\ parse_null slashes_body = XmlNull
  /\ parseSitemapUrls compare_bytes resolve_absolute (always slashes_response)
       clock_zero no_number no_date parse_null 1 "http://a.com/sitemap.xml"
       "http://a.com" []
     = (Thrown, [Get "http://a.com/sitemap.xml"]).
Proof.
  split; [reflexivity |]. split; [reflexivity |].
  apply (null_document_throws compare_bytes resolve_absolute (always slashes_response)
           clock_zero no_number no_date parse_null 0 "http://a.com/sitemap.xml"
           "http://a.com" slashes_body [] [Get "http://a.com/sitemap.xml"]);
    reflexivity.
Defined.


Lemma discoverSitemaps_lists_demo :
  discoverSitemaps compare_bytes resolve_reference (robots_reply robots_response)
    (robots_listing ["http://a.com/sm.xml/"%string]) "http://a.com"
    (Some "http://a.com/extra.xml"%string)
  = Some ["http://a.com/sitemap.xml"%string; "http://a.com/sm.xml"%string;
          "http://a.com/extra.xml"%string]
  /\ exists dflt robots,
       resolve_reference "/sitemap.xml" "http://a.com" = Some dflt
       /\ parseRobots compare_bytes resolve_reference (robots_reply robots_response)
            (robots_listing ["http://a.com/sm.xml/"%string]) "http://a.com"
          = Some robots
       /\ hd_error ["http://a.com/sitemap.xml"%string; "http://a.com/sm.xml"%string;
                    "http://a.com/extra.xml"%string] = Some dflt
       /\ NoDup ["http://a.com/sitemap.xml"%string; "http://a.com/sm.xml"%string;
                 "http://a.com/extra.xml"%string]
       /\ (forall u,
             In u ["http://a.com/sitemap.xml"%string; "http://a.com/sm.xml"%string;
                   "http://a.com/extra.xml"%string]
             <-> u = dflt \/ In u (sitemaps robots)
                 \/ (Some "http://a.com/extra.xml"%string = Some u /\ u <> ""%string))
       /\ forall u, In u (sitemaps robots) -> canonical compare_bytes u.
Proof.
  split; [reflexivity |].
  apply (discoverSitemaps_lists compare_bytes resolve_reference
           (robots_reply robots_response)
           (robots_listing ["http://a.com/sm.xml/"%string]) "http://a.com"
           (Some "http://a.com/extra.xml"%string)).
  reflexivity.
Defined.

Lemma robots_unavailable_demo :
  resolve_reference "/robots.txt" "http://a.com" = Some "http://a.com/robots.txt"%string
  /\ (exists res,
        robots_reply robots_missing "http://a.com/robots.txt" = Replied res
        /\ (status res < 200 \/ 300 <= status res)%Z)
  /\ discoverSitemaps compare_bytes resolve_reference (robots_reply robots_missing)
       (robots_listing []) "http://a.com" (Some "http://a.com/extra.xml"%string)
     = Some ["http://a.com/sitemap.xml"%string; "http://a.com/extra.xml"%string].
Proof.
  assert (H1 : resolve_reference "/robots.txt" "http://a.com"
               = Some "http://a.com/robots.txt"%string) by reflexivity.
  assert (H2 : robots_reply robots_missing "http://a.com/robots.txt" = NetworkError
               \/ exists res,
                    robots_reply robots_missing "http://a.com/robots.txt" = Replied res
                    /\ (status res < 200 \/ 300 <= status res)%Z).
  { right. exists robots_missing. split; [reflexivity |]. right. simpl. lia. }
  split; [exact H1 |]. split; [destruct H2 as [H2 | H2]; [discriminate H2 | exact H2] |].
  destruct (robots_unavailable compare_bytes resolve_reference
              (robots_reply robots_missing) (robots_listing []) "http://a.com"
              "http://a.com/robots.txt" H1 H2) as (_ & H & _).
  exact (H "http://a.com/sitemap.xml"%string (Some "http://a.com/extra.xml"%string)
           eq_refl).
Defined.

Lemma robots_sitemap_line_must_parse_demo :
  resolve_reference "/robots.txt" "http://a.com" = Some "http://a.com/robots.txt"%string
  /\ (200 <= status robots_response < 300)%Z
  /\ In "/sitemap.xml"%string
       (getSitemaps (robots_listing ["/sitemap.xml"%string] "http://a.com/robots.txt"
                       (data robots_response)))
  /\ normalizeUrl compare_bytes "/sitemap.xml" = None
  /\ (parseRobots compare_bytes resolve_reference (robots_reply robots_response)
        (robots_listing ["/sitemap.xml"%string]) "http://a.com" = None
      /\ (forall explicit,
            discoverSitemaps compare_bytes resolve_reference
              (robots_reply robots_response) (robots_listing ["/sitemap.xml"%string])
              "http://a.com" explicit = None)
      /\ (forall opts turns,
            normalizeUrl compare_bytes (baseUrl opts) = Some "http://a.com"%string ->
            crawlSite_robots compare_bytes resolve_reference
              (robots_reply robots_response) (robots_listing ["/sitemap.xml"%string])
              opts turns = None)).
Proof.
  assert (Hs : (200 <= status robots_response < 300)%Z) by (simpl; lia).
  split; [reflexivity |]. split; [exact Hs |]. split; [now left |].
  split; [reflexivity |].
  apply (robots_sitemap_line_must_parse compare_bytes resolve_reference
           (robots_reply robots_response) (robots_listing ["/sitemap.xml"%string])
           "http://a.com" "http://a.com/robots.txt" "/sitemap.xml" robots_response);
    try reflexivity; [exact Hs | now left].
Defined.

Lemma escapeHtml_injective_demo :
  escapeHtml "<a href='x'>" = escapeHtml "<a href='x'>"
  /\ escapeHtml "<a href='x'>" = "&lt;a href=&#39;x&#39;&gt;"%string
  /\ "<a href='x'>"%string = "<a href='x'>"%string.
Proof.
  split; [reflexivity |]. split; [reflexivity |].
  apply (escapeHtml_injective "<a href='x'>" "<a href='x'>"). reflexivity.
Defined.

Lemma last_base_reads_back_demo :
  ensureBase_origin "  Example.com:8080/docs?x=1 " = Some "https://example.com:8080"%string
  /\ getLastBase (Some "https://example.com:8080"%string)
     = Some "https://example.com:8080"%string.
Proof.
  split; [reflexivity |].
  exact (proj1 (last_base_reads_back "  Example.com:8080/docs?x=1 "
                  "https://example.com:8080" eq_refl)).
Defined.



(** The scan of [demo_run] stops at the third of its four URLs. *)
Lemma scan_results_follow_urls_demo :
  List.map Axe.url (Axe.runAxeForUrls demo_scan demo_shoot demo_elapsed demo_run)
  = ["http://a.com/"%string; "http://a.com/bad"%string; "http://a.com/b"%string]
  /\ List.map Axe.url (Axe.runAxeForUrls demo_scan demo_shoot demo_elapsed demo_run)
     = firstn 3 (Axe.urls demo_run).
Proof.
  split; [reflexivity |].
  exact (proj1 (scan_results_follow_urls demo_scan demo_shoot demo_elapsed demo_run)).
Defined.

Lemma scan_stops_at_maxIssues_demo :
  (0 < Axe.maxIssues demo_run)%Z
  /\ length (Axe.runAxeForUrls demo_scan demo_shoot demo_elapsed demo_run)
     < length (Axe.urls demo_run)
  /\ violations_in (Axe.runAxeForUrls demo_scan demo_shoot demo_elapsed demo_run) = 4%Z
  /\ (violations_in
        (removelast (Axe.runAxeForUrls demo_scan demo_shoot demo_elapsed demo_run))
      < Axe.maxIssues demo_run)%Z
  /\ (0 < Axe.maxIssues demo_run
      <= violations_in (Axe.runAxeForUrls demo_scan demo_shoot demo_elapsed demo_run))%Z.
Proof.
  assert (H0 : (0 < Axe.maxIssues demo_run)%Z) by reflexivity.
  assert (H1 : length (Axe.runAxeForUrls demo_scan demo_shoot demo_elapsed demo_run)
               < length (Axe.urls demo_run)) by (vm_compute; lia).
  split; [exact H0 |]. split; [exact H1 |]. split; [reflexivity |].
  destruct (scan_stops_at_maxIssues demo_scan demo_shoot demo_elapsed demo_run)
    as [Ha Hb].
  split; [exact (Ha H0) | exact (Hb H1)].
Defined.

(** The first page of [demo_run]: each node gets its screenshot. *)
Lemma enhance_only_attaches_screenshots_demo :
  Axe.enhance demo_shoot demo_run 0 "http://a.com/" [demo_violation]
  = [Axe.mkViolation "color-contrast" (Some "serious"%string) "Contrast" "Help"
       "https://dequeuniversity.com/rules/axe/color-contrast"
       [Axe.mkNode "<p>" ["#x"%string] None
          (Some "screenshots/home-color-contrast-n1.png"%string)]]
  /\ Forall2 (violation_enhanced (Axe.pageSlug "http://a.com/")) [demo_violation]
       (Axe.enhance demo_shoot demo_run 0 "http://a.com/" [demo_violation]).
Proof.
  split; [reflexivity |].
  exact (proj1 (enhance_only_attaches_screenshots demo_shoot demo_run 0
                  "http://a.com/" [demo_violation])).
Defined.

Lemma screenshot_names_are_safe_demo :
  Axe.slug_of_path "/Docs/Getting Started/" = "Docs-Getting-Started"%string
  /\ Axe.filename "Docs-Getting-Started" "Color Contrast" 0
     = "Docs-Getting-Started-color-contrast-n1.png"%string
  /\ Str.includes (Axe.filename "Docs-Getting-Started" "Color Contrast" 0) "/" = false.
Proof.
  split; [reflexivity |]. split; [reflexivity |].
  destruct (screenshot_names_are_safe "" "/Docs/Getting Started/" "Color Contrast" 0
              "Docs-Getting-Started" (or_intror eq_refl))
    as (_ & _ & _ & _ & stem & _ & _ & H).
  exact H.
Defined.
